(** * OctoCropper: region geometry and interaction engine

    A shallow embedding of the editor logic of [src/App.tsx] (data model of
    [src/types.ts]) together with the properties of its specification.

    Numbers.  A JavaScript [number] is modelled by an exact rational [Q]:
    coordinates, sizes and the zoom factor are finite, and the arithmetic of
    the editor is [+], [-], [*], [/], [Math.min], [Math.max], [Math.abs] and
    comparisons.  The places where the source takes a square root
    ([Math.hypot]) only compare the root with another quantity; they are
    modelled by the equivalent comparison of squares.  [Infinity] and
    [NaN], which the rasteriser's bounding box starts from, are modelled by
    the extended type [xnum].  Rounding of IEEE doubles is not modelled, and
    neither is a division by zero: the zoom factor is positive and a loaded
    image has a positive size.

    React state.  Every handler of the component reads the state captured by
    the current render and calls setters of distinct state cells; a handler
    is therefore a function from the editor state to the next editor state.
    A thrown [TypeError] (reading a field of [undefined] or [null]) is
    modelled by [None]. *)

From Stdlib Require Import QArith Qabs Qminmax Lqa ZArith List String Bool Lia.
From Stdlib Require Import DecimalString DecimalNat Ascii Permutation.
From stdpp Require Import base decidable countable gmap.
Import ListNotations.

Local Open Scope string_scope.
Local Open Scope list_scope.
Local Open Scope Q_scope.

(** ** Numbers *)

Definition Qltb (a b : Q) : bool := negb (Qle_bool b a).
Definition Qleb (a b : Q) : bool := Qle_bool a b.
Definition Qgtb (a b : Q) : bool := Qltb b a.

(** [Math.hypot(dx, dy) < r]: over the reals [sqrt (dx² + dy²) < r] holds
    exactly when [0 < r] and [dx² + dy² < r²]. *)
Definition hypot_lt (dx dy r : Q) : bool :=
  Qltb 0 r && Qltb (dx * dx + dy * dy) (r * r).

(** ** Data model ([src/types.ts]) *)

Record Point : Type := mkPoint { px : Q; py : Q }.

Inductive Part : Type :=
| RectPart (x y w h : Q)
| PolyPart (points : list Point).

Record Region : Type := mkRegion { id : Z; parts : list Part }.

Record ProcessedImage : Type :=
  mkProcessedImage { img_id : Z; img_name : string; dataUrl : string }.

(** [DragMode] without its [null], which is [None] of [option DragMode]. *)
Inductive DragMode : Type :=
| DBody | DVertex | DN | DE | DS | DW | DNW | DNE | DSE | DSW.

Record DraggingState : Type := mkDragging {
  isDragging : bool;
  selectedRegion : option Region;
  selectedPartIndex : Z;
  selectedVertexIndex : Z;
  dragMode : option DragMode;
  mouseOffset : Point
}.

Record HitResult : Type := mkHit {
  hit_region : option Region;
  hit_part : option Part;
  hit_partIndex : Z;
  hit_vertex : option Point;
  hit_vertexIndex : Z;
  hit_mode : option DragMode;
  hit_cursor : string
}.

(** The loaded image, of which the editor only reads the natural size. *)
Record Image : Type := mkImage { naturalWidth : Q; naturalHeight : Q }.

Definition HANDLE_SIZE : Q := 12.

(** [arr[i]] for a JavaScript index: [undefined] below 0 and past the end. *)
Definition nthZ {A : Type} (l : list A) (i : Z) : option A :=
  if (i <? 0)%Z then None else nth_error l (Z.to_nat i).

(** [arr[i] = v] on an index inside the array. *)
Fixpoint set_nth {A : Type} (l : list A) (i : nat) (v : A) : list A :=
  match l, i with
  | [], _ => []
  | _ :: t, O => v :: t
  | a :: t, S k => a :: set_nth t k v
  end.

(** [arr.splice(start, 0, item)] for [0 <= start]: a start past the end is
    taken as the length. *)
Definition splice_insert {A : Type} (l : list A) (start : nat) (item : A) : list A :=
  firstn start l ++ item :: skipn start l.

(** [arr.splice(start, 1)] for [0 <= start]. *)
Definition splice_remove {A : Type} (l : list A) (start : nat) : list A :=
  firstn start l ++ skipn (S start) l.

(** [arr.findIndex(r => r.id === i)], with [None] for [-1]. *)
Fixpoint findIndex_id (i : Z) (rs : list Region) : option nat :=
  match rs with
  | [] => None
  | r :: t => if (id r =? i)%Z then Some O
              else option_map S (findIndex_id i t)
  end.

(** ** Geometry primitives *)

Fixpoint pointInPolygon_loop (x y : Q) (vj : Point) (vs : list Point)
    (inside : bool) : bool :=
  match vs with
  | [] => inside
  | vi :: rest =>
      let xi := px vi in let yi := py vi in
      let xj := px vj in let yj := py vj in
      let intersect :=
        negb (Bool.eqb (Qgtb yi y) (Qgtb yj y))
        && Qltb x ((xj - xi) * (y - yi) / (yj - yi) + xi) in
      pointInPolygon_loop x y vi rest (if intersect then negb inside else inside)
  end.

Definition pointInPolygon (point : Point) (vs : list Point) : bool :=
  match vs with
  | [] => false
  | v0 :: _ => pointInPolygon_loop (px point) (py point) (List.last vs v0) vs false
  end.

(** [distToSegment], returning the square of the distance. *)
Definition distToSegment (p v w : Point) : Q * Point :=
  let l2 := (px v - px w) * (px v - px w) + (py v - py w) * (py v - py w) in
  if Qeq_bool l2 0 then
    ((px p - px v) * (px p - px v) + (py p - py v) * (py p - py v), mkPoint (px v) (py v))
  else
    let t := ((px p - px v) * (px w - px v) + (py p - py v) * (py w - py v)) / l2 in
    let t := Qmax 0 (Qmin 1 t) in
    let projection := mkPoint (px v + t * (px w - px v)) (py v + t * (py w - py v)) in
    ((px p - px projection) * (px p - px projection)
     + (py p - py projection) * (py p - py projection), projection).

(** ** Editor state (the [useState] cells and the dragging ref of [App]) *)

Record Editor : Type := mkEditor {
  originalImage : option Image;
  originalFileName : option string;
  regions : list Region;
  processedImages : list ProcessedImage;
  isSelectMode : bool;
  multiSelectRegions : gset Z;
  isWaitingForPointClick : bool;
  isDeletePointMode : bool;
  isDeleteRegionMode : bool;
  cursor : string;
  zoom : Q;
  draggingState : DraggingState
}.

Definition setRegions (v : list Region) (st : Editor) : Editor :=
  mkEditor (originalImage st) (originalFileName st) v (processedImages st)
    (isSelectMode st) (multiSelectRegions st) (isWaitingForPointClick st)
    (isDeletePointMode st) (isDeleteRegionMode st) (cursor st) (zoom st)
    (draggingState st).

Definition setProcessedImages (v : list ProcessedImage) (st : Editor) : Editor :=
  mkEditor (originalImage st) (originalFileName st) (regions st) v
    (isSelectMode st) (multiSelectRegions st) (isWaitingForPointClick st)
    (isDeletePointMode st) (isDeleteRegionMode st) (cursor st) (zoom st)
    (draggingState st).

Definition setIsSelectMode (v : bool) (st : Editor) : Editor :=
  mkEditor (originalImage st) (originalFileName st) (regions st) (processedImages st)
    v (multiSelectRegions st) (isWaitingForPointClick st)
    (isDeletePointMode st) (isDeleteRegionMode st) (cursor st) (zoom st)
    (draggingState st).

Definition setMultiSelectRegions (v : gset Z) (st : Editor) : Editor :=
  mkEditor (originalImage st) (originalFileName st) (regions st) (processedImages st)
    (isSelectMode st) v (isWaitingForPointClick st)
    (isDeletePointMode st) (isDeleteRegionMode st) (cursor st) (zoom st)
    (draggingState st).

Definition setIsWaitingForPointClick (v : bool) (st : Editor) : Editor :=
  mkEditor (originalImage st) (originalFileName st) (regions st) (processedImages st)
    (isSelectMode st) (multiSelectRegions st) v
    (isDeletePointMode st) (isDeleteRegionMode st) (cursor st) (zoom st)
    (draggingState st).

Definition setIsDeletePointMode (v : bool) (st : Editor) : Editor :=
  mkEditor (originalImage st) (originalFileName st) (regions st) (processedImages st)
    (isSelectMode st) (multiSelectRegions st) (isWaitingForPointClick st)
    v (isDeleteRegionMode st) (cursor st) (zoom st)
    (draggingState st).

Definition setIsDeleteRegionMode (v : bool) (st : Editor) : Editor :=
  mkEditor (originalImage st) (originalFileName st) (regions st) (processedImages st)
    (isSelectMode st) (multiSelectRegions st) (isWaitingForPointClick st)
    (isDeletePointMode st) v (cursor st) (zoom st)
    (draggingState st).

Definition setCursor (v : string) (st : Editor) : Editor :=
  mkEditor (originalImage st) (originalFileName st) (regions st) (processedImages st)
    (isSelectMode st) (multiSelectRegions st) (isWaitingForPointClick st)
    (isDeletePointMode st) (isDeleteRegionMode st) v (zoom st)
    (draggingState st).

Definition setDraggingState (v : DraggingState) (st : Editor) : Editor :=
  mkEditor (originalImage st) (originalFileName st) (regions st) (processedImages st)
    (isSelectMode st) (multiSelectRegions st) (isWaitingForPointClick st)
    (isDeletePointMode st) (isDeleteRegionMode st) (cursor st) (zoom st)
    v.

(** ** Modal editing modes

    The guards read the flags of the state the handler was created in
    ([st0]); the setters act on the state being built. *)

Definition cancelAddPointMode (st : Editor) : Editor :=
  setCursor "default" (setIsWaitingForPointClick false st).

Definition when (b : bool) (f : Editor -> Editor) (st : Editor) : Editor :=
  if b then f st else st.

Definition toggleSelectMode (st0 : Editor) : Editor :=
  let st := setIsSelectMode (negb (isSelectMode st0)) st0 in
  let st := when (isWaitingForPointClick st0) cancelAddPointMode st in
  let st := when (isDeletePointMode st0) (setIsDeletePointMode false) st in
  let st := when (isDeleteRegionMode st0) (setIsDeleteRegionMode false) st in
  setMultiSelectRegions ∅ st.

Definition startAddPointMode (st0 : Editor) : Editor :=
  if isWaitingForPointClick st0 then cancelAddPointMode st0
  else
    let st := setIsWaitingForPointClick true st0 in
    let st := when (isSelectMode st0) (setIsSelectMode false) st in
    let st := when (isDeletePointMode st0) (setIsDeletePointMode false) st in
    let st := when (isDeleteRegionMode st0) (setIsDeleteRegionMode false) st in
    let st := setMultiSelectRegions ∅ st in
    setCursor "crosshair" st.

Definition toggleDeletePointMode (st0 : Editor) : Editor :=
  let turningOn := negb (isDeletePointMode st0) in
  let st := setIsDeletePointMode turningOn st0 in
  if turningOn then
    let st := when (isSelectMode st0) (setIsSelectMode false) st in
    let st := when (isWaitingForPointClick st0) cancelAddPointMode st in
    let st := when (isDeleteRegionMode st0) (setIsDeleteRegionMode false) st in
    setCursor "crosshair" st
  else setCursor "default" st.

Definition toggleDeleteRegionMode (st0 : Editor) : Editor :=
  let turningOn := negb (isDeleteRegionMode st0) in
  let st := setIsDeleteRegionMode turningOn st0 in
  if turningOn then
    let st := when (isSelectMode st0) (setIsSelectMode false) st in
    let st := when (isWaitingForPointClick st0) cancelAddPointMode st in
    let st := when (isDeletePointMode st0) (setIsDeletePointMode false) st in
    setCursor "pointer" st
  else setCursor "default" st.

(** ** Hit classifier *)

Definition noHit : HitResult :=
  mkHit None None (-1) None (-1) None "default".

Definition bodyCursor (selectMode deleteRegionMode : bool) : string :=
  if selectMode || deleteRegionMode then "pointer" else "move".

Definition near (a b h2 : Q) : bool := Qltb (Qabs (a - b)) h2.

(** One iteration of the loop over [region.parts] for a rectangle: the
    eight handle tests, in the order of the source, then the body test. *)
Definition hitRect (st : Editor) (h2 : Q) (pos : Point) (region : Region)
    (j : Z) (x y w h : Q) : option HitResult :=
  let part := RectPart x y w h in
  let handle m c := Some (mkHit (Some region) (Some part) j None (-1) (Some m) c) in
  let posx := px pos in let posy := py pos in
  let handles :=
    if negb (isSelectMode st) && negb (isWaitingForPointClick st)
       && negb (isDeletePointMode st) && negb (isDeleteRegionMode st) then
      if near posx x h2 && near posy y h2 then handle DNW "nwse-resize"
      else if near posx (x + w) h2 && near posy y h2 then handle DNE "nesw-resize"
      else if near posx (x + w) h2 && near posy (y + h) h2 then handle DSE "nwse-resize"
      else if near posx x h2 && near posy (y + h) h2 then handle DSW "nesw-resize"
      else if near posx (x + w / 2) h2 && near posy y h2 then handle DN "ns-resize"
      else if near posx (x + w) h2 && near posy (y + h / 2) h2 then handle DE "ew-resize"
      else if near posx (x + w / 2) h2 && near posy (y + h) h2 then handle DS "ns-resize"
      else if near posx x h2 && near posy (y + h / 2) h2 then handle DW "ew-resize"
      else None
    else None in
  match handles with
  | Some r => Some r
  | None =>
      if Qgtb posx x && Qltb posx (x + w) && Qgtb posy y && Qltb posy (y + h) then
        Some (mkHit (Some region) (Some part) j None (-1) (Some DBody)
                (bodyCursor (isSelectMode st) (isDeleteRegionMode st)))
      else None
  end.

(** The loop over the vertices of a polygon, from index [k]. *)
Fixpoint hitVertices (st : Editor) (h2 : Q) (pos : Point) (region : Region)
    (j : Z) (part : Part) (k : Z) (ps : list Point) : option HitResult :=
  match ps with
  | [] => None
  | p :: rest =>
      if hypot_lt (px pos - px p) (py pos - py p) h2 then
        if isDeletePointMode st then
          Some (mkHit (Some region) (Some part) j (Some p) k (Some DVertex) "crosshair")
        else if negb (isSelectMode st) && negb (isWaitingForPointClick st) then
          Some (mkHit (Some region) (Some part) j (Some p) k (Some DVertex) "grab")
        else hitVertices st h2 pos region j part (k + 1)%Z rest
      else hitVertices st h2 pos region j part (k + 1)%Z rest
  end.

Definition hitPoly (st : Editor) (h2 : Q) (pos : Point) (region : Region)
    (j : Z) (points : list Point) : option HitResult :=
  let part := PolyPart points in
  match hitVertices st h2 pos region j part 0%Z points with
  | Some r => Some r
  | None =>
      if pointInPolygon pos points then
        Some (mkHit (Some region) (Some part) j None (-1) (Some DBody)
                (bodyCursor (isSelectMode st) (isDeleteRegionMode st)))
      else None
  end.

Definition hitPart (st : Editor) (h2 : Q) (pos : Point) (region : Region)
    (j : Z) (part : Part) : option HitResult :=
  match part with
  | RectPart x y w h => hitRect st h2 pos region j x y w h
  | PolyPart points => hitPoly st h2 pos region j points
  end.

(** The loop [for (j = 0; j < region.parts.length; j++)], from index [j]. *)
Fixpoint hitParts (st : Editor) (h2 : Q) (pos : Point) (region : Region)
    (j : Z) (ps : list Part) : option HitResult :=
  match ps with
  | [] => None
  | part :: rest =>
      match hitPart st h2 pos region j part with
      | Some r => Some r
      | None => hitParts st h2 pos region (j + 1)%Z rest
      end
  end.

(** The loop [for (i = regions.length - 1; i >= 0; i--)]: the regions are
    visited from the last one to the first one. *)
Fixpoint hitRegions (st : Editor) (h2 : Q) (pos : Point)
    (backToFront : list Region) : HitResult :=
  match backToFront with
  | [] => noHit
  | region :: rest =>
      match hitParts st h2 pos region 0%Z (parts region) with
      | Some r => r
      | None => hitRegions st h2 pos rest
      end
  end.

Definition getHitRegion (st : Editor) (pos : Point) : HitResult :=
  let threshold := HANDLE_SIZE / zoom st in
  let h2 := threshold / 2 in
  hitRegions st h2 pos (rev (regions st)).

(** ** Region / part model *)

(** [addRegion], with [now] the value of [Date.now()]. *)
Definition addRegion (now : Z) (st : Editor) : Editor :=
  match originalImage st with
  | None => st
  | Some img =>
      let defaultSize := Qmin (naturalWidth img) (naturalHeight img) * 0.25 in
      let newRegion :=
        mkRegion now
          [RectPart (naturalWidth img / 2 - defaultSize / 2)
                    (naturalHeight img / 2 - defaultSize / 2)
                    defaultSize defaultSize] in
      setRegions (regions st ++ [newRegion]) st
  end.

(** The running minimum of [findClosestEdgePoint]; [cl_dist2 = None] is the
    initial [Infinity], otherwise it is the square of [minDistance]. *)
Record Closest : Type := mkClosest {
  cl_dist2 : option Q;
  cl_region : option Region;
  cl_partIndex : Z;
  cl_segmentIndex : Z;
  cl_point : option Point
}.

Definition noClosest : Closest := mkClosest None None (-1) (-1) None.

(** The segments [{p1, p2, index}] of a part. *)
Definition segmentsOf (part : Part) : list (Point * Point * Z) :=
  match part with
  | PolyPart points =>
      combine (combine points (skipn 1 points ++ firstn 1 points))
              (map Z.of_nat (seq 0 (length points)))
  | RectPart x y w h =>
      let p1 := mkPoint x y in
      let p2 := mkPoint (x + w) y in
      let p3 := mkPoint (x + w) (y + h) in
      let p4 := mkPoint x (y + h) in
      [(p1, p2, 0%Z); (p2, p3, 1%Z); (p3, p4, 2%Z); (p4, p1, 3%Z)]
  end.

Definition closestStep (pos : Point) (region : Region) (partIdx : Z)
    (acc : Closest) (seg : Point * Point * Z) : Closest :=
  let '(p1, p2, index) := seg in
  let '(distance2, point) := distToSegment pos p1 p2 in
  let closer := match cl_dist2 acc with
                | None => true
                | Some m => Qltb distance2 m
                end in
  if closer then mkClosest (Some distance2) (Some region) partIdx index (Some point)
  else acc.

Fixpoint closestParts (pos : Point) (region : Region) (partIdx : Z)
    (ps : list Part) (acc : Closest) : Closest :=
  match ps with
  | [] => acc
  | part :: rest =>
      closestParts pos region (partIdx + 1)%Z rest
        (fold_left (closestStep pos region partIdx) (segmentsOf part) acc)
  end.

Definition findClosestEdgePoint (st : Editor) (pos : Point)
    (allRegions : list Region) : Closest :=
  let threshold := HANDLE_SIZE / zoom st in
  let best :=
    fold_left (fun acc region => closestParts pos region 0%Z (parts region) acc)
              allRegions noClosest in
  let tooFar := match cl_dist2 best with
                | None => true
                | Some d2 => Qltb threshold 0 || Qgtb d2 (threshold * threshold)
                end in
  if tooFar then noClosest else best.

(** The first region of the array with the given id ([Array.find]). *)
Definition findRegion (i : Z) (rs : list Region) : option (nat * Region) :=
  match findIndex_id i rs with
  | None => None
  | Some k => option_map (fun r => (k, r)) (nth_error rs k)
  end.

(** The change [addPointToPolygon] makes to one part. *)
Definition insertVertex (part : Part) (segmentIndex : Z) (newPoint : Point) : Part :=
  match part with
  | RectPart x y w h =>
      let newPoints :=
        [mkPoint x y; mkPoint (x + w) y; mkPoint (x + w) (y + h); mkPoint x (y + h)] in
      PolyPart (splice_insert newPoints (Z.to_nat (segmentIndex + 1)) newPoint)
  | PolyPart points =>
      PolyPart (splice_insert points (Z.to_nat (segmentIndex + 1)) newPoint)
  end.

(** The state updater of [addPointToPolygon]; [None] is the [TypeError] of
    reading [.type] of a part that does not exist. *)
Definition addPointUpdater (regionId partIndex segmentIndex : Z) (newPoint : Point)
    (prevRegions : list Region) : option (list Region) :=
  match findRegion regionId prevRegions with
  | None => Some prevRegions
  | Some (k, regionToUpdate) =>
      match nthZ (parts regionToUpdate) partIndex with
      | None => None
      | Some partToUpdate =>
          let newPart := insertVertex partToUpdate segmentIndex newPoint in
          Some (set_nth prevRegions k
                  (mkRegion (id regionToUpdate)
                     (set_nth (parts regionToUpdate) (Z.to_nat partIndex) newPart)))
      end
  end.

(** [addPointToPolygon]; [pos] is the result of [getCanvasPos]. *)
Definition addPointToPolygon (pos : option Point) (st : Editor) : option Editor :=
  match pos with
  | None => Some (cancelAddPointMode st)
  | Some pos =>
      let c := findClosestEdgePoint st pos (regions st) in
      match cl_region c, cl_point c with
      | Some region, Some newPoint =>
          if negb (cl_partIndex c =? -1)%Z && negb (cl_segmentIndex c =? -1)%Z then
            option_map (fun rs => setRegions rs st)
              (addPointUpdater (id region) (cl_partIndex c) (cl_segmentIndex c)
                 newPoint (regions st))
          else Some st
      | _, _ => Some st
      end
  end.

(** The [forEach] of [mergeSelectedRegions], pushing each region on
    [regionsToMerge] or on [remainingRegions]. *)
Fixpoint partitionSelected (sel : gset Z) (rs : list Region)
    (regionsToMerge remainingRegions : list Region) : list Region * list Region :=
  match rs with
  | [] => (regionsToMerge, remainingRegions)
  | r :: rest =>
      if bool_decide (id r ∈ sel)
      then partitionSelected sel rest (regionsToMerge ++ [r]) remainingRegions
      else partitionSelected sel rest regionsToMerge (remainingRegions ++ [r])
  end.

(** [mergeSelectedRegions], with [now] the value of [Date.now()]. *)
Definition mergeSelectedRegions (now : Z) (st : Editor) : Editor :=
  if (size (multiSelectRegions st) <? 2)%nat then st
  else
    let '(regionsToMerge, remainingRegions) :=
      partitionSelected (multiSelectRegions st) (regions st) [] [] in
    let newParts := flat_map parts regionsToMerge in
    let mergedRegion := mkRegion now newParts in
    setMultiSelectRegions ∅ (setRegions (remainingRegions ++ [mergedRegion]) st).

Definition clearAllRegions (st0 : Editor) : Editor :=
  let st := setRegions [] st0 in
  let st := setProcessedImages [] st in
  let st := setIsSelectMode false st in
  let st := setMultiSelectRegions ∅ st in
  let st := when (isWaitingForPointClick st0) cancelAddPointMode st in
  let st := when (isDeletePointMode st0) (setIsDeletePointMode false) st in
  when (isDeleteRegionMode st0) (setIsDeleteRegionMode false) st.

(** ** Pointer down *)

(** The change the delete-point click makes to one part. *)
Definition deleteVertex (part : Part) (vertexIndex : Z) : Part :=
  match part with
  | PolyPart points =>
      if (3 <? length points)%nat
      then PolyPart (splice_remove points (Z.to_nat vertexIndex))
      else part
  | RectPart _ _ _ _ => part
  end.

(** The state updater of the delete-point click. *)
Definition deletePointUpdater (regionId partIndex vertexIndex : Z)
    (prevRegions : list Region) : option (list Region) :=
  match findRegion regionId prevRegions with
  | None => Some prevRegions
  | Some (k, regionToUpdate) =>
      match nthZ (parts regionToUpdate) partIndex with
      | None => None
      | Some partToUpdate =>
          Some (set_nth prevRegions k
                  (mkRegion (id regionToUpdate)
                     (set_nth (parts regionToUpdate) (Z.to_nat partIndex)
                        (deleteVertex partToUpdate vertexIndex))))
      end
  end.

Definition isPoly (part : Part) : bool :=
  match part with PolyPart _ => true | RectPart _ _ _ _ => false end.

Definition isBody (m : option DragMode) : bool :=
  match m with Some DBody => true | _ => false end.

Definition toggleSelected (i : Z) (prev : gset Z) : gset Z :=
  if bool_decide (i ∈ prev) then prev ∖ {[ i ]} else prev ∪ {[ i ]}.

(** [onMouseDown]: [button] is [e.button], [pos] the result of
    [getCanvasPos]. *)
Definition onMouseDown (button : Z) (pos : option Point) (st : Editor) : option Editor :=
  if negb (button =? 0)%Z then Some st else
  match pos with
  | None => Some st
  | Some p =>
      if isDeleteRegionMode st then
        let hit := getHitRegion st p in
        match hit_region hit with
        | Some r =>
            if isBody (hit_mode hit)
            then Some (setRegions (List.filter (fun r' => negb (id r' =? id r)%Z) (regions st)) st)
            else Some st
        | None => Some st
        end
      else if isWaitingForPointClick st then addPointToPolygon pos st
      else if isDeletePointMode st then
        let hit := getHitRegion st p in
        match hit_region hit, hit_part hit with
        | Some r, Some part =>
            if isPoly part && negb (hit_vertexIndex hit =? -1)%Z then
              option_map (fun rs => setRegions rs st)
                (deletePointUpdater (id r) (hit_partIndex hit) (hit_vertexIndex hit)
                   (regions st))
            else Some st
        | _, _ => Some st
        end
      else
        let hit := getHitRegion st p in
        if isSelectMode st then
          match hit_region hit with
          | Some r =>
              if isBody (hit_mode hit)
              then Some (setMultiSelectRegions (toggleSelected (id r) (multiSelectRegions st)) st)
              else Some st
          | None => Some st
          end
        else
          match hit_region hit with
          | Some r =>
              let st1 :=
                setDraggingState
                  (mkDragging true (Some r) (hit_partIndex hit) (hit_vertexIndex hit)
                     (hit_mode hit) (mkPoint (px p) (py p))) st in
              let st2 := setCursor (hit_cursor hit) st1 in
              let st3 :=
                setRegions (List.filter (fun r' => negb (id r' =? id r)%Z) (regions st) ++ [r]) st2 in
              Some (if (0 <? size (multiSelectRegions st))%nat
                    then setMultiSelectRegions ∅ st3 else st3)
          | None => Some st
          end
  end.

(** ** Pointer move *)

(** [clampX] and [clampY]: [limit] is the natural width or height, [None]
    when no image is loaded ([?? Infinity]). *)
Definition clamp (limit : option Q) (v : Q) : Q :=
  Qmax 0 (match limit with Some l => Qmin v l | None => v end).

Definition clampX (img : option Image) (x : Q) : Q := clamp (option_map naturalWidth img) x.
Definition clampY (img : option Image) (y : Q) : Q := clamp (option_map naturalHeight img) y.

(** The bounds test of the body drag on one rectangle or one translated
    point; [None] is the [TypeError] of [originalImage!.naturalWidth] on a
    missing image, which [||] reaches only after the tests against 0. *)
Definition rectLeaves (img : option Image) (deltaX deltaY x y w h : Q) : option bool :=
  if Qltb (x + deltaX) 0 || Qltb (y + deltaY) 0 then Some true
  else match img with
       | None => None
       | Some im =>
           Some (Qgtb (x + w + deltaX) (naturalWidth im)
                 || Qgtb (y + h + deltaY) (naturalHeight im))
       end.

Definition pointLeaves (img : option Image) (deltaX deltaY : Q) (p : Point) : option bool :=
  if Qltb (px p + deltaX) 0 || Qltb (py p + deltaY) 0 then Some true
  else match img with
       | None => None
       | Some im =>
           Some (Qgtb (px p + deltaX) (naturalWidth im)
                 || Qgtb (py p + deltaY) (naturalHeight im))
       end.

(** The inner loop over [part.points]: the value of [canMove] after it. *)
Fixpoint pointsCanMove (img : option Image) (deltaX deltaY : Q)
    (ps : list Point) : option bool :=
  match ps with
  | [] => Some true
  | p :: rest =>
      match pointLeaves img deltaX deltaY p with
      | None => None
      | Some true => Some false
      | Some false => pointsCanMove img deltaX deltaY rest
      end
  end.

(** The loop over [regionToUpdate.parts]: the value of [canMove] after it. *)
Fixpoint partsCanMove (img : option Image) (deltaX deltaY : Q)
    (ps : list Part) : option bool :=
  match ps with
  | [] => Some true
  | RectPart x y w h :: rest =>
      match rectLeaves img deltaX deltaY x y w h with
      | None => None
      | Some true => Some false
      | Some false => partsCanMove img deltaX deltaY rest
      end
  | PolyPart points :: rest =>
      match pointsCanMove img deltaX deltaY points with
      | None => None
      | Some false => Some false
      | Some true => partsCanMove img deltaX deltaY rest
      end
  end.

Definition movePoint (deltaX deltaY : Q) (pt : Point) : Point :=
  mkPoint (px pt + deltaX) (py pt + deltaY).

Definition movePart (deltaX deltaY : Q) (p : Part) : Part :=
  match p with
  | RectPart x y w h => RectPart (x + deltaX) (y + deltaY) w h
  | PolyPart points => PolyPart (map (movePoint deltaX deltaY) points)
  end.

(** The rectangle branch of the drag: the [switch] on the handle, then the
    minimum width and height. *)
Definition resizeRect (img : option Image) (zoomFactor : Q) (mode : DragMode)
    (pos : Point) (oldx oldy oldw oldh : Q) : Part :=
  let '(x, y, w, h) :=
    match mode with
    | DN => let y := clampY img (py pos) in (oldx, y, oldw, oldy + oldh - y)
    | DE => (oldx, oldy, clampX img (px pos) - oldx, oldh)
    | DS => (oldx, oldy, oldw, clampY img (py pos) - oldy)
    | DW => let x := clampX img (px pos) in (x, oldy, oldx + oldw - x, oldh)
    | DNW => let x := clampX img (px pos) in
             let y := clampY img (py pos) in
             (x, y, oldx + oldw - x, oldy + oldh - y)
    | DNE => let y := clampY img (py pos) in
             (oldx, y, clampX img (px pos) - oldx, oldy + oldh - y)
    | DSE => (oldx, oldy, clampX img (px pos) - oldx, clampY img (py pos) - oldy)
    | DSW => let x := clampX img (px pos) in
             (x, oldy, oldx + oldw - x, clampY img (py pos) - oldy)
    | DBody | DVertex => (oldx, oldy, oldw, oldh)
    end in
  let minSize := HANDLE_SIZE / zoomFactor in
  let '(x, w) :=
    if Qltb w minSize then
      ((match mode with
        | DW | DNW | DSW => oldx + oldw - minSize
        | _ => x
        end), minSize)
    else (x, w) in
  let '(y, h) :=
    if Qltb h minSize then
      ((match mode with
        | DN | DNW | DNE => oldy + oldh - minSize
        | _ => y
        end), minSize)
    else (y, h) in
  RectPart x y w h.

(** The state updater of the drag; it also returns the new [mouseOffset]
    of the dragging ref. *)
Definition dragUpdater (img : option Image) (zoomFactor : Q) (mode : DragMode)
    (pos : Point) (d : DraggingState) (prevRegions : list Region)
    : option (list Region * Point) :=
  match selectedRegion d with
  | None => Some (prevRegions, mouseOffset d)
  | Some sel =>
      match findRegion (id sel) prevRegions with
      | None => Some (prevRegions, mouseOffset d)
      | Some (regionIndex, regionToUpdate) =>
          let store ps offset :=
            Some (set_nth prevRegions regionIndex (mkRegion (id regionToUpdate) ps), offset) in
          match mode with
          | DBody =>
              let deltaX := px pos - px (mouseOffset d) in
              let deltaY := py pos - py (mouseOffset d) in
              match partsCanMove img deltaX deltaY (parts regionToUpdate) with
              | None => None
              | Some true => store (map (movePart deltaX deltaY) (parts regionToUpdate)) pos
              | Some false => store (parts regionToUpdate) (mouseOffset d)
              end
          | _ =>
              match nthZ (parts regionToUpdate) (selectedPartIndex d) with
              | None => None
              | Some (PolyPart points) =>
                  match mode with
                  | DVertex =>
                      if negb (selectedVertexIndex d =? -1)%Z then
                        match nthZ points (selectedVertexIndex d) with
                        | None => None
                        | Some _ =>
                            store (set_nth (parts regionToUpdate)
                                     (Z.to_nat (selectedPartIndex d))
                                     (PolyPart (set_nth points
                                                  (Z.to_nat (selectedVertexIndex d))
                                                  (mkPoint (clampX img (px pos))
                                                           (clampY img (py pos))))))
                                  (mouseOffset d)
                        end
                      else store (parts regionToUpdate) (mouseOffset d)
                  | _ => store (parts regionToUpdate) (mouseOffset d)
                  end
              | Some (RectPart x y w h) =>
                  store (set_nth (parts regionToUpdate) (Z.to_nat (selectedPartIndex d))
                           (resizeRect img zoomFactor mode pos x y w h))
                        (mouseOffset d)
              end
          end
      end
  end.

Definition setMouseOffset (p : Point) (d : DraggingState) : DraggingState :=
  mkDragging (isDragging d) (selectedRegion d) (selectedPartIndex d)
    (selectedVertexIndex d) (dragMode d) p.

(** [onMouseMove]; [pos] is the result of [getCanvasPos]. *)
Definition onMouseMove (pos : option Point) (st : Editor) : option Editor :=
  match pos with
  | None => Some st
  | Some p =>
      match isDragging (draggingState st), dragMode (draggingState st) with
      | true, Some mode =>
          match dragUpdater (originalImage st) (zoom st) mode p (draggingState st)
                  (regions st) with
          | None => None
          | Some (rs, offset) =>
              Some (setDraggingState (setMouseOffset offset (draggingState st))
                      (setRegions rs st))
          end
      | _, _ =>
          if isWaitingForPointClick st then Some st
          else Some (setCursor (hit_cursor (getHitRegion st p)) st)
      end
  end.

Definition onMouseUp (st : Editor) : Editor :=
  if isDragging (draggingState st) then
    let d := draggingState st in
    setDraggingState
      (mkDragging false (selectedRegion d) (selectedPartIndex d)
         (selectedVertexIndex d) (dragMode d) (mouseOffset d)) st
  else st.

(** ** Rasteriser *)

(** A [number] that may be infinite or [NaN]. *)
Inductive xnum : Type := NaN | NegInf | Fin (q : Q) | PosInf.

(** [Math.min(a, b)] and [Math.max(a, b)] for a finite [b]. *)
Definition xmin (a : xnum) (b : Q) : xnum :=
  match a with
  | NaN => NaN
  | NegInf => NegInf
  | Fin q => Fin (Qmin q b)
  | PosInf => Fin b
  end.

Definition xmax (a : xnum) (b : Q) : xnum :=
  match a with
  | NaN => NaN
  | NegInf => Fin b
  | Fin q => Fin (Qmax q b)
  | PosInf => PosInf
  end.

(** [a - b]. *)
Definition xsub (a b : xnum) : xnum :=
  match a, b with
  | NaN, _ | _, NaN => NaN
  | Fin p, Fin q => Fin (p - q)
  | PosInf, PosInf | NegInf, NegInf => NaN
  | PosInf, _ | Fin _, NegInf => PosInf
  | NegInf, _ | Fin _, PosInf => NegInf
  end.

(** [a <= 0]. *)
Definition xle0 (a : xnum) : bool :=
  match a with
  | Fin q => Qleb q 0
  | NegInf => true
  | NaN | PosInf => false
  end.

Record Box : Type := mkBox { minX : xnum; minY : xnum; maxX : xnum; maxY : xnum }.

Definition emptyBox : Box := mkBox PosInf PosInf NegInf NegInf.

Definition boxPoint (b : Box) (p : Point) : Box :=
  mkBox (xmin (minX b) (px p)) (xmin (minY b) (py p))
        (xmax (maxX b) (px p)) (xmax (maxY b) (py p)).

Definition boxPart (b : Box) (part : Part) : Box :=
  match part with
  | RectPart x y w h =>
      mkBox (xmin (minX b) x) (xmin (minY b) y)
            (xmax (maxX b) (x + w)) (xmax (maxY b) (y + h))
  | PolyPart points => fold_left boxPoint points b
  end.

Definition boundingBox (region : Region) : Box :=
  fold_left boxPart (parts region) emptyBox.

Definition boxWidth (b : Box) : xnum := xsub (maxX b) (minX b).
Definition boxHeight (b : Box) : xnum := xsub (maxY b) (minY b).

(** The browser's side of the rasteriser: whether a canvas of a given size
    hands out a 2d context, and the PNG data URL of the image drawn through
    the mask of a region. *)
Record Canvas : Type := mkCanvas {
  getContext : xnum -> xnum -> bool;
  toDataURL : Image -> Region -> Box -> string
}.

Definition decimal (k : nat) : string :=
  DecimalString.NilEmpty.string_of_uint (Nat.to_uint k).

Definition artifactName (baseName : string) (index : nat) : string :=
  (baseName ++ "_region_" ++ decimal (index + 1) ++ ".png")%string.

(** The body of the [forEach] callback: the artifact pushed for the region
    at [index], if any; [now index] is the value of [Date.now()] in that
    iteration.  The mask of a polygon starts at [part.points[0]], a
    [TypeError] for a polygon without points: the function is that of the
    source on the polygons that have a point, and the statements about a run
    are for collections whose polygons have at least three points. *)
Definition rasterizeRegion (cv : Canvas) (now : nat -> Z) (img : Image) (baseName : string)
    (index : nat) (region : Region) : option ProcessedImage :=
  let b := boundingBox region in
  let w := boxWidth b in
  let h := boxHeight b in
  if xle0 w || xle0 h then None
  else if negb (getContext cv w h) then None
  else Some (mkProcessedImage (now index + Z.of_nat index)%Z
               (artifactName baseName index) (toDataURL cv img region b)).

Fixpoint rasterizeFrom (cv : Canvas) (now : nat -> Z) (img : Image) (baseName : string)
    (index : nat) (rs : list Region) (results : list ProcessedImage)
    : list ProcessedImage :=
  match rs with
  | [] => results
  | region :: rest =>
      rasterizeFrom cv now img baseName (S index) rest
        (match rasterizeRegion cv now img baseName index region with
         | Some a => results ++ [a]
         | None => results
         end)
  end.

(** [originalFileName || 'image']: the empty string is falsy as well. *)
Definition baseNameOf (name : option string) : string :=
  match name with
  | Some s => if String.eqb s "" then "image" else s
  | None => "image"
  end.

Definition processRegions (cv : Canvas) (now : nat -> Z) (st : Editor) : Editor :=
  match originalImage st with
  | None => st
  | Some img =>
      if (length (regions st) =? 0)%nat then st
      else setProcessedImages
             (rasterizeFrom cv now img (baseNameOf (originalFileName st)) 0
                (regions st) [])
             st
  end.

(** ** Statements of the specification

    Predicates written after the words of the specification, to be compared
    with the functions above. *)

(** A translated rectangle or a translated vertex would lie outside
    [[0,W] x [0,H]]. *)
Definition partWouldLeave (W H dx dy : Q) (part : Part) : Prop :=
  match part with
  | RectPart x y w h =>
      x + dx < 0 \/ y + dy < 0 \/ x + w + dx > W \/ y + h + dy > H
  | PolyPart points =>
      exists p, In p points /\
        (px p + dx < 0 \/ py p + dy < 0 \/ px p + dx > W \/ py p + dy > H)
  end.

(** [p'] is [p] translated by [(dx, dy)]; [part'] is [part] translated by
    [(dx, dy)]: a rectangle has its origin moved and keeps its width and
    height, a polygon has every vertex moved, in order. *)
Definition translatedPoint (dx dy : Q) (p p' : Point) : Prop :=
  px p' = px p + dx /\ py p' = py p + dy.

Definition translatedPart (dx dy : Q) (part part' : Part) : Prop :=
  match part, part' with
  | RectPart x y w h, RectPart x' y' w' h' =>
      x' = x + dx /\ y' = y + dy /\ w' = w /\ h' = h
  | PolyPart points, PolyPart points' => Forall2 (translatedPoint dx dy) points points'
  | _, _ => False
  end.



(** [rs'] is [rs] with the parts of the region at index [k] replaced by
    [ps']: the region keeps its id and its place, and the regions at the
    other indices are those of [rs]. *)
Definition partsReplacedAt (k : nat) (i : Z) (ps' : list Part) (rs rs' : list Region) : Prop :=
  length rs' = length rs /\
  nth_error rs' k = Some (mkRegion i ps') /\
  (forall j, j <> k -> nth_error rs' j = nth_error rs j).

(** [new] is [old] with [p] inserted right after index [i]. *)
Definition insertedAfter (i : nat) (p : Point) (old new : list Point) : Prop :=
  length new = S (length old) /\
  nth_error new (S i) = Some p /\
  (forall k, (k <= i)%nat -> nth_error new k = nth_error old k) /\
  (forall k, (i < k)%nat -> nth_error new (S k) = nth_error old k).

(** [new] is [old] without its element at index [i]. *)
Definition removedAt (i : nat) (old new : list Point) : Prop :=
  S (length new) = length old /\
  (forall k, (k < i)%nat -> nth_error new k = nth_error old k) /\
  (forall k, (i <= k)%nat -> nth_error new k = nth_error old (S k)).

(** The body of a part contains a position: strictly inside the rectangle,
    or inside the polygon by the even-odd rule. *)
Definition partBodyContains (pos : Point) (part : Part) : bool :=
  match part with
  | RectPart x y w h =>
      Qgtb (px pos) x && Qltb (px pos) (x + w) && Qgtb (py pos) y && Qltb (py pos) (y + h)
  | PolyPart points => pointInPolygon pos points
  end.

Definition bodyContains (pos : Point) (region : Region) : bool :=
  existsb (partBodyContains pos) (parts region).

(** Some feature of the region (handle, vertex or body) is under [pos]. *)
Definition matchesAt (st : Editor) (h2 : Q) (pos : Point) (region : Region) : bool :=
  match hitParts st h2 pos region 0%Z (parts region) with
  | Some _ => true
  | None => false
  end.

Definition regionMatches (st : Editor) (pos : Point) (region : Region) : bool :=
  matchesAt st (HANDLE_SIZE / zoom st / 2) pos region.

Definition partCount (rs : list Region) : nat :=
  list_sum (map (fun r => length (parts r)) rs).

Definition isSelected (sel : gset Z) (r : Region) : bool := bool_decide (id r ∈ sel).

(** A point, and a part, inside [[0,W] x [0,H]]. *)
Definition pointInBounds (W H : Q) (p : Point) : Prop :=
  0 <= px p /\ px p <= W /\ 0 <= py p /\ py p <= H.

Definition partInBounds (W H : Q) (part : Part) : Prop :=
  match part with
  | RectPart x y w h => 0 <= x /\ 0 <= y /\ x + w <= W /\ y + h <= H
  | PolyPart points => Forall (pointInBounds W H) points
  end.

Definition regionInBounds (W H : Q) (r : Region) : Prop :=
  Forall (partInBounds W H) (parts r).

(** Every polygon of the collection has at least three points. *)
Definition polyOk (part : Part) : Prop :=
  match part with
  | PolyPart points => (3 <= length points)%nat
  | RectPart _ _ _ _ => True
  end.

Definition regionsOk (rs : list Region) : Prop :=
  Forall (fun r => Forall polyOk (parts r)) rs.

(** The region has a bounding box of positive width and height. *)
Definition hasPositiveBox (r : Region) : bool :=
  negb (xle0 (boxWidth (boundingBox r)) || xle0 (boxHeight (boundingBox r))).

(** The regions paired with their 0-based index, from [index] on. *)
Fixpoint indexedFrom (index : nat) (rs : list Region) : list (nat * Region) :=
  match rs with
  | [] => []
  | r :: rest => (index, r) :: indexedFrom (S index) rest
  end.

(** The eight resize handles. *)
Definition isHandle (m : DragMode) : bool :=
  match m with DBody | DVertex => false | _ => true end.

Definition movesLeftEdge (m : DragMode) : bool :=
  match m with DW | DNW | DSW => true | _ => false end.
Definition movesRightEdge (m : DragMode) : bool :=
  match m with DE | DNE | DSE => true | _ => false end.
Definition movesTopEdge (m : DragMode) : bool :=
  match m with DN | DNW | DNE => true | _ => false end.
Definition movesBottomEdge (m : DragMode) : bool :=
  match m with DS | DSE | DSW => true | _ => false end.

(** The four mode flags, in the order select, add-point, delete-point,
    delete-region. *)
Definition activeModes (st : Editor) : list bool :=
  [isSelectMode st; isWaitingForPointClick st; isDeletePointMode st; isDeleteRegionMode st].

(** ** Sample editor states *)

Definition sampleImage : Image := mkImage 800 600.

Definition idleDragging : DraggingState :=
  mkDragging false None (-1) (-1) None (mkPoint 0 0).

(** An 800 x 600 image at zoom 1, no region, no mode. *)
Definition emptyEditor : Editor :=
  mkEditor (Some sampleImage) None [] [] false ∅ false false false "default" 1
    idleDragging.

Definition squareA : Region := mkRegion 1 [RectPart 300 200 200 200].
Definition squareB : Region := mkRegion 2 [RectPart 350 250 200 200].
Definition squareC : Region := mkRegion 3 [RectPart 380 280 200 200].

(** A body drag of [squareA], grabbed at (400, 300). *)
Definition bodyDragEditor : Editor :=
  setDraggingState
    (mkDragging true (Some squareA) 0 (-1) (Some DBody) (mkPoint 400 300))
    (setRegions [squareA] emptyEditor).

(** Select mode with two regions selected. *)
Definition twoSelectedEditor : Editor :=
  setMultiSelectRegions {[ 1%Z; 2%Z ]}
    (setIsSelectMode true (setRegions [squareA; squareB] emptyEditor)).

(** Three squares stacked over the point (450, 350), and the two lower ones
    alone. *)
Definition stackedEditor : Editor := setRegions [squareA; squareB; squareC] emptyEditor.
Definition twoStackedEditor : Editor := setRegions [squareA; squareB] emptyEditor.

(** The points of a part, a rectangle giving its corners in the order
    nw, ne, se, sw. *)
Definition cornerPoints (part : Part) : list Point :=
  match part with
  | RectPart x y w h =>
      [mkPoint x y; mkPoint (x + w) y; mkPoint (x + w) (y + h); mkPoint x (y + h)]
  | PolyPart points => points
  end.

(** Add-point mode over one square. *)
Definition addPointEditor : Editor :=
  setCursor "crosshair" (setIsWaitingForPointClick true (setRegions [squareA] emptyEditor)).

(** The width and the height the 8-way resize rule gives a rectangle
    before the minimum size is enforced: the dragged edge goes to the
    clamped pointer, the opposite edge stays. *)
Definition targetWidth (img : option Image) (mode : DragMode) (pos : Point)
    (oldx oldw : Q) : Q :=
  if movesLeftEdge mode then oldx + oldw - clampX img (px pos)
  else if movesRightEdge mode then clampX img (px pos) - oldx
  else oldw.

Definition targetHeight (img : option Image) (mode : DragMode) (pos : Point)
    (oldy oldh : Q) : Q :=
  if movesTopEdge mode then oldy + oldh - clampY img (py pos)
  else if movesBottomEdge mode then clampY img (py pos) - oldy
  else oldh.

(** A drag of the west handle of [squareA]. *)
Definition resizeEditor : Editor :=
  setDraggingState
    (mkDragging true (Some squareA) 0 (-1) (Some DW) (mkPoint 300 300))
    (setRegions [squareA] emptyEditor).

(** Delete-point mode over a triangle, and over a pentagon. *)
Definition triangle : Region :=
  mkRegion 7 [PolyPart [mkPoint 100 100; mkPoint 200 100; mkPoint 150 200]].

Definition pentagon : Region :=
  mkRegion 8 [PolyPart [mkPoint 300 200; mkPoint 400 150; mkPoint 500 200;
                        mkPoint 500 400; mkPoint 300 400]].

Definition deletePointEditor (r : Region) : Editor :=
  setCursor "crosshair" (setIsDeletePointMode true (setRegions [r] emptyEditor)).

(** The artifact of the region at a 0-based index of the collection. *)
Definition artifactOf (cv : Canvas) (now : nat -> Z) (img : Image) (baseName : string)
    (ir : nat * Region) : ProcessedImage :=
  mkProcessedImage (now (fst ir) + Z.of_nat (fst ir))%Z
    (baseName ++ "_region_" ++ decimal (fst ir + 1) ++ ".png")%string
    (toDataURL cv img (snd ir) (boundingBox (snd ir))).

(** The artifacts of a run over a collection: one per region whose box has
    positive width and height, in region order. *)
Definition artifactsOf (cv : Canvas) (now : nat -> Z) (img : Image) (baseName : string)
    (rs : list Region) : list ProcessedImage :=
  map (artifactOf cv now img baseName)
      (List.filter (fun ir => hasPositiveBox (snd ir)) (indexedFrom 0 rs)).

(** A browser that always hands out a context. *)
Definition sampleCanvas : Canvas := mkCanvas (fun _ _ => true) (fun _ _ _ => "data:image/png").

Definition oldArtifact : ProcessedImage := mkProcessedImage 5 "image_region_1.png" "data:old".

(** A square and a degenerate rectangle of width 0, with an artifact of an
    earlier run. *)
Definition flatRect : Region := mkRegion 4 [RectPart 10 10 0 50].

Definition rerunEditor : Editor :=
  setProcessedImages [oldArtifact] (setRegions [flatRect; squareA] emptyEditor).

(** ** File names *)

(** [s.split('.')]. *)
Fixpoint splitDot (s : string) : list string :=
  match s with
  | EmptyString => [EmptyString]
  | String c rest =>
      if Ascii.eqb c "."%char then EmptyString :: splitDot rest
      else match splitDot rest with
           | seg :: segs => String c seg :: segs
           | [] => [String c EmptyString]
           end
  end.

(** [l.join('.')]. *)
Fixpoint joinDot (l : list string) : string :=
  match l with
  | [] => EmptyString
  | [a] => a
  | a :: rest => (a ++ "." ++ joinDot rest)%string
  end.

(** [file.name.split('.').slice(0, -1).join('.') || file.name]. *)
Definition fileNameWithoutExt (fileName : string) : string :=
  let joined := joinDot (removelast (splitDot fileName)) in
  if String.eqb joined "" then fileName else joined.

Fixpoint hasDot (s : string) : bool :=
  match s with
  | EmptyString => false
  | String c rest => Ascii.eqb c "."%char || hasDot rest
  end.

(** ** The editor as a transition system *)

Definition MIN_ZOOM : Q := 0.1.
Definition MAX_ZOOM : Q := 10.

Definition setOriginalFileName (v : option string) (st : Editor) : Editor :=
  mkEditor (originalImage st) v (regions st) (processedImages st)
    (isSelectMode st) (multiSelectRegions st) (isWaitingForPointClick st)
    (isDeletePointMode st) (isDeleteRegionMode st) (cursor st) (zoom st)
    (draggingState st).

(** [handleImageUpload] for a chosen file of the given name, up to the
    start of the read: the file name without its extension is stored at
    once, before the image is loaded and also when it never is. *)
Definition handleImageUpload (fileName : string) (st : Editor) : Editor :=
  setOriginalFileName (Some (fileNameWithoutExt fileName)) st.

(** The [img.onload] callback that [handleImageUpload] installs. *)
Definition imageOnLoad (img : Image) (st : Editor) : Editor :=
  mkEditor (Some img) (originalFileName st) [] [] false ∅ false
    (isDeletePointMode st) (isDeleteRegionMode st) (cursor st) (zoom st)
    (draggingState st).

Definition setZoom (z : Q) (st : Editor) : Editor :=
  mkEditor (originalImage st) (originalFileName st) (regions st) (processedImages st)
    (isSelectMode st) (multiSelectRegions st) (isWaitingForPointClick st)
    (isDeletePointMode st) (isDeleteRegionMode st) (cursor st) z
    (draggingState st).

(** The zoom factor of [handleWheel] and of [zoomWithButtons]. *)
Definition handleWheel (deltaY : Q) (st : Editor) : Editor :=
  let zoomFactor := 1 - deltaY * 0.001 in
  setZoom (Qmax MIN_ZOOM (Qmin MAX_ZOOM (zoom st * zoomFactor))) st.

Definition zoomWithButtons (factor : Q) (st : Editor) : Editor :=
  setZoom (Qmax MIN_ZOOM (Qmin MAX_ZOOM (zoom st * factor))) st.

(** [fitToScreen] for a container of the given client size; a loaded image
    has a positive natural size. *)
Definition fitToScreen (containerWidth containerHeight : Q) (st : Editor) : Editor :=
  match originalImage st with
  | None => st
  | Some img =>
      let zoomX := containerWidth / naturalWidth img in
      let zoomY := containerHeight / naturalHeight img in
      setZoom (Qmin (Qmin zoomX zoomY) 1) st
  end.

Definition deleteProcessedImage (idToDelete : Z) (st : Editor) : Editor :=
  setProcessedImages
    (List.filter (fun img => negb (img_id img =? idToDelete)%Z) (processedImages st)) st.

(** The events of the editor.  [FileChosen] is the change of the file
    input; [ImageLoaded] is the [img.onload] callback of an image read from
    a chosen file, together with the effect that fits the new image to the
    container, of the given client size. *)
Inductive Event : Type :=
| ImageLoaded (img : Image) (containerWidth containerHeight : Q)
| AddRegion (now : Z)
| ToggleSelectMode
| StartAddPointMode
| ToggleDeletePointMode
| ToggleDeleteRegionMode
| MergeSelected (now : Z)
| ClearAll
| MouseDown (button : Z) (pos : option Point)
| MouseMove (pos : option Point)
| MouseUp
| Wheel (deltaY : Q)
| ZoomButton (factor : Q)
| FitToScreen (containerWidth containerHeight : Q)
| Process (cv : Canvas) (now : nat -> Z)
| DeleteProcessedImage (idToDelete : Z)
| FileChosen (fileName : string).

Definition handle (ev : Event) (st : Editor) : option Editor :=
  match ev with
  | ImageLoaded img containerWidth containerHeight =>
      Some (fitToScreen containerWidth containerHeight (imageOnLoad img st))
  | AddRegion now => Some (addRegion now st)
  | ToggleSelectMode => Some (toggleSelectMode st)
  | StartAddPointMode => Some (startAddPointMode st)
  | ToggleDeletePointMode => Some (toggleDeletePointMode st)
  | ToggleDeleteRegionMode => Some (toggleDeleteRegionMode st)
  | MergeSelected now => Some (mergeSelectedRegions now st)
  | ClearAll => Some (clearAllRegions st)
  | MouseDown button pos => onMouseDown button pos st
  | MouseMove pos => onMouseMove pos st
  | MouseUp => Some (onMouseUp st)
  | Wheel deltaY => Some (handleWheel deltaY st)
  | ZoomButton factor => Some (zoomWithButtons factor st)
  | FitToScreen containerWidth containerHeight =>
      Some (fitToScreen containerWidth containerHeight st)
  | Process cv now => Some (processRegions cv now st)
  | DeleteProcessedImage idToDelete => Some (deleteProcessedImage idToDelete st)
  | FileChosen fileName => Some (handleImageUpload fileName st)
  end.

Fixpoint run (evs : list Event) (st : Editor) : option Editor :=
  match evs with
  | [] => Some st
  | ev :: rest =>
      match handle ev st with
      | Some st' => run rest st'
      | None => None
      end
  end.

(** The state of the first render. *)
Definition initialEditor : Editor :=
  mkEditor None None [] [] false ∅ false false false "default" 1 idleDragging.

Inductive reachable : Editor -> Prop :=
| reachable_initial : reachable initialEditor
| reachable_step (ev : Event) (st st' : Editor) :
    reachable st -> handle ev st = Some st' -> reachable st'.

(** A session on an 800 x 600 image, which a container of 1000 x 700
    shows at 100%: a region is added, dragged against
    the right border, narrowed to the minimum width through its west
    handle, the view is zoomed out to 1/2, and the south-east handle is
    pulled down. *)
Definition borderSession : list Event :=
  [ ImageLoaded sampleImage 1000 700;
    AddRegion 1;
    MouseDown 0 (Some (mkPoint 400 300));
    MouseMove (Some (mkPoint 725 300));
    MouseUp;
    MouseDown 0 (Some (mkPoint 650 300));
    MouseMove (Some (mkPoint 795 300));
    MouseUp;
    Wheel 500;
    MouseDown 0 (Some (mkPoint 794 375));
    MouseMove (Some (mkPoint 794 380)) ].

(** The corners and vertices of all the parts of a region. *)
Definition allCorners (r : Region) : list Point := flat_map cornerPoints (parts r).

(** [b] is the axis-aligned bounding box of the points [pts]: the initial
    box when there is none, otherwise finite bounds that are attained. *)
Definition boxOf (b : Box) (pts : list Point) : Prop :=
  (pts = [] /\ b = emptyBox) \/
  (pts <> [] /\
   exists x0 y0 x1 y1,
     b = mkBox (Fin x0) (Fin y0) (Fin x1) (Fin y1) /\
     (forall p, In p pts -> x0 <= px p /\ px p <= x1 /\ y0 <= py p /\ py p <= y1) /\
     (exists p, In p pts /\ px p == x0) /\ (exists p, In p pts /\ px p == x1) /\
     (exists p, In p pts /\ py p == y0) /\ (exists p, In p pts /\ py p == y1)).

(** The rectangles of a region have a width and a height that are not
    negative. *)
Definition rectsOk (r : Region) : Prop :=
  forall x y w h, In (RectPart x y w h) (parts r) -> 0 <= w /\ 0 <= h.

(** A hit names the part it was found on, by value and by index, and a
    vertex index inside the polygon when it names one. *)
Definition hitOnPart (r : HitResult) (j : Z) (part : Part) : Prop :=
  hit_part r = Some part /\ hit_partIndex r = j /\
  (hit_vertexIndex r = (-1)%Z \/
   (0 <= hit_vertexIndex r < Z.of_nat (length (cornerPoints part)))%Z).

(** The running minimum of [findClosestEdgePoint] names nothing, or an edge
    of a part of a region of the collection together with a point. *)
Definition closestOn (allRegions : list Region) (c : Closest) : Prop :=
  match cl_region c with
  | None => True
  | Some region =>
      In region allRegions /\
      exists part newPoint,
        nthZ (parts region) (cl_partIndex c) = Some part /\
        cl_point c = Some newPoint /\
        (0 <= cl_segmentIndex c < Z.of_nat (length (cornerPoints part)))%Z
  end.

(** [hit] is the hit of the first part of [region] that has a feature under
    [pos]. *)
Definition firstPartHit (st : Editor) (pos : Point) (region : Region)
    (hit : HitResult) : Prop :=
  exists n part,
    nth_error (parts region) n = Some part /\
    hitPart st (HANDLE_SIZE / zoom st / 2) pos region (Z.of_nat n) part = Some hit /\
    (forall m part', (m < n)%nat -> nth_error (parts region) m = Some part' ->
       hitPart st (HANDLE_SIZE / zoom st / 2) pos region (Z.of_nat m) part' = None).

(** ** View transform and pointer position *)

Record ViewTransform : Type := mkView { vzoom : Q; voffset : Point }.

(** What [getCanvasPos] reads of an event: the mouse coordinates, which a
    touch event lacks, and the first touch, which a mouse event lacks. *)
Record PointerEvent : Type := mkPointerEvent {
  ev_clientX : option Q;
  ev_clientY : option Q;
  ev_touch : option Point
}.

(** [a ?? b]. *)
Definition orElse {A : Type} (a b : option A) : option A :=
  match a with Some v => Some v | None => b end.

(** [getCanvasPos]; [rectLeft] and [rectTop] are those of the bounding
    rectangle of the canvas. *)
Definition getCanvasPos (e : PointerEvent) (rectLeft rectTop : Q) (transform : ViewTransform)
    : option Point :=
  let clientX := orElse (ev_clientX e) (option_map px (ev_touch e)) in
  let clientY := orElse (ev_clientY e) (option_map py (ev_touch e)) in
  match clientX, clientY with
  | Some clientX, Some clientY =>
      let screenX := clientX - rectLeft in
      let screenY := clientY - rectTop in
      Some (mkPoint ((screenX - px (voffset transform)) / vzoom transform)
                    ((screenY - py (voffset transform)) / vzoom transform))
  | _, _ => None
  end.

(** The view transform [handleWheel] sets; [mouseX] and [mouseY] are the
    pointer coordinates relative to the canvas. *)
Definition wheelView (vt : ViewTransform) (mouseX mouseY deltaY : Q) : ViewTransform :=
  let zoomFactor := 1 - deltaY * 0.001 in
  let newZoom := Qmax MIN_ZOOM (Qmin MAX_ZOOM (vzoom vt * zoomFactor)) in
  let newOffsetX := mouseX - (mouseX - px (voffset vt)) * (newZoom / vzoom vt) in
  let newOffsetY := mouseY - (mouseY - py (voffset vt)) * (newZoom / vzoom vt) in
  mkView newZoom (mkPoint newOffsetX newOffsetY).

(** The view transform [zoomWithButtons] sets for a canvas of the given
    size. *)
Definition buttonView (vt : ViewTransform) (canvasWidth canvasHeight factor : Q)
    : ViewTransform :=
  let centerX := canvasWidth / 2 in
  let centerY := canvasHeight / 2 in
  let newZoom := Qmax MIN_ZOOM (Qmin MAX_ZOOM (vzoom vt * factor)) in
  let newOffsetX := centerX - (centerX - px (voffset vt)) * (newZoom / vzoom vt) in
  let newOffsetY := centerY - (centerY - py (voffset vt)) * (newZoom / vzoom vt) in
  mkView newZoom (mkPoint newOffsetX newOffsetY).

(** The view transform [fitToScreen] sets for a loaded image. *)
Definition fitView (img : Image) (containerWidth containerHeight : Q) : ViewTransform :=
  let imageWidth := naturalWidth img in
  let imageHeight := naturalHeight img in
  let zoomX := containerWidth / imageWidth in
  let zoomY := containerHeight / imageHeight in
  let newZoom := Qmin (Qmin zoomX zoomY) 1 in
  let newOffsetX := (containerWidth - imageWidth * newZoom) / 2 in
  let newOffsetY := (containerHeight - imageHeight * newZoom) / 2 in
  mkView newZoom (mkPoint newOffsetX newOffsetY).

(** Two points with equal coordinates. *)
Definition samePoint (p q : Point) : Prop := px p == px q /\ py p == py q.

(** The screen position, relative to the page, of an image point:
    [screen = image * zoom + offset], shifted by the canvas rectangle. *)
Definition screenPos (rectLeft rectTop : Q) (vt : ViewTransform) (p : Point) : Point :=
  mkPoint (rectLeft + (px p * vzoom vt + px (voffset vt)))
          (rectTop + (py p * vzoom vt + py (voffset vt))).

(** ** Buttons *)

Definition isActionDisabled (st : Editor) : bool :=
  match originalImage st with None => true | Some _ => false end.

Definition isMergeDisabled (st : Editor) : bool :=
  (size (multiSelectRegions st) <? 2)%nat || isActionDisabled st.

Definition isProcessDisabled (st : Editor) : bool :=
  (length (regions st) =? 0)%nat || isActionDisabled st.

(** ** Invariants of the editor *)

(** At most one of the four modal modes is active. *)
Definition oneModeAtMost (st : Editor) : Prop :=
  (length (List.filter (fun b : bool => b) (activeModes st)) <= 1)%nat.

(** Without an image there is no region, no selection and no artifact. *)
Definition emptyWithoutImage (st : Editor) : Prop :=
  originalImage st = None ->
  regions st = [] /\ multiSelectRegions st = ∅ /\ processedImages st = [].

(** The value [Date.now()] hands to an event is not the id of a region. *)
Definition freshClock (ev : Event) (st : Editor) : Prop :=
  match ev with
  | AddRegion now | MergeSelected now => ~ In now (map id (regions st))
  | _ => True
  end.

(** Images and containers have a positive size. *)
Definition positiveSizes (ev : Event) : Prop :=
  match ev with
  | ImageLoaded img containerWidth containerHeight =>
      0 < naturalWidth img /\ 0 < naturalHeight img /\
      0 < containerWidth /\ 0 < containerHeight
  | FitToScreen containerWidth containerHeight => 0 < containerWidth /\ 0 < containerHeight
  | _ => True
  end.

Definition rectPositive (part : Part) : Prop :=
  match part with
  | RectPart x y w h => 0 < w /\ 0 < h
  | PolyPart _ => True
  end.

(** The zoom factor and the image are positive, and so are the width and
    the height of every rectangle. *)
Definition geometryOk (st : Editor) : Prop :=
  0 < zoom st /\
  (forall img, originalImage st = Some img -> 0 < naturalWidth img /\ 0 < naturalHeight img) /\
  Forall (fun r => Forall rectPositive (parts r)) (regions st).

(** The square of the distance between two points. *)
Definition dist2 (p q : Point) : Q :=
  (px p - px q) * (px p - px q) + (py p - py q) * (py p - py q).

(** The point of the segment from [v] to [w] at parameter [t]. *)
Definition alongSegment (v w : Point) (t : Q) : Point :=
  mkPoint (px v + t * (px w - px v)) (py v + t * (py w - py v)).

(** The segments of all the parts of all the regions. *)
Definition allSegments (rs : list Region) : list (Point * Point * Z) :=
  flat_map (fun r => flat_map segmentsOf (parts r)) rs.

(** [c] is the running minimum of [findClosestEdgePoint] after the segments
    [seen]: nothing when there was none, otherwise the projection of [pos]
    on a segment of a part of a region of the collection, no farther from
    [pos] than any segment seen. *)
Definition closestFrom (pos : Point) (allRegions : list Region) (c : Closest)
    (seen : list (Point * Point * Z)) : Prop :=
  match cl_dist2 c with
  | None => seen = [] /\ c = noClosest
  | Some d =>
      (exists region part p1 p2 newPoint,
         cl_region c = Some region /\ In region allRegions /\
         nthZ (parts region) (cl_partIndex c) = Some part /\
         In (p1, p2, cl_segmentIndex c) (segmentsOf part) /\
         distToSegment pos p1 p2 = (d, newPoint) /\
         cl_point c = Some newPoint) /\
      (forall seg, In seg seen ->
         d <= fst (distToSegment pos (fst (fst seg)) (snd (fst seg))))
  end.

(** Edge [i] of a part joins corner [i] to the next corner, the last edge
    closing the outline. *)
Definition joinsCorners (part : Part) (seg : Point * Point * Z) : Prop :=
  let corners := cornerPoints part in
  let i := Z.to_nat (snd seg) in
  (0 <= snd seg)%Z /\ (i < length corners)%nat /\
  nth_error corners i = Some (fst (fst seg)) /\
  nth_error corners ((i + 1) mod length corners)%nat = Some (snd (fst seg)).

(** ** Hit results *)

(** What a hit result says, by its mode: nothing at all; the body of a
    part; a vertex of a polygon, which needs the delete-point mode, or the
    select and add-point modes off; a handle of a rectangle, which needs
    the four modes off. *)
Definition hitGated (st : Editor) (r : HitResult) : Prop :=
  match hit_mode r with
  | None => r = noHit
  | Some DBody =>
      hit_region r <> None /\ hit_part r <> None /\
      hit_vertex r = None /\ hit_vertexIndex r = (-1)%Z /\
      hit_cursor r = bodyCursor (isSelectMode st) (isDeleteRegionMode st)
  | Some DVertex =>
      hit_region r <> None /\
      (isDeletePointMode st = true \/
       (isSelectMode st = false /\ isWaitingForPointClick st = false)) /\
      exists points p,
        hit_part r = Some (PolyPart points) /\ hit_vertex r = Some p /\
        nthZ points (hit_vertexIndex r) = Some p
  | Some _ =>
      hit_region r <> None /\
      activeModes st = [false; false; false; false] /\
      hit_vertex r = None /\ hit_vertexIndex r = (-1)%Z /\
      exists x y w h, hit_part r = Some (RectPart x y w h)
  end.

(** ** Regions and the image *)

(** Every part of every region lies inside the loaded image. *)
Definition insideImage (st : Editor) : Prop :=
  forall im, originalImage st = Some im ->
    Forall (regionInBounds (naturalWidth im) (naturalHeight im)) (regions st).

(** Every rectangle is at least [m] wide and high. *)
Definition rectsAtLeast (m : Q) (rs : list Region) : Prop :=
  forall r x y w h, In r rs -> In (RectPart x y w h) (parts r) -> m <= w /\ m <= h.

(** Every move of a drag finds its rectangles at least as large as the
    minimum size of a resize. *)
Definition resizeAboveMinimum (ev : Event) (st : Editor) : Prop :=
  match ev with
  | MouseMove _ => rectsAtLeast (HANDLE_SIZE / zoom st) (regions st)
  | _ => True
  end.

(** Two parts of the same kind with equal coordinates. *)
Definition samePart (a b : Part) : Prop :=
  match a, b with
  | RectPart x y w h, RectPart x' y' w' h' => x == x' /\ y == y' /\ w == w' /\ h == h'
  | PolyPart ps, PolyPart qs => Forall2 samePoint ps qs
  | _, _ => False
  end.

(** ** Regions without parts *)

(** A session on an 800 x 600 image, which a container of 1000 x 700
    shows at 100%: two regions are added, the second is
    dragged aside, both are selected, and both are deleted in delete-region
    mode, which leaves their ids selected. *)
Definition staleSelectionSession : list Event :=
  [ ImageLoaded sampleImage 1000 700;
    AddRegion 1;
    AddRegion 2;
    MouseDown 0 (Some (mkPoint 400 300));
    MouseMove (Some (mkPoint 600 300));
    MouseUp;
    ToggleSelectMode;
    MouseDown 0 (Some (mkPoint 400 300));
    MouseDown 0 (Some (mkPoint 600 300));
    ToggleDeleteRegionMode;
    MouseDown 0 (Some (mkPoint 400 300));
    MouseDown 0 (Some (mkPoint 600 300)) ].

(** The events that replace the region collection as a whole, or merge
    regions. *)
Definition replacesRegions (ev : Event) : bool :=
  match ev with
  | ImageLoaded _ _ _ | ClearAll | MergeSelected _ => true
  | _ => false
  end.

(** ** What each event can change *)

Definition changesArtifacts (ev : Event) : bool :=
  match ev with
  | ImageLoaded _ _ _ | ClearAll | Process _ _ | DeleteProcessedImage _ => true
  | _ => false
  end.

Definition changesZoom (ev : Event) : bool :=
  match ev with
  | ImageLoaded _ _ _ | Wheel _ | ZoomButton _ | FitToScreen _ _ => true
  | _ => false
  end.

Definition editsRegions (ev : Event) : bool :=
  match ev with
  | ImageLoaded _ _ _ | AddRegion _ | MergeSelected _ | ClearAll
  | MouseDown _ _ | MouseMove _ => true
  | _ => false
  end.

Definition loadsImage (ev : Event) : bool :=
  match ev with
  | ImageLoaded _ _ _ => true
  | _ => false
  end.

Definition choosesFile (ev : Event) : bool :=
  match ev with
  | FileChosen _ => true
  | _ => false
  end.

(** ** Runs and the browser *)

(** A browser that hands out no 2d context: [getContext] returns [null]. *)
Definition noContextCanvas : Canvas :=
  mkCanvas (fun _ _ => false) (fun _ _ _ => "data:image/png").

(** The region has a box of positive width and height, and the browser
    hands out a 2d context for a canvas of that size. *)
Definition drawable (cv : Canvas) (r : Region) : bool :=
  hasPositiveBox r
  && getContext cv (boxWidth (boundingBox r)) (boxHeight (boundingBox r)).

(** The artifacts of a run over a collection: one per drawable region, in
    region order. *)
Definition drawnArtifactsOf (cv : Canvas) (now : nat -> Z) (img : Image) (baseName : string)
    (rs : list Region) : list ProcessedImage :=
  map (artifactOf cv now img baseName)
      (List.filter (fun ir => drawable cv (snd ir)) (indexedFrom 0 rs)).

(** A session: the file [photo.png] is chosen, its image of 800 x 600
    loads, and a region is added. *)
Definition oneRegionSession : list Event :=
  [ FileChosen "photo.png";
    ImageLoaded sampleImage 1000 700;
    AddRegion 1 ].

(** * Properties *)

(** ** Comparisons *)

Lemma Qltb_lt (a b : Q) : Qltb a b = true <-> a < b.
Proof.
  unfold Qltb. rewrite negb_true_iff, <- not_true_iff_false, Qle_bool_iff.
  split; [apply Qnot_le_lt | apply Qlt_not_le].
Qed.

Lemma Qltb_ge (a b : Q) : Qltb a b = false <-> b <= a.
Proof.
  unfold Qltb. rewrite negb_false_iff, Qle_bool_iff. reflexivity.
Qed.

Lemma Qgtb_gt (a b : Q) : Qgtb a b = true <-> b < a.
Proof. apply Qltb_lt. Qed.

Lemma Qgtb_le (a b : Q) : Qgtb a b = false <-> a <= b.
Proof. apply Qltb_ge. Qed.

Lemma Qleb_le (a b : Q) : Qleb a b = true <-> a <= b.
Proof. apply Qle_bool_iff. Qed.

Lemma Qleb_gt (a b : Q) : Qleb a b = false <-> b < a.
Proof.
  unfold Qleb. rewrite <- not_true_iff_false, Qle_bool_iff.
  split; [apply Qnot_le_lt | apply Qlt_not_le].
Qed.

(** Turn the boolean comparisons of the hypotheses and of the goal into
    propositions. *)
Ltac qprop :=
  repeat match goal with
  | H : Qltb _ _ = true |- _ => apply Qltb_lt in H
  | H : Qltb _ _ = false |- _ => apply Qltb_ge in H
  | H : Qgtb _ _ = true |- _ => apply Qgtb_gt in H
  | H : Qgtb _ _ = false |- _ => apply Qgtb_le in H
  | H : Qleb _ _ = true |- _ => apply Qleb_le in H
  | H : Qleb _ _ = false |- _ => apply Qleb_gt in H
  | H : orb _ _ = true |- _ => apply orb_true_iff in H
  | H : orb _ _ = false |- _ => apply orb_false_iff in H; destruct H
  | H : andb _ _ = true |- _ => apply andb_true_iff in H; destruct H
  | |- Qltb _ _ = true => apply Qltb_lt
  | |- Qltb _ _ = false => apply Qltb_ge
  | |- Qgtb _ _ = true => apply Qgtb_gt
  | |- Qgtb _ _ = false => apply Qgtb_le
  | |- Qleb _ _ = true => apply Qleb_le
  | |- Qleb _ _ = false => apply Qleb_gt
  end.

(** ** Arrays *)

Lemma set_nth_same {A : Type} (l : list A) (k : nat) (a : A) :
  nth_error l k = Some a -> set_nth l k a = l.
Proof.
  revert k; induction l as [|b t IH]; intros [|k] H; simpl in *; try discriminate.
  - now injection H as ->.
  - now rewrite IH.
Qed.

Lemma set_nth_length {A : Type} (l : list A) (k : nat) (a : A) :
  length (set_nth l k a) = length l.
Proof.
  revert k; induction l as [|b t IH]; intros [|k]; simpl; auto.
Qed.

Lemma set_nth_eq {A : Type} (l : list A) (k : nat) (a : A) :
  (k < length l)%nat -> nth_error (set_nth l k a) k = Some a.
Proof.
  revert k; induction l as [|b t IH]; intros [|k] H; simpl in *; try lia; auto.
  apply IH; lia.
Qed.

Lemma set_nth_ne {A : Type} (l : list A) (k j : nat) (a : A) :
  k <> j -> nth_error (set_nth l k a) j = nth_error l j.
Proof.
  revert k j; induction l as [|b t IH]; intros [|k] [|j] H; simpl; auto.
  congruence.
Qed.

Lemma set_nth_Forall {A : Type} (P : A -> Prop) (l : list A) (k : nat) (a : A) :
  Forall P l -> P a -> Forall P (set_nth l k a).
Proof.
  intros Hl Ha; revert k; induction Hl as [|b t Hb Ht IH]; intros [|k]; simpl;
    constructor; auto.
Qed.

Lemma nthZ_Some {A : Type} (l : list A) (i : Z) (a : A) :
  nthZ l i = Some a -> (0 <= i)%Z /\ nth_error l (Z.to_nat i) = Some a.
Proof.
  unfold nthZ. destruct (Z.ltb_spec i 0); [discriminate|]. auto.
Qed.

Lemma findIndex_id_Some (i : Z) (rs : list Region) (k : nat) :
  findIndex_id i rs = Some k ->
  exists r, nth_error rs k = Some r /\ id r = i.
Proof.
  revert k; induction rs as [|r t IH]; intros k H; simpl in H; [discriminate|].
  destruct (Z.eqb_spec (id r) i) as [E|E].
  - injection H as <-. exists r. auto.
  - destruct (findIndex_id i t) as [k'|]; [|discriminate].
    injection H as <-. simpl. apply IH. reflexivity.
Qed.

Lemma findRegion_Some (i : Z) (rs : list Region) (k : nat) (r : Region) :
  findRegion i rs = Some (k, r) -> nth_error rs k = Some r /\ id r = i.
Proof.
  unfold findRegion. destruct (findIndex_id i rs) as [k'|] eqn:E; [|discriminate].
  destruct (findIndex_id_Some _ _ _ E) as [r' [Hn Hi]].
  rewrite Hn. simpl. intros H; injection H as <- <-. auto.
Qed.

Lemma region_eta (r : Region) : mkRegion (id r) (parts r) = r.
Proof. now destruct r. Qed.

(** ** Body drag *)

Section BodyDrag.
Variable im : Image.
Variables dx dy : Q.

Let W := naturalWidth im.
Let H := naturalHeight im.

Lemma rectLeaves_spec (x y w h : Q) :
  exists b, rectLeaves (Some im) dx dy x y w h = Some b /\
            (b = true <-> partWouldLeave W H dx dy (RectPart x y w h)).
Proof.
  unfold rectLeaves, partWouldLeave.
  destruct (Qltb (x + dx) 0 || Qltb (y + dy) 0) eqn:E1.
  - exists true; split; [reflexivity|]. split; [intros _|reflexivity].
    qprop. destruct E1; qprop; tauto.
  - eexists; split; [reflexivity|]. fold W H. rewrite orb_true_iff.
    rewrite !Qgtb_gt. qprop. split; [tauto|].
    intros [F|[F|F]]; [lra | lra | exact F].
Qed.

Lemma pointsCanMove_spec (ps : list Point) :
  exists b, pointsCanMove (Some im) dx dy ps = Some b /\
            (b = false <-> partWouldLeave W H dx dy (PolyPart ps)).
Proof.
  induction ps as [|p t [b [Hb Hiff]]]; simpl.
  - exists true; split; [reflexivity|]. split; [discriminate|].
    intros [p [[] _]].
  - unfold pointLeaves. fold W H.
    destruct (Qltb (px p + dx) 0 || Qltb (py p + dy) 0) eqn:E1.
    + exists false; split; [reflexivity|]. split; [intros _|reflexivity].
      exists p; split; [now left|]. qprop. destruct E1; qprop; tauto.
    + destruct (Qgtb (px p + dx) W || Qgtb (py p + dy) H) eqn:E2.
      * exists false; split; [reflexivity|]. split; [intros _|reflexivity].
        exists p; split; [now left|].
        apply orb_true_iff in E2. destruct E2; qprop; tauto.
      * exists b; split; [exact Hb|]. rewrite Hiff. simpl. qprop.
        split.
        -- intros [q [Hq Hout]]. exists q; split; [now right|exact Hout].
        -- intros [q [[<-|Hq] Hout]]; [lra|]. exists q; auto.
Qed.

Lemma partsCanMove_spec (ps : list Part) :
  exists b, partsCanMove (Some im) dx dy ps = Some b /\
            (b = false <-> exists part, In part ps /\ partWouldLeave W H dx dy part).
Proof.
  induction ps as [|part t [b [Hb Hiff]]]; simpl.
  - exists true; split; [reflexivity|]. split; [discriminate|].
    intros [p [[] _]].
  - destruct part as [x y w h|points].
    + destruct (rectLeaves_spec x y w h) as [c [-> Hc]].
      destruct c.
      * exists false; split; [reflexivity|]. split; [intros _|reflexivity].
        exists (RectPart x y w h); split; [now left|]. now apply Hc.
      * exists b; split; [exact Hb|]. rewrite Hiff. split.
        -- intros [q [Hq Hout]]. exists q; auto.
        -- intros [q [[<-|Hq] Hout]]; [|exists q; auto].
           apply Hc in Hout; discriminate.
    + destruct (pointsCanMove_spec points) as [c [-> Hc]].
      destruct c.
      * exists b; split; [exact Hb|]. rewrite Hiff. split.
        -- intros [q [Hq Hout]]. exists q; auto.
        -- intros [q [[<-|Hq] Hout]]; [|exists q; auto].
           apply Hc in Hout; discriminate.
      * exists false; split; [reflexivity|]. split; [intros _|reflexivity].
        exists (PolyPart points); split; [now left|]. now apply Hc.
Qed.
End BodyDrag.

Lemma movePart_translated (dx dy : Q) (ps : list Part) :
  Forall2 (translatedPart dx dy) ps (map (movePart dx dy) ps).
Proof.
  induction ps as [|part t IH]; simpl; constructor; [|exact IH].
  destruct part as [x y w h|points]; simpl; [repeat split|].
  induction points as [|p pts IHp]; simpl; constructor; [|exact IHp].
  split; reflexivity.
Qed.

Lemma set_nth_partsReplacedAt (rs : list Region) (k : nat) (r : Region) (ps' : list Part) :
  nth_error rs k = Some r ->
  partsReplacedAt k (id r) ps' rs (set_nth rs k (mkRegion (id r) ps')).
Proof.
  intros Hnth. split; [apply set_nth_length|]. split.
  - apply set_nth_eq. apply nth_error_Some. congruence.
  - intros j Hj. apply set_nth_ne. congruence.
Qed.

(** C1.  While a body drag is in progress, a pointer-move sample whose
    delta would take a rectangle or a vertex of the dragged region out of
    the image leaves the whole region collection and the drag anchor as
    they were; any other sample translates every part of the dragged region
    by exactly the delta (a rectangle keeps its size and has its origin
    moved by the delta, a polygon has each vertex moved by the delta),
    leaves the other regions alone and moves the anchor to the pointer
    position. *)
Theorem body_drag_all_or_nothing (st : Editor) (im : Image) (pos : Point)
    (sel r : Region) (k : nat) :
  originalImage st = Some im ->
  isDragging (draggingState st) = true ->
  dragMode (draggingState st) = Some DBody ->
  selectedRegion (draggingState st) = Some sel ->
  findRegion (id sel) (regions st) = Some (k, r) ->
  let dx := px pos - px (mouseOffset (draggingState st)) in
  let dy := py pos - py (mouseOffset (draggingState st)) in
  let leaves := exists part, In part (parts r) /\
                  partWouldLeave (naturalWidth im) (naturalHeight im) dx dy part in
  exists st',
    onMouseMove (Some pos) st = Some st' /\
    (leaves ->
       regions st' = regions st /\
       mouseOffset (draggingState st') = mouseOffset (draggingState st)) /\
    (~ leaves ->
       (exists ps',
          Forall2 (translatedPart dx dy) (parts r) ps' /\
          partsReplacedAt k (id r) ps' (regions st) (regions st')) /\
       mouseOffset (draggingState st') = pos).
Proof.
  intros Himg Hdrag Hmode Hsel Hfind dx dy leaves.
  unfold onMouseMove, dragUpdater. rewrite Hdrag, Hmode, Hsel, Hfind, Himg.
  fold dx dy.
  destruct (partsCanMove_spec im dx dy (parts r)) as [b [-> Hb]].
  fold leaves in Hb.
  destruct (findRegion_Some _ _ _ _ Hfind) as [Hnth _].
  destruct b; eexists; (split; [reflexivity|]); simpl.
  - split.
    + intros Hl. apply Hb in Hl. discriminate.
    + intros _. split; [|reflexivity].
      exists (map (movePart dx dy) (parts r)). split.
      * apply movePart_translated.
      * now apply set_nth_partsReplacedAt.
  - split.
    + intros _. rewrite region_eta, (set_nth_same _ _ _ Hnth). auto.
    + intros Hn. exfalso. apply Hn, Hb. reflexivity.
Qed.

Lemma body_drag_all_or_nothing_witness :
  exists st',
    onMouseMove (Some (mkPoint 410 310)) bodyDragEditor = Some st' /\
    regions st' = [mkRegion 1 [RectPart (300 + (410 - 400)) (200 + (310 - 300)) 200 200]] /\
    mouseOffset (draggingState st') = mkPoint 410 310.
Proof.
  destruct (body_drag_all_or_nothing bodyDragEditor sampleImage (mkPoint 410 310)
              squareA squareA 0)
    as (st' & Hrun & _ & Hmoved).
  - reflexivity.
  - reflexivity.
  - reflexivity.
  - reflexivity.
  - reflexivity.
  - exists st'. split; [exact Hrun|].
    destruct Hmoved as [(ps' & Htrans & Hlen & Hk & _) Hanchor].
    { intros (part & [<-|[]] & Hout). simpl in Hout.
      destruct Hout as [H|[H|[H|H]]]; vm_compute in H; discriminate H. }
    split; [|exact Hanchor].
    destruct (regions st') as [|r' [|r'' rest]]; try discriminate Hlen.
    simpl in Hk. injection Hk as ->. f_equal. f_equal.
    inversion Htrans as [|part part' l l' Hpart Hrest]; subst.
    inversion Hrest; subst.
    destruct part' as [x' y' w' h'|pts]; simpl in Hpart; [|contradiction].
    destruct Hpart as (-> & -> & -> & ->). reflexivity.
Defined.

(** ** Modal editing modes *)

(** Turning a mode on turns the three others off, whatever the flags were. *)
Lemma toggleSelectMode_exclusive (st : Editor) :
  isSelectMode st = false ->
  activeModes (toggleSelectMode st) = [true; false; false; false].
Proof.
  intros Hoff. unfold toggleSelectMode, activeModes. rewrite Hoff.
  destruct (isWaitingForPointClick st) eqn:E1, (isDeletePointMode st) eqn:E2,
    (isDeleteRegionMode st) eqn:E3; simpl; rewrite ?E1, ?E2, ?E3; reflexivity.
Qed.

Lemma startAddPointMode_exclusive (st : Editor) :
  isWaitingForPointClick st = false ->
  activeModes (startAddPointMode st) = [false; true; false; false].
Proof.
  intros Hoff. unfold startAddPointMode, activeModes. rewrite Hoff.
  destruct (isSelectMode st) eqn:E1, (isDeletePointMode st) eqn:E2,
    (isDeleteRegionMode st) eqn:E3; simpl; rewrite ?E1, ?E2, ?E3; reflexivity.
Qed.

Lemma toggleDeletePointMode_exclusive (st : Editor) :
  isDeletePointMode st = false ->
  activeModes (toggleDeletePointMode st) = [false; false; true; false].
Proof.
  intros Hoff. unfold toggleDeletePointMode, activeModes. rewrite Hoff.
  destruct (isSelectMode st) eqn:E1, (isWaitingForPointClick st) eqn:E2,
    (isDeleteRegionMode st) eqn:E3; simpl; rewrite ?E1, ?E2, ?E3; reflexivity.
Qed.

Lemma toggleDeleteRegionMode_exclusive (st : Editor) :
  isDeleteRegionMode st = false ->
  activeModes (toggleDeleteRegionMode st) = [false; false; false; true].
Proof.
  intros Hoff. unfold toggleDeleteRegionMode, activeModes. rewrite Hoff.
  destruct (isSelectMode st) eqn:E1, (isWaitingForPointClick st) eqn:E2,
    (isDeletePointMode st) eqn:E3; simpl; rewrite ?E1, ?E2, ?E3; reflexivity.
Qed.

(** The select-mode and add-point toggles empty the multi-selection. *)
Lemma toggleSelectMode_clears (st : Editor) :
  multiSelectRegions (toggleSelectMode st) = ∅.
Proof. reflexivity. Qed.

Lemma startAddPointMode_clears (st : Editor) :
  isWaitingForPointClick st = false ->
  multiSelectRegions (startAddPointMode st) = ∅.
Proof. intros Hoff. unfold startAddPointMode. rewrite Hoff. reflexivity. Qed.

(** The two delete-mode toggles never touch the multi-selection. *)
Lemma toggleDeletePointMode_selection (st : Editor) :
  multiSelectRegions (toggleDeletePointMode st) = multiSelectRegions st.
Proof.
  unfold toggleDeletePointMode.
  destruct (isDeletePointMode st), (isSelectMode st), (isWaitingForPointClick st),
    (isDeleteRegionMode st); reflexivity.
Qed.

Lemma toggleDeleteRegionMode_selection (st : Editor) :
  multiSelectRegions (toggleDeleteRegionMode st) = multiSelectRegions st.
Proof.
  unfold toggleDeleteRegionMode.
  destruct (isDeleteRegionMode st), (isSelectMode st), (isWaitingForPointClick st),
    (isDeletePointMode st); reflexivity.
Qed.

(** C2.  The delete-point and the delete-region toggles leave the
    multi-selection as it was.  With two regions selected in select mode,
    turning either mode on leaves that mode as the only active one, and
    leaves both region ids in the multi-selection. *)
Theorem delete_mode_toggle_keeps_selection :
  (forall st, multiSelectRegions (toggleDeletePointMode st) = multiSelectRegions st) /\
  (forall st, multiSelectRegions (toggleDeleteRegionMode st) = multiSelectRegions st) /\
  activeModes (toggleDeletePointMode twoSelectedEditor) = [false; false; true; false] /\
  multiSelectRegions (toggleDeletePointMode twoSelectedEditor) = {[ 1%Z; 2%Z ]} /\
  activeModes (toggleDeleteRegionMode twoSelectedEditor) = [false; false; false; true] /\
  multiSelectRegions (toggleDeleteRegionMode twoSelectedEditor) = {[ 1%Z; 2%Z ]} /\
  ({[ 1%Z; 2%Z ]} : gset Z) <> ∅.
Proof.
  split; [exact toggleDeletePointMode_selection|].
  split; [exact toggleDeleteRegionMode_selection|].
  repeat split; try reflexivity.
  intros E. assert (Hin : (1%Z : Z) ∈ ({[ 1%Z; 2%Z ]} : gset Z)) by set_solver.
  rewrite E in Hin. set_solver.
Qed.

(** ** Hit classifier *)

Section HitClassifier.
Variable st : Editor.
Variable h2 : Q.
Variable pos : Point.

Ltac split_ifs :=
  repeat match goal with
  | |- context [if ?b then _ else _] => destruct b eqn:?
  end.

Lemma hitRect_region (region : Region) (j : Z) (x y w h : Q) (r : HitResult) :
  hitRect st h2 pos region j x y w h = Some r -> hit_region r = Some region.
Proof.
  unfold hitRect.
  generalize (negb (isSelectMode st) && negb (isWaitingForPointClick st)
              && negb (isDeletePointMode st) && negb (isDeleteRegionMode st)).
  generalize (near (px pos) x h2 && near (py pos) y h2).
  generalize (near (px pos) (x + w) h2 && near (py pos) y h2).
  generalize (near (px pos) (x + w) h2 && near (py pos) (y + h) h2).
  generalize (near (px pos) x h2 && near (py pos) (y + h) h2).
  generalize (near (px pos) (x + w / 2) h2 && near (py pos) y h2).
  generalize (near (px pos) (x + w) h2 && near (py pos) (y + h / 2) h2).
  generalize (near (px pos) (x + w / 2) h2 && near (py pos) (y + h) h2).
  generalize (near (px pos) x h2 && near (py pos) (y + h / 2) h2).
  generalize (Qgtb (px pos) x && Qltb (px pos) (x + w) && Qgtb (py pos) y
              && Qltb (py pos) (y + h)).
  intros b0 b1 b2 b3 b4 b5 b6 b7 b8 b9.
  destruct b9; [destruct b8; [|destruct b7; [|destruct b6; [|destruct b5;
    [|destruct b4; [|destruct b3; [|destruct b2; [|destruct b1]]]]]]]|];
    destruct b0; intros E; try discriminate; injection E as <-; reflexivity.
Qed.

Lemma hitRect_body (region : Region) (j : Z) (x y w h : Q) :
  partBodyContains pos (RectPart x y w h) = true ->
  exists r, hitRect st h2 pos region j x y w h = Some r.
Proof.
  simpl. intros Hb. unfold hitRect. rewrite Hb.
  match goal with
  | |- context [match ?X with Some r => Some r | None => _ end] => destruct X
  end; eexists; reflexivity.
Qed.

Lemma hitVertices_region (region : Region) (part : Part) (ps : list Point)
    (j k : Z) (r : HitResult) :
  hitVertices st h2 pos region j part k ps = Some r -> hit_region r = Some region.
Proof.
  revert k; induction ps as [|p t IH]; intros k; simpl; [discriminate|].
  split_ifs; intros E; try (injection E as <-; reflexivity); eauto.
Qed.

Lemma hitPart_region (region : Region) (j : Z) (part : Part) (r : HitResult) :
  hitPart st h2 pos region j part = Some r -> hit_region r = Some region.
Proof.
  destruct part as [x y w h|points]; simpl.
  - apply hitRect_region.
  - unfold hitPoly.
    destruct (hitVertices st h2 pos region j (PolyPart points) 0 points) eqn:E.
    + intros E'; injection E' as <-. eapply hitVertices_region; eauto.
    + destruct (pointInPolygon pos points); intros E'; [|discriminate].
      injection E' as <-. reflexivity.
Qed.

Lemma hitPart_body (region : Region) (j : Z) (part : Part) :
  partBodyContains pos part = true ->
  exists r, hitPart st h2 pos region j part = Some r.
Proof.
  destruct part as [x y w h|points].
  - apply hitRect_body.
  - simpl. intros Hb. unfold hitPoly. rewrite Hb.
    destruct (hitVertices st h2 pos region j (PolyPart points) 0 points);
      eexists; reflexivity.
Qed.

Lemma hitParts_region (region : Region) (ps : list Part) (j : Z) (r : HitResult) :
  hitParts st h2 pos region j ps = Some r -> hit_region r = Some region.
Proof.
  revert j; induction ps as [|part t IH]; intros j; simpl; [discriminate|].
  destruct (hitPart st h2 pos region j part) eqn:E.
  - intros E'; injection E' as <-. eapply hitPart_region; eauto.
  - apply IH.
Qed.

Lemma hitParts_body (region : Region) (ps : list Part) (j : Z) :
  existsb (partBodyContains pos) ps = true ->
  exists r, hitParts st h2 pos region j ps = Some r.
Proof.
  revert j; induction ps as [|part t IH]; intros j; simpl; [discriminate|].
  intros Hb. destruct (hitPart st h2 pos region j part) eqn:E; [eauto|].
  apply orb_true_iff in Hb. destruct Hb as [Hb|Hb]; [|auto].
  destruct (hitPart_body region j part Hb) as [r Hr]. congruence.
Qed.

(** The scan returns the first region of its list that has a match. *)
Lemma hitRegions_first (l1 l2 : list Region) (r : Region) :
  Forall (fun r' => matchesAt st h2 pos r' = false) l1 ->
  matchesAt st h2 pos r = true ->
  hit_region (hitRegions st h2 pos (l1 ++ r :: l2)) = Some r.
Proof.
  unfold matchesAt. intros Hl1 Hr. induction Hl1 as [|r' t Hr' _ IH]; simpl.
  - destruct (hitParts st h2 pos r 0 (parts r)) eqn:E; [|discriminate].
    eapply hitParts_region; eauto.
  - destruct (hitParts st h2 pos r' 0 (parts r')); [discriminate|]. exact IH.
Qed.

Lemma hitRect_part (region : Region) (j : Z) (x y w h : Q) (r : HitResult) :
  hitRect st h2 pos region j x y w h = Some r -> hitOnPart r j (RectPart x y w h).
Proof.
  unfold hitRect.
  generalize (negb (isSelectMode st) && negb (isWaitingForPointClick st)
              && negb (isDeletePointMode st) && negb (isDeleteRegionMode st)).
  generalize (near (px pos) x h2 && near (py pos) y h2).
  generalize (near (px pos) (x + w) h2 && near (py pos) y h2).
  generalize (near (px pos) (x + w) h2 && near (py pos) (y + h) h2).
  generalize (near (px pos) x h2 && near (py pos) (y + h) h2).
  generalize (near (px pos) (x + w / 2) h2 && near (py pos) y h2).
  generalize (near (px pos) (x + w) h2 && near (py pos) (y + h / 2) h2).
  generalize (near (px pos) (x + w / 2) h2 && near (py pos) (y + h) h2).
  generalize (near (px pos) x h2 && near (py pos) (y + h / 2) h2).
  generalize (Qgtb (px pos) x && Qltb (px pos) (x + w) && Qgtb (py pos) y
              && Qltb (py pos) (y + h)).
  intros b0 b1 b2 b3 b4 b5 b6 b7 b8 b9.
  destruct b9; [destruct b8; [|destruct b7; [|destruct b6; [|destruct b5;
    [|destruct b4; [|destruct b3; [|destruct b2; [|destruct b1]]]]]]]|];
    destruct b0; intros E; try discriminate; injection E as <-;
    (split; [reflexivity|split; [reflexivity|left; reflexivity]]).
Qed.

Lemma hitVertices_part (region : Region) (part : Part) (ps : list Point)
    (j k : Z) (r : HitResult) :
  hitVertices st h2 pos region j part k ps = Some r ->
  hit_part r = Some part /\ hit_partIndex r = j /\
  (k <= hit_vertexIndex r < k + Z.of_nat (length ps))%Z.
Proof.
  revert k; induction ps as [|p t IH]; intros k; simpl hitVertices; [discriminate|].
  assert (Hrest : hitVertices st h2 pos region j part (k + 1) t = Some r ->
            hit_part r = Some part /\ hit_partIndex r = j /\
            (k <= hit_vertexIndex r < k + Z.of_nat (length (p :: t)))%Z).
  { intros E. destruct (IH _ E) as (H1 & H2 & H3). simpl length. repeat split; auto; lia. }
  destruct (hypot_lt _ _ _); [|exact Hrest].
  destruct (isDeletePointMode st).
  { intros E; injection E as <-. simpl. repeat split; auto; lia. }
  destruct (negb (isSelectMode st) && negb (isWaitingForPointClick st)); [|exact Hrest].
  intros E; injection E as <-. simpl. repeat split; auto; lia.
Qed.

Lemma hitPart_part (region : Region) (j : Z) (part : Part) (r : HitResult) :
  hitPart st h2 pos region j part = Some r -> hitOnPart r j part.
Proof.
  destruct part as [x y w h|points]; simpl.
  - apply hitRect_part.
  - unfold hitPoly.
    destruct (hitVertices st h2 pos region j (PolyPart points) 0 points) eqn:E.
    + intros E'; injection E' as <-.
      destruct (hitVertices_part _ _ _ _ _ _ E) as (H1 & H2 & H3).
      split; [exact H1|]. split; [exact H2|]. right. simpl. lia.
    + destruct (pointInPolygon pos points); intros E'; [|discriminate].
      injection E' as <-. split; [reflexivity|split; [reflexivity|left; reflexivity]].
Qed.

Lemma hitParts_part (region : Region) (ps : list Part) (j : Z) (r : HitResult) :
  hitParts st h2 pos region j ps = Some r ->
  exists n part,
    nth_error ps n = Some part /\ hitOnPart r (j + Z.of_nat n) part.
Proof.
  revert j; induction ps as [|part t IH]; intros j; simpl; [discriminate|].
  destruct (hitPart st h2 pos region j part) eqn:E.
  - intros E'; injection E' as <-. exists 0%nat, part. split; [reflexivity|].
    rewrite Z.add_0_r. eapply hitPart_part; eauto.
  - intros E'. destruct (IH _ E') as (n & part' & Hn & Hon).
    exists (S n), part'. split; [exact Hn|].
    replace (j + Z.of_nat (S n))%Z with (j + 1 + Z.of_nat n)%Z by lia. exact Hon.
Qed.

Lemma hitRegions_part (l : list Region) (region : Region) :
  hit_region (hitRegions st h2 pos l) = Some region ->
  exists part,
    nthZ (parts region) (hit_partIndex (hitRegions st h2 pos l)) = Some part /\
    hitOnPart (hitRegions st h2 pos l) (hit_partIndex (hitRegions st h2 pos l)) part.
Proof.
  induction l as [|a t IH]; simpl; [discriminate|].
  destruct (hitParts st h2 pos a 0 (parts a)) as [r|] eqn:E; [|exact IH].
  rewrite (hitParts_region _ _ _ _ E). intros H; injection H as <-.
  destruct (hitParts_part _ _ _ _ E) as (n & part & Hn & Hon).
  exists part. destruct Hon as (H1 & H2 & H3).
  split.
  - rewrite H2. unfold nthZ. destruct (Z.ltb_spec (0 + Z.of_nat n) 0); [lia|].
    now rewrite Z.add_0_l, Nat2Z.id.
  - split; [exact H1|]. split; [reflexivity|exact H3].
Qed.

(** Within a region the parts are tried in order: a hit comes from the
    first part that has a feature under the pointer. *)
Lemma hitParts_first (region : Region) (ps : list Part) (j : Z) (r : HitResult) :
  hitParts st h2 pos region j ps = Some r ->
  exists n part,
    nth_error ps n = Some part /\
    hitPart st h2 pos region (j + Z.of_nat n) part = Some r /\
    (forall m part', (m < n)%nat -> nth_error ps m = Some part' ->
       hitPart st h2 pos region (j + Z.of_nat m) part' = None).
Proof.
  revert j; induction ps as [|part t IH]; intros j; simpl; [discriminate|].
  destruct (hitPart st h2 pos region j part) eqn:E.
  - intros E'; injection E' as <-. exists 0%nat, part.
    rewrite Z.add_0_r. repeat split; auto. intros m part' Hm. lia.
  - intros E'. destruct (IH _ E') as (n & part' & Hn & Hhit & Hbefore).
    exists (S n), part'.
    replace (j + Z.of_nat (S n))%Z with (j + 1 + Z.of_nat n)%Z by lia.
    repeat split; auto.
    intros [|m] q Hm Hq; simpl in Hq.
    + injection Hq as <-. now rewrite Z.add_0_r.
    + replace (j + Z.of_nat (S m))%Z with (j + 1 + Z.of_nat m)%Z by lia.
      apply Hbefore; [lia|exact Hq].
Qed.

Lemma hitRegions_first_hit (l1 l2 : list Region) (r : Region) (h : HitResult) :
  Forall (fun r' => matchesAt st h2 pos r' = false) l1 ->
  hitParts st h2 pos r 0%Z (parts r) = Some h ->
  hitRegions st h2 pos (l1 ++ r :: l2) = h.
Proof.
  unfold matchesAt. intros Hl1 Hr. induction Hl1 as [|r' t Hr' _ IH]; simpl.
  - now rewrite Hr.
  - destruct (hitParts st h2 pos r' 0 (parts r')); [discriminate|]. exact IH.
Qed.

Lemma first_match_split (l : list Region) :
  (exists r, In r l /\ matchesAt st h2 pos r = true) ->
  exists l1 r l2, l = l1 ++ r :: l2 /\
    Forall (fun r' => matchesAt st h2 pos r' = false) l1 /\ matchesAt st h2 pos r = true.
Proof.
  induction l as [|a t IH]; intros [r [Hin Hm]]; [destruct Hin|].
  destruct (matchesAt st h2 pos a) eqn:Ea.
  - exists [], a, t. auto.
  - destruct IH as [l1 [r' [l2 [-> [Hl1 Hr']]]]].
    + destruct Hin as [<-|Hin]; [congruence|eauto].
    + exists (a :: l1), r', l2. auto.
Qed.
End HitClassifier.

(** The classifier reads the editor only through the region collection, the
    four mode flags and the zoom factor. *)
Section HitClassifierInputs.
Variables st1 st2 : Editor.
Hypothesis same_select : isSelectMode st1 = isSelectMode st2.
Hypothesis same_waiting : isWaitingForPointClick st1 = isWaitingForPointClick st2.
Hypothesis same_deletePoint : isDeletePointMode st1 = isDeletePointMode st2.
Hypothesis same_deleteRegion : isDeleteRegionMode st1 = isDeleteRegionMode st2.

Lemma hitVertices_inputs (h2 : Q) (pos : Point) (region : Region) (part : Part)
    (ps : list Point) (j k : Z) :
  hitVertices st1 h2 pos region j part k ps = hitVertices st2 h2 pos region j part k ps.
Proof.
  revert k; induction ps as [|p t IH]; intros k; simpl; [reflexivity|].
  rewrite same_select, same_waiting, same_deletePoint, !IH. reflexivity.
Qed.

Lemma hitPart_inputs (h2 : Q) (pos : Point) (region : Region) (j : Z) (part : Part) :
  hitPart st1 h2 pos region j part = hitPart st2 h2 pos region j part.
Proof.
  destruct part as [x y w h|points]; simpl.
  - unfold hitRect.
    rewrite same_select, same_waiting, same_deletePoint, same_deleteRegion.
    reflexivity.
  - unfold hitPoly.
    rewrite hitVertices_inputs, same_select, same_deleteRegion. reflexivity.
Qed.

Lemma hitParts_inputs (h2 : Q) (pos : Point) (region : Region) (ps : list Part) (j : Z) :
  hitParts st1 h2 pos region j ps = hitParts st2 h2 pos region j ps.
Proof.
  revert j; induction ps as [|part t IH]; intros j; simpl; [reflexivity|].
  rewrite hitPart_inputs, IH. reflexivity.
Qed.

Lemma hitRegions_inputs (h2 : Q) (pos : Point) (l : list Region) :
  hitRegions st1 h2 pos l = hitRegions st2 h2 pos l.
Proof.
  induction l as [|region t IH]; simpl; [reflexivity|].
  rewrite hitParts_inputs, IH. reflexivity.
Qed.

Lemma getHitRegion_inputs (pos : Point) :
  regions st1 = regions st2 -> zoom st1 = zoom st2 ->
  getHitRegion st1 pos = getHitRegion st2 pos.
Proof.
  intros Hr Hz. unfold getHitRegion. rewrite Hr, Hz. apply hitRegions_inputs.
Qed.
End HitClassifierInputs.

Lemma bodyContains_matches (st : Editor) (pos : Point) (r : Region) :
  bodyContains pos r = true -> regionMatches st pos r = true.
Proof.
  intros Hb. unfold regionMatches, matchesAt.
  destruct (hitParts_body st (HANDLE_SIZE / zoom st / 2) pos r (parts r) 0 Hb) as [h ->].
  reflexivity.
Qed.

(** The region the classifier returns is the one of highest index that has
    a feature under the pointer. *)
Lemma getHitRegion_topmost (st : Editor) (pos : Point) (j : nat) (rj : Region) :
  nth_error (regions st) j = Some rj ->
  regionMatches st pos rj = true ->
  exists k rk,
    (j <= k)%nat /\ nth_error (regions st) k = Some rk /\
    regionMatches st pos rk = true /\
    (forall m rm, (k < m)%nat -> nth_error (regions st) m = Some rm ->
                  regionMatches st pos rm = false) /\
    hit_region (getHitRegion st pos) = Some rk /\
    firstPartHit st pos rk (getHitRegion st pos).
Proof.
  intros Hj Hmj. unfold regionMatches, firstPartHit in *. unfold getHitRegion.
  set (h2 := HANDLE_SIZE / zoom st / 2) in *.
  destruct (first_match_split st h2 pos (rev (regions st))) as [l1 [rk [l2 [Hsplit [Hl1 Hrk]]]]].
  { exists rj. split; [|exact Hmj]. apply -> List.in_rev. eapply nth_error_In; eauto. }
  assert (Hregs : regions st = rev l2 ++ rk :: rev l1).
  { rewrite <- (rev_involutive (regions st)), Hsplit, rev_app_distr. simpl.
    rewrite <- app_assoc. reflexivity. }
  assert (Hkth : nth_error (regions st) (length l2) = Some rk).
  { rewrite Hregs, nth_error_app2 by (rewrite length_rev; lia).
    rewrite length_rev, Nat.sub_diag. reflexivity. }
  assert (Habove : forall m rm, (length l2 < m)%nat ->
            nth_error (regions st) m = Some rm -> matchesAt st h2 pos rm = false).
  { intros m rm Hm Hnth. rewrite Hregs in Hnth.
    rewrite nth_error_app2 in Hnth by (rewrite length_rev; lia).
    rewrite length_rev in Hnth.
    destruct (m - length l2)%nat as [|d] eqn:Ed; [lia|]. simpl in Hnth.
    apply nth_error_In in Hnth. rewrite <- List.in_rev in Hnth.
    rewrite List.Forall_forall in Hl1. auto. }
  exists (length l2), rk.
  split; [|split; [exact Hkth|split; [exact Hrk|split; [exact Habove|split]]]].
  - destruct (Nat.le_gt_cases j (length l2)) as [Hle|Hgt]; [exact Hle|].
    rewrite (Habove _ _ Hgt Hj) in Hmj. discriminate.
  - rewrite Hsplit. apply hitRegions_first; assumption.
  - unfold matchesAt in Hrk.
    destruct (hitParts st h2 pos rk 0 (parts rk)) as [h|] eqn:Eh; [|discriminate].
    rewrite Hsplit, (hitRegions_first_hit st h2 pos l1 l2 rk h Hl1 Eh).
    destruct (hitParts_first st h2 pos rk (parts rk) 0 h Eh) as (n & part & Hn & Hhit & Hbefore).
    exists n, part. rewrite Z.add_0_l in Hhit. repeat split; auto.
Qed.

(** C3 (amended).  The regions are scanned from the last one to the first
    one, and the parts of a region in order.  When two regions at indices
    [i < j] both contain the pointer in their body, the classifier returns
    the region of highest index that has a feature under the pointer, which
    lies at index [j] or above, with the hit of the first part of that
    region that has one; it is region [j] when no region above [j] has such
    a feature.  The result only depends on the position, the regions, the
    mode flags and the zoom. *)
Theorem topmost_region_wins (st : Editor) (pos : Point) (i j : nat) (ri rj : Region) :
  (i < j)%nat ->
  nth_error (regions st) i = Some ri ->
  nth_error (regions st) j = Some rj ->
  bodyContains pos ri = true ->
  bodyContains pos rj = true ->
  (exists k rk,
     (j <= k)%nat /\ nth_error (regions st) k = Some rk /\
     regionMatches st pos rk = true /\
     (forall m rm, (k < m)%nat -> nth_error (regions st) m = Some rm ->
                   regionMatches st pos rm = false) /\
     hit_region (getHitRegion st pos) = Some rk /\
     firstPartHit st pos rk (getHitRegion st pos)) /\
  ((forall m rm, (j < m)%nat -> nth_error (regions st) m = Some rm ->
                 regionMatches st pos rm = false) ->
   hit_region (getHitRegion st pos) = Some rj) /\
  (forall st2,
     regions st2 = regions st -> zoom st2 = zoom st ->
     activeModes st2 = activeModes st ->
     getHitRegion st2 pos = getHitRegion st pos).
Proof.
  intros Hij Hi Hj Hbi Hbj.
  pose proof (bodyContains_matches st pos rj Hbj) as Hmj.
  destruct (getHitRegion_topmost st pos j rj Hj Hmj)
    as [k [rk [Hjk [Hk [Hmk [Habove [Hhit Hfirst]]]]]]].
  split; [|split].
  - exists k, rk. repeat split; assumption.
  - intros Hnone. destruct (Nat.eq_dec j k) as [<-|Hne].
    + congruence.
    + rewrite (Hnone k rk) in Hmk by (auto; lia). discriminate.
  - intros st2 Hr Hz Hflags. unfold activeModes in Hflags.
    injection Hflags as H1 H2 H3 H4.
    apply getHitRegion_inputs; assumption.
Qed.

Lemma topmost_region_wins_witness :
  bodyContains (mkPoint 450 350) squareA = true /\
  bodyContains (mkPoint 450 350) squareB = true /\
  hit_region (getHitRegion twoStackedEditor (mkPoint 450 350)) = Some squareB.
Proof.
  split; [reflexivity|]. split; [reflexivity|].
  apply (topmost_region_wins twoStackedEditor (mkPoint 450 350) 0 1 squareA squareB);
    try reflexivity; [lia|].
  intros [|[|m]] rm Hm; try lia. destruct m; discriminate.
Defined.

(** C3 as stated fails: with three regions stacked over the pointer, the
    regions at indices 0 and 1 both contain it, and the classifier returns
    the region at index 2. *)
Lemma topmost_of_two_counterexample :
  ~ (forall (st : Editor) (pos : Point) (i j : nat) (ri rj : Region),
       (i < j)%nat ->
       nth_error (regions st) i = Some ri ->
       nth_error (regions st) j = Some rj ->
       bodyContains pos ri = true ->
       bodyContains pos rj = true ->
       hit_region (getHitRegion st pos) = Some rj).
Proof.
  intros Hclaim.
  specialize (Hclaim stackedEditor (mkPoint 450 350) 0%nat 1%nat squareA squareB).
  assert (Hhit : hit_region (getHitRegion stackedEditor (mkPoint 450 350)) = Some squareC)
    by reflexivity.
  rewrite Hhit in Hclaim.
  assert (Some squareC = Some squareB) by (apply Hclaim; auto; reflexivity).
  discriminate.
Qed.

(** ** Regions are found by their id *)

Lemma findRegion_unique (rs : list Region) (r : Region) :
  List.NoDup (map id rs) -> In r rs -> exists k, findRegion (id r) rs = Some (k, r).
Proof.
  intros Hnodup Hin.
  assert (Hidx : exists k, findIndex_id (id r) rs = Some k /\ nth_error rs k = Some r).
  { induction rs as [|a t IH]; [destruct Hin|].
    simpl in Hnodup. inversion Hnodup as [|i ids Hfresh Hrest]; subst.
    simpl. destruct (Z.eqb_spec (id a) (id r)) as [E|E].
    - exists 0%nat. split; [reflexivity|]. simpl.
      destruct Hin as [->|Hin]; [reflexivity|].
      exfalso. apply Hfresh. rewrite E. now apply in_map.
    - destruct Hin as [->|Hin]; [contradiction|].
      destruct (IH Hrest Hin) as [k [Hk Hnth]].
      exists (S k). rewrite Hk. auto. }
  destruct Hidx as [k [Hk Hnth]]. exists k.
  unfold findRegion. rewrite Hk, Hnth. reflexivity.
Qed.

(** ** Closest edge *)

Lemma segmentsOf_index (part : Part) (seg : Point * Point * Z) :
  In seg (segmentsOf part) ->
  (0 <= snd seg < Z.of_nat (length (cornerPoints part)))%Z.
Proof.
  destruct part as [x y w h|points]; simpl.
  - intros [<-|[<-|[<-|[<-|[]]]]]; simpl; lia.
  - destruct seg as [ends index]. intros Hin. apply in_combine_r in Hin.
    apply in_map_iff in Hin. destruct Hin as [n [<- Hn]].
    apply in_seq in Hn. simpl. lia.
Qed.

Section ClosestEdge.
Variable allRegions : list Region.
Variable pos : Point.

Lemma closestStep_on (region : Region) (partIdx : Z) (part : Part) (acc : Closest)
    (seg : Point * Point * Z) :
  In region allRegions ->
  nthZ (parts region) partIdx = Some part ->
  (0 <= snd seg < Z.of_nat (length (cornerPoints part)))%Z ->
  closestOn allRegions acc ->
  closestOn allRegions (closestStep pos region partIdx acc seg).
Proof.
  intros Hin Hpart Hseg Hacc. unfold closestStep.
  destruct seg as [[p1 p2] index]. destruct (distToSegment pos p1 p2) as [d2 point].
  destruct (match cl_dist2 acc with Some m => Qltb d2 m | None => true end);
    [|exact Hacc].
  unfold closestOn. simpl. split; [exact Hin|]. exists part, point. auto.
Qed.

Lemma closestSegments_on (region : Region) (partIdx : Z) (part : Part)
    (segs : list (Point * Point * Z)) (acc : Closest) :
  In region allRegions ->
  nthZ (parts region) partIdx = Some part ->
  (forall seg, In seg segs ->
               (0 <= snd seg < Z.of_nat (length (cornerPoints part)))%Z) ->
  closestOn allRegions acc ->
  closestOn allRegions (fold_left (closestStep pos region partIdx) segs acc).
Proof.
  intros Hin Hpart. revert acc; induction segs as [|seg t IH]; intros acc Hsegs Hacc;
    simpl; [exact Hacc|].
  apply IH; [intros; apply Hsegs; now right|].
  apply (closestStep_on region partIdx part); auto. apply Hsegs. now left.
Qed.

Lemma closestParts_on (region : Region) (pre ps : list Part) (acc : Closest) :
  In region allRegions ->
  parts region = pre ++ ps ->
  closestOn allRegions acc ->
  closestOn allRegions (closestParts pos region (Z.of_nat (length pre)) ps acc).
Proof.
  intros Hin. revert pre acc; induction ps as [|part rest IH]; intros pre acc Hparts Hacc;
    simpl; [exact Hacc|].
  replace (Z.of_nat (length pre) + 1)%Z with (Z.of_nat (length (pre ++ [part])))
    by (rewrite List.length_app; simpl; lia).
  apply IH; [now rewrite <- app_assoc|].
  apply (closestSegments_on region _ part); auto.
  - unfold nthZ. destruct (Z.ltb_spec (Z.of_nat (length pre)) 0); [lia|].
    rewrite Nat2Z.id, Hparts, nth_error_app2, Nat.sub_diag by lia. reflexivity.
  - apply segmentsOf_index.
Qed.

Lemma closestRegions_on (l : list Region) (acc : Closest) :
  (forall region, In region l -> In region allRegions) ->
  closestOn allRegions acc ->
  closestOn allRegions
    (fold_left (fun acc region => closestParts pos region 0%Z (parts region) acc) l acc).
Proof.
  revert acc; induction l as [|region t IH]; intros acc Hl Hacc; simpl; [exact Hacc|].
  apply IH; [intros; apply Hl; now right|].
  apply (closestParts_on region [] (parts region)); auto. apply Hl. now left.
Qed.
End ClosestEdge.

(** The edge [findClosestEdgePoint] returns is an edge of a part of a region
    of the collection. *)
Lemma findClosestEdgePoint_on (st : Editor) (pos : Point) (allRegions : list Region) :
  closestOn allRegions (findClosestEdgePoint st pos allRegions).
Proof.
  unfold findClosestEdgePoint.
  match goal with
  | |- closestOn _ (if ?b then _ else _) => destruct b
  end; [exact I|].
  apply closestRegions_on; [auto|exact I].
Qed.

(** ** Vertex insertion *)

Lemma splice_insert_cons {A : Type} (a : A) (l : list A) (i : nat) (p : A) :
  splice_insert (a :: l) (S i) p = a :: splice_insert l i p.
Proof. reflexivity. Qed.

Lemma splice_insert_after (l : list Point) (i : nat) (p : Point) :
  (i < length l)%nat -> insertedAfter i p l (splice_insert l (S i) p).
Proof.
  revert l; induction i as [|i IH]; intros [|a t] Hlen; simpl in Hlen; try lia.
  - unfold insertedAfter, splice_insert. simpl. repeat split; auto.
    + intros [|k] Hk; [reflexivity|lia].
    + intros [|k] Hk; [lia|reflexivity].
  - rewrite splice_insert_cons.
    destruct (IH t ltac:(lia)) as [H1 [H2 [H3 H4]]].
    unfold insertedAfter. simpl. repeat split; auto.
    + intros [|k] Hk; [reflexivity|]. simpl. apply H3. lia.
    + intros [|k] Hk; [lia|]. simpl. apply H4. lia.
Qed.

(** C4.  In a collection with distinct region ids, an add-point click that
    resolves to an edge of a part replaces that part by a polygon whose
    points are the points of the part (for a rectangle its corners nw, ne,
    se, sw) with the new point inserted right after the index of the edge,
    the other points keeping their order; the index of the edge is one of
    the edges of the part, and a rectangle gives five points. *)
Theorem add_point_inserts_after_edge (st : Editor) (pos : Point) (region : Region) :
  List.NoDup (map id (regions st)) ->
  let c := findClosestEdgePoint st pos (regions st) in
  cl_region c = Some region ->
  exists k part newPoint points,
    nth_error (regions st) k = Some region /\
    nthZ (parts region) (cl_partIndex c) = Some part /\
    cl_point c = Some newPoint /\
    (0 <= cl_segmentIndex c < Z.of_nat (length (cornerPoints part)))%Z /\
    addPointToPolygon (Some pos) st =
      Some (setRegions
              (set_nth (regions st) k
                 (mkRegion (id region)
                    (set_nth (parts region) (Z.to_nat (cl_partIndex c)) (PolyPart points))))
              st) /\
    insertedAfter (Z.to_nat (cl_segmentIndex c)) newPoint (cornerPoints part) points /\
    (isPoly part = false -> length points = 5%nat).
Proof.
  intros Hnodup c Hregion.
  pose proof (findClosestEdgePoint_on st pos (regions st)) as Hon.
  fold c in Hon. unfold closestOn in Hon. rewrite Hregion in Hon.
  destruct Hon as (Hin & part & newPoint & Hpart & Hpoint & Hsi).
  destruct (findRegion_unique _ _ Hnodup Hin) as [k Hfind].
  destruct (findRegion_Some _ _ _ _ Hfind) as [Hk _].
  destruct (nthZ_Some _ _ _ Hpart) as [Hpi _].
  exists k, part, newPoint,
    (splice_insert (cornerPoints part) (S (Z.to_nat (cl_segmentIndex c))) newPoint).
  split; [exact Hk|]. split; [exact Hpart|]. split; [exact Hpoint|].
  split; [exact Hsi|]. split; [|split].
  - unfold addPointToPolygon. fold c. rewrite Hregion, Hpoint.
    destruct (Z.eqb_spec (cl_partIndex c) (-1)) as [E|_]; [lia|].
    destruct (Z.eqb_spec (cl_segmentIndex c) (-1)) as [E|_]; [lia|].
    cbn [negb andb]. unfold addPointUpdater. rewrite Hfind, Hpart.
    cbn [option_map]. unfold insertVertex.
    replace (Z.to_nat (cl_segmentIndex c + 1)) with (S (Z.to_nat (cl_segmentIndex c)))
      by lia.
    destruct part; reflexivity.
  - apply splice_insert_after. lia.
  - intros Hrect. destruct part as [x y w h|points]; [|discriminate].
    destruct (splice_insert_after (cornerPoints (RectPart x y w h))
                (Z.to_nat (cl_segmentIndex c)) newPoint) as [Hlen _]; [lia|].
    exact Hlen.
Qed.

Lemma add_point_inserts_after_edge_witness :
  exists points,
    addPointToPolygon (Some (mkPoint 400 203)) addPointEditor =
      Some (setRegions [mkRegion 1 [PolyPart points]] addPointEditor) /\
    nth_error points 1 = Some (mkPoint (16000000 # 40000) (8000000 # 40000)) /\
    length points = 5%nat.
Proof.
  destruct (add_point_inserts_after_edge addPointEditor (mkPoint 400 203) squareA)
    as (k & part & newPoint & points & Hk & Hpart & Hpoint & _ & Hrun & Hins & Hfive).
  - constructor; [simpl; tauto|constructor].
  - vm_compute; reflexivity.
  - vm_compute in Hpart. injection Hpart as <-.
    vm_compute in Hpoint. injection Hpoint as <-.
    destruct k as [|k]; [|destruct k; simpl in Hk; discriminate Hk].
    exists points. split; [|split].
    + vm_compute in Hrun. vm_compute. exact Hrun.
    + destruct Hins as (_ & Hnew & _). vm_compute in Hnew. exact Hnew.
    + apply Hfive. reflexivity.
Defined.

(** ** Merging regions *)

Lemma partitionSelected_filter (sel : gset Z) (rs toMerge remaining : list Region) :
  partitionSelected sel rs toMerge remaining =
    (toMerge ++ List.filter (isSelected sel) rs,
     remaining ++ List.filter (fun r => negb (isSelected sel r)) rs).
Proof.
  revert toMerge remaining; induction rs as [|r t IH]; intros toMerge remaining; simpl.
  - now rewrite !app_nil_r.
  - unfold isSelected. destruct (bool_decide (id r ∈ sel)) eqn:E; simpl;
      rewrite IH, <- app_assoc; reflexivity.
Qed.

Lemma mergeSelectedRegions_result (now : Z) (st : Editor) :
  (2 <= size (multiSelectRegions st))%nat ->
  regions (mergeSelectedRegions now st) =
    List.filter (fun r => negb (isSelected (multiSelectRegions st) r)) (regions st)
    ++ [mkRegion now
          (flat_map parts (List.filter (isSelected (multiSelectRegions st)) (regions st)))]
  /\ multiSelectRegions (mergeSelectedRegions now st) = ∅.
Proof.
  intros Hsize. unfold mergeSelectedRegions.
  destruct (Nat.ltb_spec (size (multiSelectRegions st)) 2) as [Hlt|_]; [lia|].
  rewrite partitionSelected_filter. simpl. auto.
Qed.

Lemma partCount_app (l1 l2 : list Region) :
  partCount (l1 ++ l2) = (partCount l1 + partCount l2)%nat.
Proof. unfold partCount. now rewrite map_app, list_sum_app. Qed.

Lemma partCount_flat_map (l : list Region) :
  length (flat_map parts l) = partCount l.
Proof.
  unfold partCount. induction l as [|r t IH]; simpl; [reflexivity|].
  now rewrite List.length_app, IH.
Qed.

Lemma partCount_filter (p : Region -> bool) (l : list Region) :
  partCount l =
    (partCount (List.filter (fun r => negb (p r)) l) + partCount (List.filter p l))%nat.
Proof.
  unfold partCount. induction l as [|r t IH]; simpl; [reflexivity|].
  destruct (p r); simpl; lia.
Qed.

Lemma length_filter_split (p : Region -> bool) (l : list Region) :
  length l =
    (length (List.filter (fun r => negb (p r)) l) + length (List.filter p l))%nat.
Proof.
  induction l as [|r t IH]; simpl; [reflexivity|].
  destruct (p r); simpl; lia.
Qed.

(** What a merge does.  With fewer than two ids selected, merging changes
    nothing.  With two or more, the regions of the collection that carry a
    selected id are replaced by one new region carrying the id [now], whose
    parts are theirs, concatenated in collection order: the other regions
    are kept, the number of parts is unchanged, the number of regions drops
    by the number of those regions minus one, and the multi-selection is
    empty. *)
Lemma merge_replaces_chosen (now : Z) (st : Editor) :
  let sel := multiSelectRegions st in
  let st' := mergeSelectedRegions now st in
  let chosen := List.filter (isSelected sel) (regions st) in
  ((size sel < 2)%nat -> st' = st) /\
  ((2 <= size sel)%nat ->
     (exists merged,
        id merged = now /\
        parts merged = flat_map parts chosen /\
        forall r, In r (regions st') <->
                  r = merged \/ (In r (regions st) /\ isSelected sel r = false)) /\
     partCount (regions st') = partCount (regions st) /\
     (length (regions st') + length chosen = length (regions st) + 1)%nat /\
     (~ In now (map id (regions st)) ->
      forall r, In r chosen -> ~ In (id r) (map id (regions st'))) /\
     multiSelectRegions st' = ∅).
Proof.
  intros sel st' chosen. split.
  - intros Hlt. unfold st', mergeSelectedRegions. fold sel.
    destruct (Nat.ltb_spec (size sel) 2); [reflexivity|lia].
  - intros Hsize.
    destruct (mergeSelectedRegions_result now st Hsize) as [Hregs Hsel].
    fold sel st' in Hregs, Hsel. fold chosen in Hregs.
    split; [|split; [|split; [|split]]].
    + exists (mkRegion now (flat_map parts chosen)). split; [reflexivity|].
      split; [reflexivity|]. intros r. rewrite Hregs, in_app_iff, filter_In.
      simpl. rewrite negb_true_iff. intuition.
    + rewrite Hregs, partCount_app. unfold partCount at 2. simpl.
      rewrite partCount_flat_map, Nat.add_0_r.
      symmetry. apply partCount_filter.
    + rewrite Hregs, List.length_app. simpl.
      rewrite (length_filter_split (isSelected sel) (regions st)). fold chosen. lia.
    + intros Hfresh r Hr Hin. unfold chosen in Hr. apply filter_In in Hr.
      destruct Hr as [Hr Hsel_r].
      rewrite Hregs, map_app, in_app_iff in Hin. simpl in Hin.
      destruct Hin as [Hin|[Hin|[]]].
      * apply in_map_iff in Hin. destruct Hin as [r' [Hid Hr']].
        apply filter_In in Hr'. destruct Hr' as [_ Hunsel].
        unfold isSelected in *. rewrite Hid in Hunsel. rewrite Hsel_r in Hunsel.
        discriminate.
      * apply Hfresh. rewrite Hin. apply in_map. exact Hr.
    + exact Hsel.
Qed.

(** C5.  The merge counts the selected ids, not the regions that carry
    them.  In the session [staleSelectionSession] two regions are selected,
    delete-region mode is entered, which keeps the selection, and both
    regions are deleted: two ids are then selected, the Merge button is
    enabled, and the collection is empty.  The merge replaces no region and
    appends a region without parts: the number of regions grows from 0 to 1
    where the claim has it drop by one, and the new region is the
    concatenation of no region. *)
Theorem merge_of_deleted_selection_adds_a_region :
  exists st,
    run staleSelectionSession initialEditor = Some st /\
    size (multiSelectRegions st) = 2%nat /\
    isMergeDisabled st = false /\
    regions st = [] /\
    regions (mergeSelectedRegions 99 st) = [mkRegion 99 []] /\
    multiSelectRegions (mergeSelectedRegions 99 st) = ∅.
Proof.
  eexists. split; [vm_compute; reflexivity|].
  match goal with
  | |- size (multiSelectRegions ?s) = _ /\ _ =>
      assert (Hsize : size (multiSelectRegions s) = 2%nat) by (vm_compute; reflexivity);
      assert (Hmerge : (2 <= size (multiSelectRegions s))%nat) by (rewrite Hsize; lia);
      destruct (mergeSelectedRegions_result 99 s Hmerge) as [Hregs Hsel]
  end.
  split; [exact Hsize|].
  split; [vm_compute; reflexivity|].
  split; [reflexivity|].
  split; [rewrite Hregs; reflexivity|exact Hsel].
Qed.

(** C10.  A merge of two or more selected ids appends the merged region at
    the end of the collection, after the unselected regions in their
    previous order; the merged region is therefore the first one the hit
    classifier visits. *)
Theorem merge_appends_on_top (now : Z) (st : Editor) :
  (2 <= size (multiSelectRegions st))%nat ->
  let sel := multiSelectRegions st in
  let st' := mergeSelectedRegions now st in
  let merged := mkRegion now (flat_map parts (List.filter (isSelected sel) (regions st))) in
  regions st' = List.filter (fun r => negb (isSelected sel r)) (regions st) ++ [merged] /\
  List.last (regions st') merged = merged /\
  (forall pos, regionMatches st' pos merged = true ->
               hit_region (getHitRegion st' pos) = Some merged).
Proof.
  intros Hsize sel st' merged.
  destruct (mergeSelectedRegions_result now st Hsize) as [Hregs _].
  fold sel st' in Hregs. fold merged in Hregs.
  split; [exact Hregs|]. split.
  - rewrite Hregs. apply last_last.
  - intros pos Hm. unfold getHitRegion. rewrite Hregs, rev_app_distr. simpl.
    apply (hitRegions_first st' _ pos [] _ merged); [constructor|exact Hm].
Qed.

Lemma merge_appends_on_top_witness :
  (2 <= size (multiSelectRegions twoSelectedEditor))%nat /\
  regions (mergeSelectedRegions 99 twoSelectedEditor) =
    [mkRegion 99 [RectPart 300 200 200 200; RectPart 350 250 200 200]].
Proof.
  assert (Hsize : (2 <= size (multiSelectRegions twoSelectedEditor))%nat)
    by (vm_compute; lia).
  split; [exact Hsize|].
  destruct (merge_appends_on_top 99 twoSelectedEditor Hsize) as [Hregs _].
  rewrite Hregs. vm_compute. reflexivity.
Defined.

(** ** Rectangle resize *)

Lemma resizeRect_rule (img : option Image) (z : Q) (mode : DragMode) (pos : Point)
    (ox oy ow oh : Q) :
  isHandle mode = true ->
  let m := HANDLE_SIZE / z in
  let w0 := targetWidth img mode pos ox ow in
  let h0 := targetHeight img mode pos oy oh in
  exists x y w h,
    resizeRect img z mode pos ox oy ow oh = RectPart x y w h /\
    w = (if Qltb w0 m then m else w0) /\
    h = (if Qltb h0 m then m else h0) /\
    m <= w /\ m <= h /\
    (movesLeftEdge mode = false -> x = ox) /\
    (movesTopEdge mode = false -> y = oy) /\
    (movesLeftEdge mode = true -> x + w == ox + ow) /\
    (movesTopEdge mode = true -> y + h == oy + oh).
Proof.
  intros Hmode. unfold resizeRect, targetWidth, targetHeight.
  generalize (clampX img (px pos)) (clampY img (py pos)) (HANDLE_SIZE / z).
  intros cx cy m.
  destruct mode; try discriminate; cbn -[Qltb Qplus Qminus];
    match goal with
    | |- context [Qltb ?a m] => destruct (Qltb a m) eqn:Ew
    end;
    match goal with
    | |- context [Qltb ?a m] => destruct (Qltb a m) eqn:Eh
    end;
    do 4 eexists; (split; [reflexivity|]);
    rewrite ?Ew, ?Eh; qprop;
    repeat split; try reflexivity; try discriminate; intros; try lra.
Qed.

(** C6.  A pointer-move sample of a resize drag through one of the eight
    handles replaces the rectangle [{ox, oy, ow, oh}] by [{x, y, w, h}]
    where the width is the one of the 8-way rule on the clamped pointer,
    raised to [HANDLE_SIZE / zoom] when it is below it, and likewise the
    height; so both are at least that minimum.  [x] differs from [ox] only
    for the handles w, nw, sw, and then the right edge [x + w] is the old
    one; [y] differs from [oy] only for n, nw, ne, and then the bottom edge
    [y + h] is the old one. *)
Theorem resize_keeps_minimum_and_opposite_edges (st : Editor) (pos : Point)
    (mode : DragMode) (sel r : Region) (k : nat) (ox oy ow oh : Q) :
  isDragging (draggingState st) = true ->
  dragMode (draggingState st) = Some mode ->
  isHandle mode = true ->
  selectedRegion (draggingState st) = Some sel ->
  findRegion (id sel) (regions st) = Some (k, r) ->
  nthZ (parts r) (selectedPartIndex (draggingState st)) = Some (RectPart ox oy ow oh) ->
  let m := HANDLE_SIZE / zoom st in
  let w0 := targetWidth (originalImage st) mode pos ox ow in
  let h0 := targetHeight (originalImage st) mode pos oy oh in
  exists st' x y w h,
    onMouseMove (Some pos) st = Some st' /\
    regions st' =
      set_nth (regions st) k
        (mkRegion (id r)
           (set_nth (parts r) (Z.to_nat (selectedPartIndex (draggingState st)))
              (RectPart x y w h))) /\
    w = (if Qltb w0 m then m else w0) /\
    h = (if Qltb h0 m then m else h0) /\
    m <= w /\ m <= h /\
    (movesLeftEdge mode = false -> x = ox) /\
    (movesTopEdge mode = false -> y = oy) /\
    (movesLeftEdge mode = true -> x + w == ox + ow) /\
    (movesTopEdge mode = true -> y + h == oy + oh).
Proof.
  intros Hdrag Hmode Hhandle Hsel Hfind Hpart m w0 h0.
  destruct (resizeRect_rule (originalImage st) (zoom st) mode pos ox oy ow oh Hhandle)
    as (x & y & w & h & Hres & Hrest).
  unfold onMouseMove, dragUpdater. rewrite Hdrag, Hmode, Hsel, Hfind, Hpart, Hres.
  destruct mode; try discriminate;
    (eexists; exists x, y, w, h; split; [reflexivity|]; split; [reflexivity|];
     exact Hrest).
Qed.

Lemma resize_keeps_minimum_and_opposite_edges_witness :
  exists st' x y w h,
    onMouseMove (Some (mkPoint 495 300)) resizeEditor = Some st' /\
    regions st' = [mkRegion 1 [RectPart x y w h]] /\
    12 / 1 <= w /\ x + w == 300 + 200.
Proof.
  destruct (resize_keeps_minimum_and_opposite_edges resizeEditor (mkPoint 495 300)
              DW squareA squareA 0 300 200 200 200)
    as (st' & x & y & w & h & Hrun & Hregs & _ & _ & Hw & _ & _ & _ & Hright & _);
    try reflexivity.
  exists st', x, y, w, h. split; [exact Hrun|]. split; [exact Hregs|].
  split; [exact Hw|]. apply Hright. reflexivity.
Defined.

(** ** Image bounds *)

Lemma clamp_bounds (limit v : Q) :
  0 <= limit -> 0 <= clamp (Some limit) v <= limit.
Proof.
  intros Hl. unfold clamp.
  destruct (Q.max_spec 0 (Qmin v limit)) as [[H1 H2]|[H1 H2]];
    destruct (Q.min_spec v limit) as [[H3 H4]|[H3 H4]];
    rewrite H2 in *; rewrite ?H4 in *; split; lra.
Qed.

(** A body drag that is applied leaves every part inside the image. *)
Lemma body_drag_in_bounds (im : Image) (dx dy : Q) (ps : list Part) :
  partsCanMove (Some im) dx dy ps = Some true ->
  Forall (partInBounds (naturalWidth im) (naturalHeight im)) (map (movePart dx dy) ps).
Proof.
  intros Hmove.
  destruct (partsCanMove_spec im dx dy ps) as [b [Hb Hiff]].
  rewrite Hmove in Hb. injection Hb as <-.
  apply List.Forall_forall. intros part' Hin. apply in_map_iff in Hin.
  destruct Hin as [part [<- Hin]].
  assert (Hstay : ~ partWouldLeave (naturalWidth im) (naturalHeight im) dx dy part).
  { intros Hl. assert (true = false) by (apply Hiff; eauto). discriminate. }
  destruct part as [x y w h|points]; simpl in *.
  - repeat split; lra.
  - apply List.Forall_forall. intros p' Hp'. apply in_map_iff in Hp'.
    destruct Hp' as [p [<- Hp]]. unfold pointInBounds, movePoint. simpl.
    assert (Hp_stay : ~ (px p + dx < 0 \/ py p + dy < 0 \/
                         px p + dx > naturalWidth im \/ py p + dy > naturalHeight im)).
    { intros Hout. apply Hstay. eauto. }
    repeat split; lra.
Qed.

(** A vertex drag puts the vertex inside the image. *)
Lemma vertex_drag_in_bounds (im : Image) (pos : Point) :
  0 <= naturalWidth im -> 0 <= naturalHeight im ->
  pointInBounds (naturalWidth im) (naturalHeight im)
    (mkPoint (clampX (Some im) (px pos)) (clampY (Some im) (py pos))).
Proof.
  intros HW HH. unfold pointInBounds, clampX, clampY. simpl.
  pose proof (clamp_bounds (naturalWidth im) (px pos) HW).
  pose proof (clamp_bounds (naturalHeight im) (py pos) HH).
  tauto.
Qed.

(** A resize leaves a rectangle inside the image when the rectangle was
    inside it and at least [HANDLE_SIZE / zoom] wide and high. *)
Lemma resize_in_bounds (im : Image) (z : Q) (mode : DragMode) (pos : Point)
    (ox oy ow oh : Q) :
  0 <= naturalWidth im -> 0 <= naturalHeight im ->
  partInBounds (naturalWidth im) (naturalHeight im) (RectPart ox oy ow oh) ->
  HANDLE_SIZE / z <= ow -> HANDLE_SIZE / z <= oh ->
  partInBounds (naturalWidth im) (naturalHeight im)
    (resizeRect (Some im) z mode pos ox oy ow oh).
Proof.
  intros HW HH Hin Hw Hh. unfold resizeRect, clampX, clampY. simpl option_map.
  pose proof (clamp_bounds (naturalWidth im) (px pos) HW) as Hcx.
  pose proof (clamp_bounds (naturalHeight im) (py pos) HH) as Hcy.
  revert Hcx Hcy Hw Hh.
  generalize (clamp (Some (naturalWidth im)) (px pos))
             (clamp (Some (naturalHeight im)) (py pos)) (HANDLE_SIZE / z).
  intros cx cy m Hcx Hcy Hw Hh. simpl in Hin.
  destruct mode; cbn -[Qltb Qplus Qminus];
    match goal with
    | |- context [Qltb ?a m] => destruct (Qltb a m) eqn:Ew
    end;
    match goal with
    | |- context [Qltb ?a m] => destruct (Qltb a m) eqn:Eh
    end;
    qprop; simpl; repeat split; lra.
Qed.

(** A new region lies inside the image. *)
Lemma addRegion_in_bounds (now : Z) (st : Editor) (im : Image) :
  originalImage st = Some im ->
  0 <= naturalWidth im -> 0 <= naturalHeight im ->
  exists x y side,
    regions (addRegion now st) = regions st ++ [mkRegion now [RectPart x y side side]] /\
    side == Qmin (naturalWidth im) (naturalHeight im) * (25 # 100) /\
    x + side / 2 == naturalWidth im / 2 /\
    y + side / 2 == naturalHeight im / 2 /\
    partInBounds (naturalWidth im) (naturalHeight im) (RectPart x y side side).
Proof.
  intros Himg HW HH. unfold addRegion. rewrite Himg.
  do 3 eexists. split; [reflexivity|].
  set (side := Qmin (naturalWidth im) (naturalHeight im) * 0.25).
  assert (Hside : side == Qmin (naturalWidth im) (naturalHeight im) * (25 # 100))
    by reflexivity.
  split; [exact Hside|].
  assert (Hle : 0 <= side /\ side <= naturalWidth im /\ side <= naturalHeight im).
  { rewrite Hside.
    destruct (Q.min_spec (naturalWidth im) (naturalHeight im)) as [[H1 H2]|[H1 H2]];
      rewrite H2; repeat split; lra. }
  assert (Hhalf : / 2 == 1 # 2) by reflexivity.
  simpl. unfold Qdiv. rewrite !Hhalf. repeat split; lra.
Qed.

(** C7.  In the session [borderSession] on an 800 x 600 image, the region
    lies inside the image after the first ten events, the last of which is
    a press on the south-east handle of its 12-wide rectangle at zoom 1/2;
    the pointer-move sample that follows widens the rectangle to the
    minimum of 24, and its right edge leaves the image. *)
Theorem resize_below_minimum_leaves_image :
  exists st10 st11 r10 r11,
    run (firstn 10 borderSession) initialEditor = Some st10 /\
    regions st10 = [r10] /\
    regionInBounds 800 600 r10 /\
    dragMode (draggingState st10) = Some DSE /\
    handle (MouseMove (Some (mkPoint 794 380))) st10 = Some st11 /\
    run borderSession initialEditor = Some st11 /\
    regions st11 = [r11] /\
    ~ regionInBounds 800 600 r11.
Proof.
  do 4 eexists.
  split; [vm_compute; reflexivity|]. split; [reflexivity|].
  split.
  { constructor; [|constructor]. simpl.
    repeat split; apply Qle_bool_iff; vm_compute; reflexivity. }
  split; [reflexivity|].
  split; [vm_compute; reflexivity|].
  split; [vm_compute; reflexivity|].
  split; [reflexivity|].
  intros Hin. inversion Hin as [|part rest Hpart _]; subst.
  simpl in Hpart. destruct Hpart as (_ & _ & Hright & _).
  revert Hright. apply Qlt_not_le. reflexivity.
Qed.

(** ** Vertex deletion *)

Lemma splice_remove_cons {A : Type} (a : A) (l : list A) (i : nat) :
  splice_remove (a :: l) (S i) = a :: splice_remove l i.
Proof. reflexivity. Qed.

Lemma splice_remove_at (l : list Point) (i : nat) :
  (i < length l)%nat -> removedAt i l (splice_remove l i).
Proof.
  revert l; induction i as [|i IH]; intros [|a t] Hlen; simpl in Hlen; try lia.
  - unfold removedAt, splice_remove. simpl. repeat split; auto. intros k Hk. lia.
  - rewrite splice_remove_cons.
    destruct (IH t ltac:(lia)) as [H1 [H2 H3]].
    unfold removedAt. simpl. repeat split; auto.
    + intros [|k] Hk; [reflexivity|]. simpl. apply H2. lia.
    + intros [|k] Hk; [lia|]. simpl. apply H3. lia.
Qed.

Lemma splice_remove_length {A : Type} (l : list A) (i : nat) :
  (length l - 1 <= length (splice_remove l i))%nat.
Proof.
  unfold splice_remove. rewrite List.length_app, List.length_firstn, List.length_skipn. lia.
Qed.

Lemma deleteVertex_polyOk (part : Part) (vertexIndex : Z) :
  polyOk part -> polyOk (deleteVertex part vertexIndex).
Proof.
  destruct part as [x y w h|points]; simpl; [auto|]. intros Hok.
  destruct (Nat.ltb_spec 3 (length points)) as [Hgt|Hle]; simpl; [|exact Hok].
  pose proof (splice_remove_length points (Z.to_nat vertexIndex)). lia.
Qed.

(** ** Rasteriser *)

Lemma boxOf_point (b : Box) (pts : list Point) (p : Point) :
  boxOf b pts -> boxOf (boxPoint b p) (pts ++ [p]).
Proof.
  intros [[-> ->]|[Hne (x0 & y0 & x1 & y1 & -> & Hbound & Hx0 & Hx1 & Hy0 & Hy1)]];
    right; (split; [intros E; apply app_eq_nil in E; destruct E; discriminate|]).
  - exists (px p), (py p), (px p), (py p). simpl.
    split; [reflexivity|]. split.
    + intros q [<-|[]]. repeat split; apply Qle_refl.
    + repeat split; exists p; (split; [now left|reflexivity]).
  - unfold boxPoint. simpl. do 4 eexists. split; [reflexivity|].
    pose proof (Q.le_min_l x0 (px p)). pose proof (Q.le_min_r x0 (px p)).
    pose proof (Q.le_min_l y0 (py p)). pose proof (Q.le_min_r y0 (py p)).
    pose proof (Q.le_max_l x1 (px p)). pose proof (Q.le_max_r x1 (px p)).
    pose proof (Q.le_max_l y1 (py p)). pose proof (Q.le_max_r y1 (py p)).
    split.
    + intros q Hq. apply in_app_iff in Hq. destruct Hq as [Hq|[<-|[]]].
      * specialize (Hbound q Hq). repeat split; lra.
      * repeat split; assumption.
    + assert (Hlast : In p (pts ++ [p])) by (apply in_app_iff; right; now left).
      repeat split.
      * destruct (Q.min_spec x0 (px p)) as [[_ E]|[_ E]].
        -- destruct Hx0 as [q [Hq Eq]]. exists q. split; [apply in_app_iff; now left|].
           now rewrite E.
        -- exists p. split; [exact Hlast|]. now rewrite E.
      * destruct (Q.max_spec x1 (px p)) as [[_ E]|[_ E]].
        -- exists p. split; [exact Hlast|]. now rewrite E.
        -- destruct Hx1 as [q [Hq Eq]]. exists q. split; [apply in_app_iff; now left|].
           now rewrite E.
      * destruct (Q.min_spec y0 (py p)) as [[_ E]|[_ E]].
        -- destruct Hy0 as [q [Hq Eq]]. exists q. split; [apply in_app_iff; now left|].
           now rewrite E.
        -- exists p. split; [exact Hlast|]. now rewrite E.
      * destruct (Q.max_spec y1 (py p)) as [[_ E]|[_ E]].
        -- exists p. split; [exact Hlast|]. now rewrite E.
        -- destruct Hy1 as [q [Hq Eq]]. exists q. split; [apply in_app_iff; now left|].
           now rewrite E.
Qed.

Lemma boxOf_points (ps : list Point) (b : Box) (pts : list Point) :
  boxOf b pts -> boxOf (fold_left boxPoint ps b) (pts ++ ps).
Proof.
  revert b pts; induction ps as [|p t IH]; intros b pts Hb; simpl.
  - now rewrite app_nil_r.
  - replace (pts ++ p :: t) with ((pts ++ [p]) ++ t) by now rewrite <- app_assoc.
    apply IH, boxOf_point, Hb.
Qed.

Lemma boxOf_rect (b : Box) (pts : list Point) (x y w h : Q) :
  0 <= w -> 0 <= h ->
  boxOf b pts ->
  boxOf (boxPart b (RectPart x y w h)) (pts ++ cornerPoints (RectPart x y w h)).
Proof.
  intros Hw Hh Hb.
  assert (Hnw : In (mkPoint x y) (pts ++ cornerPoints (RectPart x y w h)))
    by (apply in_app_iff; right; simpl; auto).
  assert (Hse : In (mkPoint (x + w) (y + h)) (pts ++ cornerPoints (RectPart x y w h)))
    by (apply in_app_iff; right; simpl; auto).
  destruct Hb as [[-> ->]|[Hne (x0 & y0 & x1 & y1 & -> & Hbound & Hx0 & Hx1 & Hy0 & Hy1)]];
    right; (split; [intros E; apply app_eq_nil in E; destruct E; discriminate|]).
  - exists x, y, (x + w), (y + h). split; [reflexivity|]. split.
    + intros q [<-|[<-|[<-|[<-|[]]]]]; simpl; repeat split; lra.
    + repeat split.
      * eexists. split; [exact Hnw|reflexivity].
      * eexists. split; [exact Hse|reflexivity].
      * eexists. split; [exact Hnw|reflexivity].
      * eexists. split; [exact Hse|reflexivity].
  - simpl. do 4 eexists. split; [reflexivity|].
    pose proof (Q.le_min_l x0 x). pose proof (Q.le_min_r x0 x).
    pose proof (Q.le_min_l y0 y). pose proof (Q.le_min_r y0 y).
    pose proof (Q.le_max_l x1 (x + w)). pose proof (Q.le_max_r x1 (x + w)).
    pose proof (Q.le_max_l y1 (y + h)). pose proof (Q.le_max_r y1 (y + h)).
    split.
    + intros q Hq. apply in_app_iff in Hq.
      destruct Hq as [Hq|[<-|[<-|[<-|[<-|[]]]]]]; simpl.
      * specialize (Hbound q Hq). repeat split; lra.
      * repeat split; lra.
      * repeat split; lra.
      * repeat split; lra.
      * repeat split; lra.
    + repeat split.
      * destruct (Q.min_spec x0 x) as [[_ E]|[_ E]].
        -- destruct Hx0 as [q [Hq Eq]]. exists q. split; [apply in_app_iff; now left|].
           now rewrite E.
        -- eexists. split; [exact Hnw|]. now rewrite E.
      * destruct (Q.max_spec x1 (x + w)) as [[_ E]|[_ E]].
        -- eexists. split; [exact Hse|]. now rewrite E.
        -- destruct Hx1 as [q [Hq Eq]]. exists q. split; [apply in_app_iff; now left|].
           now rewrite E.
      * destruct (Q.min_spec y0 y) as [[_ E]|[_ E]].
        -- destruct Hy0 as [q [Hq Eq]]. exists q. split; [apply in_app_iff; now left|].
           now rewrite E.
        -- eexists. split; [exact Hnw|]. now rewrite E.
      * destruct (Q.max_spec y1 (y + h)) as [[_ E]|[_ E]].
        -- eexists. split; [exact Hse|]. now rewrite E.
        -- destruct Hy1 as [q [Hq Eq]]. exists q. split; [apply in_app_iff; now left|].
           now rewrite E.
Qed.

Lemma boxOf_parts (ps : list Part) (b : Box) (pts : list Point) :
  (forall x y w h, In (RectPart x y w h) ps -> 0 <= w /\ 0 <= h) ->
  boxOf b pts ->
  boxOf (fold_left boxPart ps b) (pts ++ flat_map cornerPoints ps).
Proof.
  revert b pts; induction ps as [|part t IH]; intros b pts Hrects Hb; simpl.
  - now rewrite app_nil_r.
  - rewrite app_assoc. apply IH; [intros; eapply Hrects; right; eauto|].
    destruct part as [x y w h|points].
    + destruct (Hrects x y w h) as [Hw Hh]; [now left|]. now apply boxOf_rect.
    + simpl. now apply boxOf_points.
Qed.

(** The box the rasteriser computes is the bounding box of the corners and
    vertices of the region. *)
Lemma boundingBox_corners (r : Region) :
  rectsOk r -> boxOf (boundingBox r) (allCorners r).
Proof.
  intros Hrects. unfold boundingBox, allCorners.
  apply (boxOf_parts (parts r) emptyBox []); [exact Hrects|].
  left. auto.
Qed.

(** A region gets an artifact exactly when two of its corners or vertices
    differ in [x] and two differ in [y]. *)
Lemma hasPositiveBox_corners (r : Region) :
  rectsOk r ->
  (hasPositiveBox r = true <->
   (exists p q, In p (allCorners r) /\ In q (allCorners r) /\ px p < px q) /\
   (exists p q, In p (allCorners r) /\ In q (allCorners r) /\ py p < py q)).
Proof.
  intros Hrects. unfold hasPositiveBox, boxWidth, boxHeight.
  destruct (boundingBox_corners r Hrects)
    as [[Hnil ->]|[Hne (x0 & y0 & x1 & y1 & -> & Hbound & Hx0 & Hx1 & Hy0 & Hy1)]].
  - simpl. split; [discriminate|]. rewrite Hnil. intros [[p [q [Hp _]]] _]. destruct Hp.
  - simpl. rewrite negb_true_iff, orb_false_iff, !Qleb_gt. split.
    + intros [Hw Hh].
      destruct Hx0 as [p0 [Hp0 E0]], Hx1 as [p1 [Hp1 E1]],
               Hy0 as [q0 [Hq0 F0]], Hy1 as [q1 [Hq1 F1]].
      split; [exists p0, p1|exists q0, q1]; repeat split; auto; lra.
    + intros [[p [q [Hp [Hq Hlt]]]] [p' [q' [Hp' [Hq' Hlt']]]]].
      pose proof (Hbound p Hp). pose proof (Hbound q Hq).
      pose proof (Hbound p' Hp'). pose proof (Hbound q' Hq').
      split; lra.
Qed.

Lemma rasterizeFrom_artifacts (cv : Canvas) (now : nat -> Z) (img : Image) (baseName : string)
    (rs : list Region) (index : nat) (results : list ProcessedImage) :
  rasterizeFrom cv now img baseName index rs results =
    results ++ map (artifactOf cv now img baseName)
                 (List.filter (fun ir => drawable cv (snd ir)) (indexedFrom index rs)).
Proof.
  revert index results.
  induction rs as [|r t IH]; intros index results; simpl.
  - now rewrite app_nil_r.
  - rewrite IH. unfold rasterizeRegion, drawable, hasPositiveBox.
    destruct (xle0 (boxWidth (boundingBox r)) || xle0 (boxHeight (boundingBox r)));
      simpl; [reflexivity|].
    destruct (getContext cv _ _); simpl; [|reflexivity].
    rewrite <- app_assoc. reflexivity.
Qed.

Lemma string_length_append (a b : string) :
  String.length (a ++ b) = (String.length a + String.length b)%nat.
Proof. induction a as [|c a IH]; simpl; [reflexivity|]. now rewrite IH. Qed.

Lemma string_append_inv_head (s a b : string) : (s ++ a = s ++ b)%string -> a = b.
Proof. induction s as [|c s IH]; simpl; intros E; [exact E|]. injection E as E. auto. Qed.

Lemma string_append_inv_tail (a b c : string) : (a ++ c = b ++ c)%string -> a = b.
Proof.
  revert b; induction a as [|x a IH]; intros [|y b] E; simpl in E.
  - reflexivity.
  - apply (f_equal String.length) in E.
    rewrite !string_length_append in E. simpl in E. lia.
  - apply (f_equal String.length) in E.
    rewrite !string_length_append in E. simpl in E. lia.
  - injection E as -> E. f_equal. auto.
Qed.

Lemma decimal_inj (a b : nat) : decimal a = decimal b -> a = b.
Proof.
  unfold decimal. intros E.
  apply (f_equal DecimalString.NilEmpty.uint_of_string) in E.
  rewrite !DecimalString.NilEmpty.usu in E. injection E as E.
  apply (f_equal Nat.of_uint) in E.
  now rewrite !DecimalNat.Unsigned.of_to in E.
Qed.

(** Two regions of a run never share an artifact name. *)
Lemma artifactName_inj (baseName : string) (i j : nat) :
  artifactName baseName i = artifactName baseName j -> i = j.
Proof.
  unfold artifactName. intros E.
  apply string_append_inv_head, string_append_inv_head, string_append_inv_tail in E.
  apply decimal_inj in E. lia.
Qed.

Lemma indexedFrom_above (p : Region -> bool) (rs : list Region) (k j : nat) :
  (j < k)%nat ->
  List.filter (fun ir => (fst ir =? j)%nat && p (snd ir)) (indexedFrom k rs) = [].
Proof.
  revert k; induction rs as [|r t IH]; intros k Hjk; simpl; [reflexivity|].
  destruct (Nat.eqb_spec k j); [lia|]. simpl. apply IH. lia.
Qed.

Lemma indexedFrom_at (p : Region -> bool) (rs : list Region) (k i : nat) (r : Region) :
  nth_error rs i = Some r ->
  List.filter (fun ir => (fst ir =? k + i)%nat && p (snd ir)) (indexedFrom k rs) =
    if p r then [((k + i)%nat, r)] else [].
Proof.
  revert k i; induction rs as [|a t IH]; intros k [|i] Hnth; simpl in *; try discriminate.
  - injection Hnth as ->. rewrite Nat.add_0_r, Nat.eqb_refl. simpl.
    rewrite indexedFrom_above by lia. reflexivity.
  - destruct (Nat.eqb_spec k (k + S i)); [lia|]. simpl.
    replace (k + S i)%nat with (S k + i)%nat by lia. apply IH. exact Hnth.
Qed.

Lemma filter_map_artifacts (cv : Canvas) (now : nat -> Z) (img : Image) (baseName : string)
    (i : nat) (l : list (nat * Region)) :
  List.filter (fun a => (img_name a =? artifactName baseName i)%string)
              (map (artifactOf cv now img baseName) l) =
  map (artifactOf cv now img baseName) (List.filter (fun ir => (fst ir =? i)%nat) l).
Proof.
  induction l as [|[j r] t IH]; simpl; [reflexivity|].
  fold (artifactName baseName j).
  destruct (String.eqb_spec (artifactName baseName j) (artifactName baseName i)) as [E|E].
  - apply artifactName_inj in E. subst j. rewrite Nat.eqb_refl. simpl. now rewrite IH.
  - destruct (Nat.eqb_spec j i) as [->|_]; [contradiction|]. exact IH.
Qed.

Lemma filter_filter {A : Type} (f g : A -> bool) (l : list A) :
  List.filter f (List.filter g l) = List.filter (fun a => f a && g a) l.
Proof.
  induction l as [|a t IH]; simpl; [reflexivity|].
  destruct (g a); simpl; [destruct (f a); simpl; now rewrite IH|].
  rewrite andb_false_r. exact IH.
Qed.

(** C9 (amended).  A run is started by the Process button, which is
    enabled only with an image loaded and at least one region.  For such a
    run over a collection whose polygons have at least three points, the
    processed images after the run are exactly the artifacts of the
    drawable regions, in region order, whatever the previous list was.  A
    region is drawable when its bounding box has positive width and height
    and the browser hands out a 2d context for a canvas of that size; the
    box is the bounding box of the rectangle corners and polygon vertices
    of the region (rectangles having a width and a height that are not
    negative).  Among the artifacts, the name [{base}_region_{i+1}.png] is
    carried by one artifact, the one of the region at index [i], when that
    region is drawable, and by none when it is not. *)
Theorem process_regions_replaces_artifacts (cv : Canvas) (now : nat -> Z) (st : Editor) :
  isProcessDisabled st = false ->
  regionsOk (regions st) ->
  exists img,
    originalImage st = Some img /\
    let base := baseNameOf (originalFileName st) in
    processedImages (processRegions cv now st) =
      drawnArtifactsOf cv now img base (regions st) /\
    (forall previous,
       processedImages (processRegions cv now (setProcessedImages previous st)) =
       processedImages (processRegions cv now st)) /\
    (forall i r, nth_error (regions st) i = Some r ->
       List.filter (fun a => (img_name a =? base ++ "_region_" ++ decimal (i + 1) ++ ".png")%string)
                   (processedImages (processRegions cv now st)) =
       if drawable cv r then [artifactOf cv now img base (i, r)] else []) /\
    (forall r, drawable cv r = true <->
       hasPositiveBox r = true /\
       getContext cv (boxWidth (boundingBox r)) (boxHeight (boundingBox r)) = true) /\
    (forall r, rectsOk r ->
       boxOf (boundingBox r) (allCorners r) /\
       (hasPositiveBox r = true <->
        (exists p q, In p (allCorners r) /\ In q (allCorners r) /\ px p < px q) /\
        (exists p q, In p (allCorners r) /\ In q (allCorners r) /\ py p < py q))).
Proof.
  intros Henabled _. unfold isProcessDisabled, isActionDisabled in Henabled.
  apply orb_false_iff in Henabled. destruct Henabled as [Hlen Himg].
  destruct (originalImage st) as [img|] eqn:Eimg; [clear Himg|discriminate Himg].
  assert (Hregs : regions st <> []).
  { intros E. rewrite E in Hlen. discriminate Hlen. }
  exists img. split; [reflexivity|]. intros base.
  assert (Hrun : forall previous,
            processedImages (processRegions cv now (setProcessedImages previous st)) =
            drawnArtifactsOf cv now img base (regions st)).
  { intros previous. unfold processRegions. cbn [originalImage regions setProcessedImages].
    rewrite Eimg. destruct (regions st) as [|r t] eqn:E; [contradiction|].
    cbn [length Nat.eqb processedImages setProcessedImages originalFileName].
    rewrite rasterizeFrom_artifacts. reflexivity. }
  assert (Hnow : processedImages (processRegions cv now st) =
                 drawnArtifactsOf cv now img base (regions st)).
  { unfold processRegions. rewrite Eimg.
    destruct (regions st) as [|r t] eqn:E; [contradiction|].
    cbn [length Nat.eqb processedImages setProcessedImages].
    rewrite rasterizeFrom_artifacts. reflexivity. }
  split; [exact Hnow|]. split; [|split; [|split]].
  - intros previous. rewrite Hrun, Hnow. reflexivity.
  - intros i r Hnth. rewrite Hnow. unfold drawnArtifactsOf.
    fold (artifactName base i).
    rewrite filter_map_artifacts, filter_filter.
    pose proof (indexedFrom_at (drawable cv) (regions st) 0 i r Hnth) as Hat.
    cbn [Nat.add] in Hat. rewrite Hat.
    destruct (drawable cv r); reflexivity.
  - intros r. unfold drawable. apply andb_true_iff.
  - intros r Hrects. split; [now apply boundingBox_corners|].
    now apply hasPositiveBox_corners.
Qed.

Lemma run_reachable (evs : list Event) (st st' : Editor) :
  reachable st -> run evs st = Some st' -> reachable st'.
Proof.
  revert st. induction evs as [|ev rest IH]; intros st Hreach; simpl.
  - now intros [= <-].
  - destruct (handle ev st) as [st1|] eqn:Hstep; [|discriminate].
    apply IH. eapply reachable_step; eauto.
Qed.

Lemma process_regions_replaces_artifacts_witness :
  exists st,
    run oneRegionSession initialEditor = Some st /\
    map img_name (processedImages (processRegions sampleCanvas (fun _ => 1000%Z) st)) =
      ["photo_region_1.png"].
Proof.
  eexists. split; [vm_compute; reflexivity|].
  match goal with
  | |- map img_name (processedImages (processRegions _ _ ?s)) = _ =>
      destruct (process_regions_replaces_artifacts sampleCanvas (fun _ => 1000%Z) s)
        as (img & Himg & Hlist & _)
  end.
  - reflexivity.
  - repeat constructor.
  - rewrite Hlist. injection Himg as <-. vm_compute. reflexivity.
Defined.

(** C9 as stated fails, also in the states the editor can reach: after
    the session [oneRegionSession] the collection has one region, with a
    box of 150 x 150, and a run in a browser that hands out no 2d context
    makes no artifact for it. *)
Lemma run_without_context_counterexample :
  ~ (forall (cv : Canvas) (now : nat -> Z) (st : Editor) (img : Image),
       reachable st ->
       isProcessDisabled st = false ->
       originalImage st = Some img ->
       processedImages (processRegions cv now st) =
         artifactsOf cv now img (baseNameOf (originalFileName st)) (regions st)).
Proof.
  intros Hclaim.
  assert (Hrun : exists st,
            run oneRegionSession initialEditor = Some st /\
            isProcessDisabled st = false /\
            originalImage st = Some sampleImage /\
            processedImages (processRegions noContextCanvas (fun _ => 1000%Z) st) = [] /\
            length (artifactsOf noContextCanvas (fun _ => 1000%Z) sampleImage
                      (baseNameOf (originalFileName st)) (regions st)) = 1%nat).
  { eexists. split; [vm_compute; reflexivity|]. repeat split. }
  destruct Hrun as (st & Hrun & Henabled & Himg & Hnone & Hone).
  specialize (Hclaim noContextCanvas (fun _ => 1000%Z) st sampleImage
                (run_reachable _ _ _ reachable_initial Hrun) Henabled Himg).
  rewrite Hnone in Hclaim. rewrite <- Hclaim in Hone. discriminate Hone.
Qed.

(** ** Polygons keep at least three points *)

Lemma regionsOk_update (rs : list Region) (k : nat) (i : Z) (ps : list Part) :
  regionsOk rs -> Forall polyOk ps -> regionsOk (set_nth rs k (mkRegion i ps)).
Proof. intros Hrs Hps. apply set_nth_Forall; assumption. Qed.

Lemma regionsOk_nth (rs : list Region) (k : nat) (r : Region) :
  regionsOk rs -> nth_error rs k = Some r -> Forall polyOk (parts r).
Proof.
  intros Hrs Hnth. unfold regionsOk in Hrs. rewrite List.Forall_forall in Hrs.
  apply Hrs. eapply nth_error_In; eauto.
Qed.

Lemma polyOk_nth (ps : list Part) (k : nat) (part : Part) :
  Forall polyOk ps -> nth_error ps k = Some part -> polyOk part.
Proof.
  intros Hps Hnth. rewrite List.Forall_forall in Hps.
  apply Hps. eapply nth_error_In; eauto.
Qed.

Lemma regionsOk_filter (f : Region -> bool) (rs : list Region) :
  regionsOk rs -> regionsOk (List.filter f rs).
Proof.
  unfold regionsOk. rewrite !List.Forall_forall. intros Hrs r Hin.
  apply filter_In in Hin. apply Hrs, Hin.
Qed.

Lemma splice_insert_length {A : Type} (l : list A) (i : nat) (p : A) :
  length (splice_insert l i p) = S (length l).
Proof.
  unfold splice_insert. rewrite List.length_app. simpl.
  rewrite <- (firstn_skipn i l) at 3. rewrite List.length_app. lia.
Qed.

Lemma insertVertex_polyOk (part : Part) (segmentIndex : Z) (p : Point) :
  polyOk part -> polyOk (insertVertex part segmentIndex p).
Proof.
  destruct part as [x y w h|points]; unfold insertVertex, polyOk;
    rewrite splice_insert_length; simpl; lia.
Qed.

Lemma movePart_polyOk (dx dy : Q) (part : Part) :
  polyOk part -> polyOk (movePart dx dy part).
Proof.
  destruct part as [x y w h|points]; simpl; [auto|]. now rewrite length_map.
Qed.

Lemma resizeRect_polyOk (img : option Image) (z : Q) (mode : DragMode) (pos : Point)
    (ox oy ow oh : Q) :
  polyOk (resizeRect img z mode pos ox oy ow oh).
Proof.
  unfold resizeRect.
  repeat match goal with
  | |- context [let '(_, _) := ?e in _] => destruct e
  end.
  exact I.
Qed.

Lemma hitRegions_In (st : Editor) (h2 : Q) (pos : Point) (l : list Region) (r : Region) :
  hit_region (hitRegions st h2 pos l) = Some r -> In r l.
Proof.
  induction l as [|a t IH]; simpl; [discriminate|].
  destruct (hitParts st h2 pos a 0 (parts a)) as [h|] eqn:E.
  - rewrite (hitParts_region _ _ _ _ _ _ _ E). intros H; injection H as <-. now left.
  - intros H. right. auto.
Qed.

Lemma getHitRegion_In (st : Editor) (pos : Point) (r : Region) :
  hit_region (getHitRegion st pos) = Some r -> In r (regions st).
Proof.
  unfold getHitRegion. intros H. apply hitRegions_In in H.
  now apply List.in_rev.
Qed.

Lemma addPointUpdater_regionsOk (i pi si : Z) (p : Point) (rs rs' : list Region) :
  regionsOk rs -> addPointUpdater i pi si p rs = Some rs' -> regionsOk rs'.
Proof.
  intros Hrs. unfold addPointUpdater.
  destruct (findRegion i rs) as [[k r]|] eqn:Hfind; [|now intros [= <-]].
  destruct (findRegion_Some _ _ _ _ Hfind) as [Hk _].
  destruct (nthZ (parts r) pi) as [part|] eqn:Hpart; [|discriminate].
  destruct (nthZ_Some _ _ _ Hpart) as [_ Hp].
  intros [= <-]. pose proof (regionsOk_nth _ _ _ Hrs Hk) as Hr.
  apply regionsOk_update; [exact Hrs|].
  apply set_nth_Forall; [exact Hr|].
  apply insertVertex_polyOk. eapply polyOk_nth; eauto.
Qed.

Lemma deletePointUpdater_regionsOk (i pi vi : Z) (rs rs' : list Region) :
  regionsOk rs -> deletePointUpdater i pi vi rs = Some rs' -> regionsOk rs'.
Proof.
  intros Hrs. unfold deletePointUpdater.
  destruct (findRegion i rs) as [[k r]|] eqn:Hfind; [|now intros [= <-]].
  destruct (findRegion_Some _ _ _ _ Hfind) as [Hk _].
  destruct (nthZ (parts r) pi) as [part|] eqn:Hpart; [|discriminate].
  destruct (nthZ_Some _ _ _ Hpart) as [_ Hp].
  intros [= <-]. pose proof (regionsOk_nth _ _ _ Hrs Hk) as Hr.
  apply regionsOk_update; [exact Hrs|].
  apply set_nth_Forall; [exact Hr|].
  apply deleteVertex_polyOk. eapply polyOk_nth; eauto.
Qed.

Lemma dragUpdater_regionsOk (img : option Image) (z : Q) (mode : DragMode) (pos : Point)
    (d : DraggingState) (rs rs' : list Region) (offset : Point) :
  regionsOk rs -> dragUpdater img z mode pos d rs = Some (rs', offset) -> regionsOk rs'.
Proof.
  intros Hrs. unfold dragUpdater.
  destruct (selectedRegion d) as [sel|]; [|now intros [= <- _]].
  destruct (findRegion (id sel) rs) as [[k r]|] eqn:Hfind; [|now intros [= <- _]].
  destruct (findRegion_Some _ _ _ _ Hfind) as [Hk _].
  pose proof (regionsOk_nth _ _ _ Hrs Hk) as Hr.
  assert (Hmoved : forall dx dy, Forall polyOk (map (movePart dx dy) (parts r))).
  { intros dx dy. apply List.Forall_forall. intros part' Hin.
    apply in_map_iff in Hin. destruct Hin as [part [<- Hin]].
    apply movePart_polyOk. rewrite List.Forall_forall in Hr. auto. }
  assert (Hother :
    match nthZ (parts r) (selectedPartIndex d) with
    | None => None
    | Some (PolyPart points) =>
        match mode with
        | DVertex =>
            if negb (selectedVertexIndex d =? -1)%Z then
              match nthZ points (selectedVertexIndex d) with
              | None => None
              | Some _ =>
                  Some (set_nth rs k
                          (mkRegion (id r)
                             (set_nth (parts r) (Z.to_nat (selectedPartIndex d))
                                (PolyPart (set_nth points (Z.to_nat (selectedVertexIndex d))
                                             (mkPoint (clampX img (px pos))
                                                      (clampY img (py pos))))))),
                        mouseOffset d)
              end
            else Some (set_nth rs k (mkRegion (id r) (parts r)), mouseOffset d)
        | _ => Some (set_nth rs k (mkRegion (id r) (parts r)), mouseOffset d)
        end
    | Some (RectPart x y w h) =>
        Some (set_nth rs k
                (mkRegion (id r)
                   (set_nth (parts r) (Z.to_nat (selectedPartIndex d))
                      (resizeRect img z mode pos x y w h))),
              mouseOffset d)
    end = Some (rs', offset) -> regionsOk rs').
  { destruct (nthZ (parts r) (selectedPartIndex d)) as [[x y w h|points]|] eqn:Hpart;
      [| |discriminate].
    - intros [= <- _]. apply regionsOk_update; [exact Hrs|].
      apply set_nth_Forall; [exact Hr|]. apply resizeRect_polyOk.
    - destruct (nthZ_Some _ _ _ Hpart) as [_ Hp].
      pose proof (polyOk_nth _ _ _ Hr Hp) as Hpoly. simpl in Hpoly.
      assert (Hsame : regionsOk (set_nth rs k (mkRegion (id r) (parts r))))
        by (apply regionsOk_update; assumption).
      destruct mode; try (intros [= <- _]; exact Hsame).
      destruct (negb (selectedVertexIndex d =? -1)%Z); [|intros [= <- _]; exact Hsame].
      destruct (nthZ points (selectedVertexIndex d)); [|discriminate].
      intros [= <- _]. apply regionsOk_update; [exact Hrs|].
      apply set_nth_Forall; [exact Hr|]. simpl. now rewrite set_nth_length. }
  destruct mode; try exact Hother.
  destruct (partsCanMove img _ _ (parts r)) as [[|]|]; [| |discriminate];
    intros [= <- _]; apply regionsOk_update; auto.
Qed.

Lemma addPointToPolygon_regionsOk (pos : option Point) (st st' : Editor) :
  regionsOk (regions st) -> addPointToPolygon pos st = Some st' -> regionsOk (regions st').
Proof.
  intros Hrs. unfold addPointToPolygon. destruct pos as [p|]; [|now intros [= <-]].
  destruct (cl_region _) as [region|]; [|now intros [= <-]].
  destruct (cl_point _) as [newPoint|]; [|now intros [= <-]].
  destruct (negb _ && negb _); [|now intros [= <-]].
  destruct (addPointUpdater _ _ _ _ _) as [rs|] eqn:E; [|discriminate].
  intros [= <-]. eapply addPointUpdater_regionsOk; eauto.
Qed.

Lemma onMouseDown_regionsOk (button : Z) (pos : option Point) (st st' : Editor) :
  regionsOk (regions st) -> onMouseDown button pos st = Some st' -> regionsOk (regions st').
Proof.
  intros Hrs. unfold onMouseDown.
  destruct (negb (button =? 0)%Z); [now intros [= <-]|].
  destruct pos as [p|]; [|now intros [= <-]].
  destruct (isDeleteRegionMode st).
  { destruct (hit_region (getHitRegion st p)) as [r|]; [|now intros [= <-]].
    destruct (isBody _); intros [= <-]; [|exact Hrs].
    now apply regionsOk_filter. }
  destruct (isWaitingForPointClick st).
  { now apply addPointToPolygon_regionsOk. }
  destruct (isDeletePointMode st).
  { destruct (hit_region (getHitRegion st p)) as [r|]; [|now intros [= <-]].
    destruct (hit_part (getHitRegion st p)) as [part|]; [|now intros [= <-]].
    destruct (isPoly part && _); [|now intros [= <-]].
    destruct (deletePointUpdater _ _ _ _) as [rs|] eqn:E; [|discriminate].
    intros [= <-]. eapply deletePointUpdater_regionsOk; eauto. }
  destruct (isSelectMode st).
  { destruct (hit_region (getHitRegion st p)) as [r|]; [|now intros [= <-]].
    destruct (isBody _); now intros [= <-]. }
  destruct (hit_region (getHitRegion st p)) as [r|] eqn:Hhit; [|now intros [= <-]].
  assert (Htop : regionsOk
            (List.filter (fun r' => negb (id r' =? id r)%Z) (regions st) ++ [r])).
  { apply Forall_app. split; [now apply regionsOk_filter|].
    constructor; [|constructor].
    apply getHitRegion_In in Hhit. unfold regionsOk in Hrs.
    rewrite List.Forall_forall in Hrs. auto. }
  destruct (0 <? size (multiSelectRegions st))%nat; intros [= <-]; exact Htop.
Qed.

Lemma onMouseMove_regionsOk (pos : option Point) (st st' : Editor) :
  regionsOk (regions st) -> onMouseMove pos st = Some st' -> regionsOk (regions st').
Proof.
  intros Hrs. unfold onMouseMove. destruct pos as [p|]; [|now intros [= <-]].
  destruct (isDragging (draggingState st));
    [destruct (dragMode (draggingState st)) as [mode|]|].
  - destruct (dragUpdater _ _ _ _ _ _) as [[rs offset]|] eqn:E; [|discriminate].
    intros [= <-]. eapply dragUpdater_regionsOk; eauto.
  - destruct (isWaitingForPointClick st); now intros [= <-].
  - destruct (isWaitingForPointClick st); now intros [= <-].
Qed.

Lemma mergeSelectedRegions_regionsOk (now : Z) (st : Editor) :
  regionsOk (regions st) -> regionsOk (regions (mergeSelectedRegions now st)).
Proof.
  intros Hrs. unfold mergeSelectedRegions.
  destruct (size (multiSelectRegions st) <? 2)%nat; [exact Hrs|].
  rewrite partitionSelected_filter. simpl.
  apply Forall_app. split; [now apply regionsOk_filter|].
  constructor; [|constructor]. simpl.
  apply List.Forall_forall. intros part Hin. apply in_flat_map in Hin.
  destruct Hin as [r [Hr Hpart]]. apply filter_In in Hr. destruct Hr as [Hr _].
  unfold regionsOk in Hrs. rewrite List.Forall_forall in Hrs.
  specialize (Hrs r Hr). rewrite List.Forall_forall in Hrs. auto.
Qed.

(** Every handler keeps the polygons of the collection at three points or
    more. *)
Lemma handle_regionsOk (ev : Event) (st st' : Editor) :
  regionsOk (regions st) -> handle ev st = Some st' -> regionsOk (regions st').
Proof.
  intros Hrs. destruct ev; simpl.
  - intros [= <-]. constructor.
  - intros [= <-]. unfold addRegion. destruct (originalImage st); [|exact Hrs].
    simpl. apply Forall_app. split; [exact Hrs|]. repeat constructor.
  - intros [= <-]. unfold toggleSelectMode.
    destruct (isWaitingForPointClick st), (isDeletePointMode st), (isDeleteRegionMode st);
      exact Hrs.
  - intros [= <-]. unfold startAddPointMode.
    destruct (isWaitingForPointClick st), (isSelectMode st), (isDeletePointMode st),
      (isDeleteRegionMode st); exact Hrs.
  - intros [= <-]. unfold toggleDeletePointMode.
    destruct (isDeletePointMode st), (isSelectMode st), (isWaitingForPointClick st),
      (isDeleteRegionMode st); exact Hrs.
  - intros [= <-]. unfold toggleDeleteRegionMode.
    destruct (isDeleteRegionMode st), (isSelectMode st), (isWaitingForPointClick st),
      (isDeletePointMode st); exact Hrs.
  - intros [= <-]. now apply mergeSelectedRegions_regionsOk.
  - intros [= <-]. unfold clearAllRegions.
    destruct (isWaitingForPointClick st), (isDeletePointMode st), (isDeleteRegionMode st);
      constructor.
  - now apply onMouseDown_regionsOk.
  - now apply onMouseMove_regionsOk.
  - intros [= <-]. unfold onMouseUp. destruct (isDragging (draggingState st)); exact Hrs.
  - intros [= <-]. exact Hrs.
  - intros [= <-]. exact Hrs.
  - intros [= <-]. unfold fitToScreen. destruct (originalImage st); exact Hrs.
  - intros [= <-]. unfold processRegions. destruct (originalImage st); [|exact Hrs].
    destruct (length (regions st) =? 0)%nat; exact Hrs.
  - intros [= <-]. exact Hrs.
  - intros [= <-]. exact Hrs.
Qed.

(** In every state the editor can reach, every polygon has at least three
    points. *)
Lemma reachable_regionsOk (st : Editor) : reachable st -> regionsOk (regions st).
Proof.
  induction 1 as [|ev st st' _ IH Hstep]; [constructor|].
  eapply handle_regionsOk; eauto.
Qed.

Lemma getHitRegion_part (st : Editor) (pos : Point) (region : Region) :
  hit_region (getHitRegion st pos) = Some region ->
  exists part,
    nthZ (parts region) (hit_partIndex (getHitRegion st pos)) = Some part /\
    hitOnPart (getHitRegion st pos) (hit_partIndex (getHitRegion st pos)) part.
Proof. unfold getHitRegion. apply hitRegions_part. Qed.

(** C8.  In a collection with distinct region ids, a delete-point click
    that resolves to a vertex of a polygon removes that vertex, the other
    points keeping their order, when the polygon has more than three
    points; on a polygon of three points (or fewer) the region collection
    is left as it was.  If every polygon had at least three points before
    the click, every polygon has at least three points after it; that is
    the case in every state the editor can reach. *)
Theorem delete_point_keeps_three_points (st : Editor) (pos : Point)
    (region : Region) (points : list Point) :
  List.NoDup (map id (regions st)) ->
  isDeleteRegionMode st = false ->
  isWaitingForPointClick st = false ->
  isDeletePointMode st = true ->
  let hit := getHitRegion st pos in
  hit_region hit = Some region ->
  hit_part hit = Some (PolyPart points) ->
  hit_vertexIndex hit <> (-1)%Z ->
  exists st' k,
    onMouseDown 0 (Some pos) st = Some st' /\
    nth_error (regions st) k = Some region /\
    nthZ (parts region) (hit_partIndex hit) = Some (PolyPart points) /\
    (0 <= hit_vertexIndex hit < Z.of_nat (length points))%Z /\
    ((length points <= 3)%nat -> regions st' = regions st) /\
    ((3 < length points)%nat ->
     exists points',
       regions st' =
         set_nth (regions st) k
           (mkRegion (id region)
              (set_nth (parts region) (Z.to_nat (hit_partIndex hit)) (PolyPart points'))) /\
       removedAt (Z.to_nat (hit_vertexIndex hit)) points points') /\
    (regionsOk (regions st) -> regionsOk (regions st')) /\
    (reachable st -> regionsOk (regions st) /\ regionsOk (regions st')).
Proof.
  intros Hnodup HdelR Hwait HdelP hit Hregion Hpart Hvi.
  pose proof (getHitRegion_In st pos region Hregion) as Hin.
  destruct (getHitRegion_part st pos region Hregion) as (part & Hnth & Hpart' & _ & Hrange).
  fold hit in Hnth, Hpart', Hrange. rewrite Hpart in Hpart'. injection Hpart' as <-.
  destruct Hrange as [Hnone|Hrange]; [contradiction|]. simpl in Hrange.
  destruct (findRegion_unique _ _ Hnodup Hin) as [k Hfind].
  destruct (findRegion_Some _ _ _ _ Hfind) as [Hk _].
  destruct (nthZ_Some _ _ _ Hnth) as [_ Hp].
  unfold onMouseDown. rewrite HdelR, Hwait, HdelP. fold hit.
  rewrite Hregion, Hpart.
  destruct (Z.eqb_spec (hit_vertexIndex hit) (-1)) as [E|_]; [contradiction|].
  cbn [Z.eqb negb isPoly andb]. unfold deletePointUpdater. rewrite Hfind, Hnth.
  cbn [option_map].
  eexists. exists k. split; [reflexivity|]. cbn [regions setRegions].
  assert (Hkeep : regionsOk (regions st) ->
            regionsOk (set_nth (regions st) k
                         (mkRegion (id region)
                            (set_nth (parts region) (Z.to_nat (hit_partIndex hit))
                               (deleteVertex (PolyPart points) (hit_vertexIndex hit)))))).
  { intros Hok. apply regionsOk_update; [exact Hok|].
    pose proof (regionsOk_nth _ _ _ Hok Hk) as Hr.
    apply set_nth_Forall; [exact Hr|].
    apply deleteVertex_polyOk. eapply polyOk_nth; eauto. }
  split; [exact Hk|]. split; [reflexivity|]. split; [exact Hrange|].
  split; [|split; [|split]].
  - intros Hle. unfold deleteVertex.
    destruct (Nat.ltb_spec 3 (length points)) as [Hgt|_]; [lia|].
    rewrite (set_nth_same _ _ _ Hp), region_eta. apply set_nth_same, Hk.
  - intros Hgt. unfold deleteVertex.
    destruct (Nat.ltb_spec 3 (length points)) as [_|Hle]; [|lia].
    eexists. split; [reflexivity|]. apply splice_remove_at. lia.
  - exact Hkeep.
  - intros Hreach. pose proof (reachable_regionsOk st Hreach) as Hok. auto.
Qed.

Lemma delete_point_keeps_three_points_witness :
  exists st',
    onMouseDown 0 (Some (mkPoint 100 100)) (deletePointEditor triangle) = Some st' /\
    regions st' = regions (deletePointEditor triangle).
Proof.
  destruct (delete_point_keeps_three_points (deletePointEditor triangle) (mkPoint 100 100)
              triangle [mkPoint 100 100; mkPoint 200 100; mkPoint 150 200])
    as (st' & k & Hrun & _ & _ & _ & Hsame & _).
  - constructor; [simpl; tauto|constructor].
  - reflexivity.
  - reflexivity.
  - reflexivity.
  - vm_compute; reflexivity.
  - vm_compute; reflexivity.
  - vm_compute; discriminate.
  - exists st'. split; [exact Hrun|]. apply Hsame. simpl. lia.
Defined.

(** * Further properties of the code *)

(** ** View transform *)

(** X1.  For a zoom factor other than 0, [getCanvasPos] inverts the view
    transform: the event at the screen position of an image point, be it a
    mouse event or a touch event, resolves to that image point; an event
    without coordinates resolves to nothing. *)
Theorem getCanvasPos_inverts_view (vt : ViewTransform) (rectLeft rectTop : Q) (p : Point) :
  ~ vzoom vt == 0 ->
  let s := screenPos rectLeft rectTop vt p in
  (exists q, getCanvasPos (mkPointerEvent (Some (px s)) (Some (py s)) None)
               rectLeft rectTop vt = Some q /\ samePoint q p) /\
  (exists q, getCanvasPos (mkPointerEvent None None (Some s))
               rectLeft rectTop vt = Some q /\ samePoint q p) /\
  getCanvasPos (mkPointerEvent None None None) rectLeft rectTop vt = None /\
  getCanvasPos (mkPointerEvent (Some (px s)) None None) rectLeft rectTop vt = None.
Proof.
  intros Hzoom s. repeat split; try reflexivity;
    (eexists; split; [reflexivity|]); unfold samePoint; simpl; split; field; exact Hzoom.
Qed.

Lemma getCanvasPos_inverts_view_witness :
  exists q, getCanvasPos (mkPointerEvent (Some 150) (Some 90) None) 10 20 (mkView 2 (mkPoint 40 30))
            = Some q /\ samePoint q (mkPoint 50 20).
Proof.
  destruct (getCanvasPos_inverts_view (mkView 2 (mkPoint 40 30)) 10 20 (mkPoint 50 20))
    as [Hmouse _].
  - discriminate.
  - exact Hmouse.
Defined.

Lemma clamped_zoom_bounds (z : Q) :
  MIN_ZOOM <= Qmax MIN_ZOOM (Qmin MAX_ZOOM z) <= MAX_ZOOM.
Proof.
  destruct (Q.max_spec MIN_ZOOM (Qmin MAX_ZOOM z)) as [[H1 H2]|[H1 H2]];
    destruct (Q.min_spec MAX_ZOOM z) as [[H3 H4]|[H3 H4]];
    rewrite H2; rewrite ?H4 in *; unfold MIN_ZOOM, MAX_ZOOM in *; split; lra.
Qed.

Lemma zoom_anchor (r m o z n : Q) :
  ~ z == 0 -> ~ n == 0 ->
  (r + m - r - (m - (m - o) * (n / z))) / n == (r + m - r - o) / z.
Proof. intros Hz Hn. field. split; assumption. Qed.

(** X2.  [handleWheel] and [zoomWithButtons] keep the zoom factor between
    [MIN_ZOOM] and [MAX_ZOOM], and zoom about a fixed point: the image point
    under the pointer (for the buttons: under the centre of the canvas) is
    the same before and after. *)
Theorem zoom_is_clamped_and_anchored (vt : ViewTransform) (rectLeft rectTop : Q) :
  0 < vzoom vt ->
  (forall mouseX mouseY deltaY,
     let e := mkPointerEvent (Some (rectLeft + mouseX)) (Some (rectTop + mouseY)) None in
     let vt' := wheelView vt mouseX mouseY deltaY in
     MIN_ZOOM <= vzoom vt' <= MAX_ZOOM /\
     exists p p', getCanvasPos e rectLeft rectTop vt = Some p /\
                  getCanvasPos e rectLeft rectTop vt' = Some p' /\ samePoint p' p) /\
  (forall canvasWidth canvasHeight factor,
     let e := mkPointerEvent (Some (rectLeft + canvasWidth / 2))
                             (Some (rectTop + canvasHeight / 2)) None in
     let vt' := buttonView vt canvasWidth canvasHeight factor in
     MIN_ZOOM <= vzoom vt' <= MAX_ZOOM /\
     exists p p', getCanvasPos e rectLeft rectTop vt = Some p /\
                  getCanvasPos e rectLeft rectTop vt' = Some p' /\ samePoint p' p) /\
  (forall st amount a b, zoom st = vzoom vt ->
     zoom (handleWheel amount st) = vzoom (wheelView vt a b amount) /\
     zoom (zoomWithButtons amount st) = vzoom (buttonView vt a b amount)).
Proof.
  intros Hzoom.
  assert (Hz : ~ vzoom vt == 0) by lra.
  assert (Hpos : forall z, ~ Qmax MIN_ZOOM (Qmin MAX_ZOOM z) == 0).
  { intros z. pose proof (clamped_zoom_bounds z) as [Hlow _].
    unfold MIN_ZOOM in Hlow at 1. lra. }
  split; [|split].
  - intros mouseX mouseY deltaY e vt'. split; [apply clamped_zoom_bounds|].
    do 2 eexists. split; [reflexivity|]. split; [reflexivity|].
    unfold samePoint. simpl.
    set (n := Qmax MIN_ZOOM (Qmin MAX_ZOOM (vzoom vt * (1 - deltaY * 0.001)))).
    specialize (Hpos (vzoom vt * (1 - deltaY * 0.001))). fold n in Hpos.
    split.
    + apply zoom_anchor; assumption.
    + apply zoom_anchor; assumption.
  - intros canvasWidth canvasHeight factor e vt'. split; [apply clamped_zoom_bounds|].
    do 2 eexists. split; [reflexivity|]. split; [reflexivity|].
    unfold samePoint. simpl.
    set (n := Qmax MIN_ZOOM (Qmin MAX_ZOOM (vzoom vt * factor))).
    specialize (Hpos (vzoom vt * factor)). fold n in Hpos.
    split.
    + apply zoom_anchor; assumption.
    + apply zoom_anchor; assumption.
  - intros st amount a b Hst. unfold handleWheel, zoomWithButtons. simpl. rewrite Hst. auto.
Qed.

Lemma zoom_is_clamped_and_anchored_witness :
  MIN_ZOOM <= vzoom (wheelView (mkView 1 (mkPoint 0 0)) 100 50 (-20000)) <= MAX_ZOOM.
Proof.
  destruct (zoom_is_clamped_and_anchored (mkView 1 (mkPoint 0 0)) 0 0) as [Hwheel _].
  - reflexivity.
  - destruct (Hwheel 100 50 (-20000)) as [Hbounds _]. exact Hbounds.
Defined.

Lemma fit_zoom_bounds (c W z : Q) :
  0 < W -> 0 <= c -> 0 <= z -> z <= c / W -> W * z <= c.
Proof.
  intros HW Hc Hz Hle.
  assert (E : W * (c / W) == c) by (field; lra).
  rewrite <- E. apply Qmult_le_l; assumption.
Qed.

(** X3.  [fitToScreen] never zooms in past 100%, shows the whole image
    inside the container and centres it: the scaled image is no larger than
    the container and the margins on both sides are equal and not negative.
    Without an image it does nothing. *)
Theorem fit_shows_whole_image_centred (img : Image) (containerWidth containerHeight : Q) :
  0 < naturalWidth img -> 0 < naturalHeight img ->
  0 <= containerWidth -> 0 <= containerHeight ->
  let vt := fitView img containerWidth containerHeight in
  let W := naturalWidth img * vzoom vt in
  let H := naturalHeight img * vzoom vt in
  0 <= vzoom vt <= 1 /\
  W <= containerWidth /\ H <= containerHeight /\
  0 <= px (voffset vt) /\ 0 <= py (voffset vt) /\
  px (voffset vt) + W + px (voffset vt) == containerWidth /\
  py (voffset vt) + H + py (voffset vt) == containerHeight /\
  (forall st, originalImage st = Some img ->
              zoom (fitToScreen containerWidth containerHeight st) = vzoom vt) /\
  (forall st, originalImage st = None ->
              fitToScreen containerWidth containerHeight st = st).
Proof.
  intros HW HH Hcw Hch vt W H.
  set (zx := containerWidth / naturalWidth img).
  set (zy := containerHeight / naturalHeight img).
  assert (Hzx : 0 <= zx).
  { unfold zx. apply Qle_shift_div_l; [exact HW|]. lra. }
  assert (Hzy : 0 <= zy).
  { unfold zy. apply Qle_shift_div_l; [exact HH|]. lra. }
  assert (Hz : 0 <= vzoom vt /\ vzoom vt <= 1 /\ vzoom vt <= zx /\ vzoom vt <= zy).
  { unfold vt, fitView. simpl. fold zx zy.
    destruct (Q.min_spec (Qmin zx zy) 1) as [[H1 H2]|[H1 H2]];
      destruct (Q.min_spec zx zy) as [[H3 H4]|[H3 H4]];
      rewrite H2; rewrite ?H4 in *; repeat split; lra. }
  destruct Hz as (Hz0 & Hz1 & Hzx' & Hzy').
  assert (HWfit : W <= containerWidth) by (apply fit_zoom_bounds; assumption).
  assert (HHfit : H <= containerHeight) by (apply fit_zoom_bounds; assumption).
  assert (Hhalf : / 2 == 1 # 2) by reflexivity.
  assert (Hox : px (voffset vt) == (containerWidth - W) * (1 # 2)).
  { change (px (voffset vt)) with ((containerWidth - W) / 2).
    unfold Qdiv. now rewrite Hhalf. }
  assert (Hoy : py (voffset vt) == (containerHeight - H) * (1 # 2)).
  { change (py (voffset vt)) with ((containerHeight - H) / 2).
    unfold Qdiv. now rewrite Hhalf. }
  split; [split; assumption|]. split; [exact HWfit|]. split; [exact HHfit|].
  split; [lra|]. split; [lra|]. split; [lra|]. split; [lra|]. split.
  - intros st Hst. unfold fitToScreen. rewrite Hst. reflexivity.
  - intros st Hst. unfold fitToScreen. rewrite Hst. reflexivity.
Qed.

Lemma fit_shows_whole_image_centred_witness :
  vzoom (fitView (mkImage 1600 600) 800 600) <= 1 /\
  px (voffset (fitView (mkImage 1600 600) 800 600)) == 0.
Proof.
  destruct (fit_shows_whole_image_centred (mkImage 1600 600) 800 600)
    as ((_ & Hone) & _); try reflexivity; try discriminate.
  split; [exact Hone|reflexivity].
Defined.

(** ** File names *)

Lemma splitDot_cons (s : string) : exists seg segs, splitDot s = seg :: segs.
Proof.
  induction s as [|c rest [seg [segs IH]]]; simpl; [eauto|].
  destruct (Ascii.eqb c "."); [eauto|]. rewrite IH. eauto.
Qed.

Lemma splitDot_no_dot (s : string) : hasDot s = false -> splitDot s = [s].
Proof.
  induction s as [|c rest IH]; simpl; [reflexivity|].
  destruct (Ascii.eqb c "."); simpl; [discriminate|].
  intros Hrest. now rewrite IH.
Qed.

Lemma splitDot_dot (a b : string) :
  splitDot (a ++ "." ++ b) = splitDot a ++ splitDot b.
Proof.
  induction a as [|c rest IH]; simpl; [reflexivity|].
  destruct (Ascii.eqb c "."); rewrite IH; [reflexivity|].
  destruct (splitDot_cons rest) as [seg [segs ->]]. reflexivity.
Qed.

Lemma joinDot_splitDot (s : string) : joinDot (splitDot s) = s.
Proof.
  induction s as [|c rest IH]; simpl; [reflexivity|].
  destruct (Ascii.eqb_spec c ".") as [->|Hc].
  - destruct (splitDot_cons rest) as [seg [segs E]]. rewrite E in *.
    simpl in *. now rewrite IH.
  - destruct (splitDot_cons rest) as [seg [segs E]]. rewrite E in *.
    destruct segs as [|seg' segs]; simpl in *; now rewrite <- IH.
Qed.

(** X4.  The base name [handleImageUpload] keeps of a file name: a name
    [base.ext] with a non-empty base and no dot in the extension gives
    [base] (dots inside the base are kept); a name without a dot, and a
    name that only has a leading dot, are kept whole; the base name of a
    non-empty file name is never empty. *)
Theorem fileNameWithoutExt_strips_last_extension :
  (forall base ext, base <> EmptyString -> hasDot ext = false ->
     fileNameWithoutExt (base ++ "." ++ ext) = base) /\
  (forall name, hasDot name = false -> fileNameWithoutExt name = name) /\
  (forall ext, hasDot ext = false -> fileNameWithoutExt ("." ++ ext) = ("." ++ ext)%string) /\
  (forall name, name <> EmptyString -> fileNameWithoutExt name <> EmptyString).
Proof.
  split; [|split; [|split]].
  - intros base ext Hbase Hext. unfold fileNameWithoutExt.
    rewrite splitDot_dot, (splitDot_no_dot ext Hext), removelast_last, joinDot_splitDot.
    destruct (String.eqb_spec base ""); [contradiction|reflexivity].
  - intros name Hname. unfold fileNameWithoutExt.
    rewrite (splitDot_no_dot name Hname). reflexivity.
  - intros ext Hext. unfold fileNameWithoutExt.
    change ("." ++ ext)%string with ("" ++ "." ++ ext)%string.
    rewrite splitDot_dot, (splitDot_no_dot ext Hext). reflexivity.
  - intros name Hname. unfold fileNameWithoutExt.
    destruct (String.eqb_spec (joinDot (removelast (splitDot name))) "");
      assumption.
Qed.

(** ** Point in polygon *)

Lemma Qltb_ext (a b c d : Q) : (a < b <-> c < d) -> Qltb a b = Qltb c d.
Proof.
  intros Hiff. destruct (Qltb a b) eqn:E1, (Qltb c d) eqn:E2; try reflexivity; qprop.
  - apply Hiff in E1. lra.
  - apply Hiff in E2. lra.
Qed.

Lemma Qltb_eq_r (a b c : Q) : b == c -> Qltb a b = Qltb a c.
Proof. intros E. apply Qltb_ext. rewrite E. reflexivity. Qed.

Lemma Qltb_eq_l (a b c : Q) : a == b -> Qltb a c = Qltb b c.
Proof. intros E. apply Qltb_ext. rewrite E. reflexivity. Qed.

(** X5.  The polygon made of the four corners of a rectangle (the polygon a
    rectangle becomes when a point is added to it) contains a point exactly
    when the point is in the rectangle with its top and left borders and
    without its bottom and right borders; so it contains every point the
    body of the rectangle contains. *)
Theorem corner_polygon_is_half_open_rectangle (x y w h : Q) (pos : Point) :
  0 < w -> 0 < h ->
  (pointInPolygon pos (cornerPoints (RectPart x y w h)) = true <->
   x <= px pos /\ px pos < x + w /\ y <= py pos /\ py pos < y + h) /\
  (partBodyContains pos (RectPart x y w h) = true ->
   pointInPolygon pos (cornerPoints (RectPart x y w h)) = true).
Proof.
  intros Hw Hh.
  assert (E0 : (x - x) * (py pos - y) / (y + h - y) + x == x) by (field; lra).
  assert (E2 : (x + w - (x + w)) * (py pos - (y + h)) / (y - (y + h)) + (x + w) == x + w)
    by (field; lra).
  assert (Hiff : pointInPolygon pos (cornerPoints (RectPart x y w h)) = true <->
                 x <= px pos /\ px pos < x + w /\ y <= py pos /\ py pos < y + h).
  { cbn [pointInPolygon pointInPolygon_loop cornerPoints List.last px py].
    rewrite (Qltb_eq_r _ _ _ E0), (Qltb_eq_r _ _ _ E2).
    destruct (Qgtb y (py pos)) eqn:A1, (Qgtb (y + h) (py pos)) eqn:A2,
      (Qltb (px pos) x) eqn:A3, (Qltb (px pos) (x + w)) eqn:A4;
      qprop; cbn; (split; [intros Hin; try discriminate; repeat split; lra
                          |intros (H1 & H2 & H3 & H4); try reflexivity; exfalso; lra]). }
  split; [exact Hiff|].
  intros Hbody. apply Hiff. simpl in Hbody. qprop. repeat split; lra.
Qed.

Lemma corner_polygon_is_half_open_rectangle_witness :
  pointInPolygon (mkPoint 300 200) (cornerPoints (RectPart 300 200 200 200)) = true /\
  partBodyContains (mkPoint 300 200) (RectPart 300 200 200 200) = false.
Proof.
  destruct (corner_polygon_is_half_open_rectangle 300 200 200 200 (mkPoint 300 200))
    as [Hiff _]; try reflexivity.
  split; [|reflexivity]. apply Hiff. simpl. repeat split; try reflexivity; discriminate.
Defined.

Lemma crossing_moved (x y xi yi xj yj dx dy : Q) :
  Qltb (x + dx)
       ((xj + dx - (xi + dx)) * (y + dy - (yi + dy)) / (yj + dy - (yi + dy)) + (xi + dx)) =
  Qltb x ((xj - xi) * (y - yi) / (yj - yi) + xi).
Proof.
  apply Qltb_ext.
  assert (D : yj + dy - (yi + dy) == yj - yi) by ring.
  assert (E : (xj + dx - (xi + dx)) * (y + dy - (yi + dy)) / (yj + dy - (yi + dy)) + (xi + dx)
              == (xj - xi) * (y - yi) / (yj - yi) + xi + dx).
  { rewrite D. unfold Qdiv. ring. }
  rewrite E. generalize ((xj - xi) * (y - yi) / (yj - yi) + xi). intros b.
  split; intros; lra.
Qed.

Lemma pointInPolygon_loop_moved (dx dy x y : Q) (vs : list Point) (vj : Point)
    (inside : bool) :
  pointInPolygon_loop (x + dx) (y + dy) (movePoint dx dy vj) (map (movePoint dx dy) vs) inside =
  pointInPolygon_loop x y vj vs inside.
Proof.
  revert vj inside; induction vs as [|vi rest IH]; intros vj inside; simpl; [reflexivity|].
  rewrite IH, crossing_moved.
  unfold Qgtb.
  rewrite (Qltb_ext (y + dy) (py vi + dy) y (py vi)) by (split; intros; lra).
  rewrite (Qltb_ext (y + dy) (py vj + dy) y (py vj)) by (split; intros; lra).
  reflexivity.
Qed.

Lemma last_movePoint (dx dy : Q) (vs : list Point) (v0 : Point) :
  List.last (map (movePoint dx dy) vs) (movePoint dx dy v0) =
  movePoint dx dy (List.last vs v0).
Proof.
  induction vs as [|v [|v' rest] IH]; try reflexivity. exact IH.
Qed.

(** X6.  Hit-testing the body commutes with a body drag: a part moved by a
    delta contains the pointer moved by the same delta exactly when the part
    contained the pointer before, for rectangles and for polygons. *)
Theorem body_containment_follows_the_drag (dx dy : Q) (pos : Point) (part : Part) :
  partBodyContains (movePoint dx dy pos) (movePart dx dy part) = partBodyContains pos part.
Proof.
  destruct part as [x y w h|points]; simpl.
  - unfold Qgtb.
    rewrite (Qltb_ext (x + dx) (px pos + dx) x (px pos)) by (split; intros; lra).
    rewrite (Qltb_ext (px pos + dx) (x + dx + w) (px pos) (x + w)) by (split; intros; lra).
    rewrite (Qltb_ext (y + dy) (py pos + dy) y (py pos)) by (split; intros; lra).
    rewrite (Qltb_ext (py pos + dy) (y + dy + h) (py pos) (y + h)) by (split; intros; lra).
    reflexivity.
  - unfold pointInPolygon. destruct points as [|v0 rest]; [reflexivity|].
    cbn [map]. change (movePoint dx dy v0 :: map (movePoint dx dy) rest)
      with (map (movePoint dx dy) (v0 :: rest)).
    rewrite last_movePoint. apply pointInPolygon_loop_moved.
Qed.

(** ** Distance to a segment *)

Lemma square_nonneg (a : Q) : 0 <= a * a.
Proof.
  destruct (Qlt_le_dec a 0) as [Hneg|Hpos].
  - assert (E : a * a == (- a) * (- a)) by ring.
    rewrite E. apply Qmult_le_0_compat; lra.
  - apply Qmult_le_0_compat; lra.
Qed.

Lemma squares_zero (a b : Q) : a * a + b * b == 0 -> a == 0 /\ b == 0.
Proof. intros E. split; nra. Qed.

Lemma clamp01 (t0 : Q) :
  let t := Qmax 0 (Qmin 1 t0) in
  0 <= t <= 1 /\ (t == t0 \/ (t == 0 /\ t0 <= 0) \/ (t == 1 /\ 1 <= t0)).
Proof.
  simpl.
  destruct (Q.max_spec 0 (Qmin 1 t0)) as [[H1 H2]|[H1 H2]];
    destruct (Q.min_spec 1 t0) as [[H3 H4]|[H3 H4]];
    rewrite H2; rewrite ?H4 in *; (split; [lra|]);
    first [ left; lra
          | right; left; split; lra
          | right; right; split; lra ].
Qed.

Lemma segment_minimum (qx qy ux uy t0 t s : Q) :
  0 < ux * ux + uy * uy ->
  t0 * (ux * ux + uy * uy) == qx * ux + qy * uy ->
  0 <= t <= 1 -> (t == t0 \/ (t == 0 /\ t0 <= 0) \/ (t == 1 /\ 1 <= t0)) ->
  0 <= s <= 1 ->
  (qx - t * ux) * (qx - t * ux) + (qy - t * uy) * (qy - t * uy) <=
  (qx - s * ux) * (qx - s * ux) + (qy - s * uy) * (qy - s * uy).
Proof.
  intros Hl2 Ht0 Ht Hcase Hs.
  set (l2 := ux * ux + uy * uy) in *.
  assert (Hdiff :
    (qx - s * ux) * (qx - s * ux) + (qy - s * uy) * (qy - s * uy)
    - ((qx - t * ux) * (qx - t * ux) + (qy - t * uy) * (qy - t * uy))
    == l2 * ((s - t) * (s + t - 2 * t0))).
  { assert (E1 : l2 * ((s - t) * (s + t - 2 * t0))
                 == (s - t) * ((s + t) * l2 - 2 * (t0 * l2))) by ring.
    rewrite E1, Ht0. unfold l2. ring. }
  assert (Hprod : 0 <= (s - t) * (s + t - 2 * t0)).
  { destruct Hcase as [E|[[E Hle]|[E Hle]]].
    - rewrite <- E.
      assert (E2 : (s - t) * (s + t - 2 * t) == (s - t) * (s - t)) by ring.
      rewrite E2. apply square_nonneg.
    - rewrite E. apply Qmult_le_0_compat; lra.
    - rewrite E.
      assert (E2 : (s - 1) * (s + 1 - 2 * t0) == (1 - s) * (2 * t0 - 1 - s)) by ring.
      rewrite E2. apply Qmult_le_0_compat; lra. }
  assert (0 <= l2 * ((s - t) * (s + t - 2 * t0))).
  { apply Qmult_le_0_compat; [lra|exact Hprod]. }
  lra.
Qed.

(** X7.  [distToSegment] returns the point of the segment that is closest
    to [p], with the square of its distance to [p]: the point lies on the
    segment, and no point of the segment is closer.  For a segment reduced
    to a point it returns that point. *)
Theorem distToSegment_is_closest_point (p v w : Point) :
  let r := distToSegment p v w in
  fst r == dist2 p (snd r) /\
  (exists t, 0 <= t <= 1 /\ samePoint (snd r) (alongSegment v w t)) /\
  (forall s, 0 <= s <= 1 -> fst r <= dist2 p (alongSegment v w s)) /\
  (dist2 v w == 0 -> snd r = mkPoint (px v) (py v)).
Proof.
  unfold distToSegment. fold (dist2 v w).
  destruct (Qeq_bool (dist2 v w) 0) eqn:Hdeg; cbn [fst snd].
  - apply Qeq_bool_iff in Hdeg. destruct (squares_zero _ _ Hdeg) as [Hx Hy].
    assert (Ux : px w - px v == 0) by lra.
    assert (Uy : py w - py v == 0) by lra.
    split; [reflexivity|]. split; [|split; [|reflexivity]].
    + exists 0. split; [lra|]. unfold samePoint, alongSegment. simpl. split; ring.
    + intros s Hs. unfold dist2, alongSegment. cbn [px py].
      rewrite Ux, Uy.
      assert (E : forall a b, (a - (b + s * 0)) * (a - (b + s * 0)) == (a - b) * (a - b))
        by (intros; ring).
      rewrite !E. apply Qle_refl.
  - assert (Hne : ~ dist2 v w == 0).
    { intros E. apply Qeq_bool_iff in E. congruence. }
    set (ux := px w - px v). set (uy := py w - py v).
    set (qx := px p - px v). set (qy := py p - py v).
    assert (El2 : dist2 v w == ux * ux + uy * uy) by (unfold dist2, ux, uy; ring).
    assert (Hl2 : 0 < ux * ux + uy * uy).
    { pose proof (square_nonneg ux). pose proof (square_nonneg uy).
      rewrite El2 in Hne. lra. }
    set (t0 := (qx * ux + qy * uy) / dist2 v w).
    assert (Ht0 : t0 * (ux * ux + uy * uy) == qx * ux + qy * uy).
    { rewrite <- El2. unfold t0. field. exact Hne. }
    destruct (clamp01 t0) as [Ht Hcase].
    set (t := Qmax 0 (Qmin 1 t0)) in *. clearbody t.
    split; [reflexivity|]. split; [|split].
    + exists t. split; [exact Ht|]. unfold samePoint, alongSegment. simpl.
      split; reflexivity.
    + intros s Hs.
      pose proof (segment_minimum qx qy ux uy t0 t s Hl2 Ht0 Ht Hcase Hs) as Hmin.
      unfold dist2, alongSegment. cbn [px py]. fold ux uy.
      assert (El : forall r,
                (px p - (px v + r * ux)) * (px p - (px v + r * ux))
                + (py p - (py v + r * uy)) * (py p - (py v + r * uy))
                == (qx - r * ux) * (qx - r * ux) + (qy - r * uy) * (qy - r * uy))
        by (intros; unfold qx, qy; ring).
      rewrite !El. exact Hmin.
    + intros E. contradiction.
Qed.

(** The point and the squared distance [distToSegment] returns, for use
    on the edges of the regions. *)
Lemma distToSegment_closest (p v w : Point) :
  let r := distToSegment p v w in
  fst r == dist2 p (snd r) /\
  (exists t, 0 <= t <= 1 /\ samePoint (snd r) (alongSegment v w t)) /\
  (forall s, 0 <= s <= 1 -> fst r <= dist2 p (alongSegment v w s)) /\
  (dist2 v w == 0 -> snd r = mkPoint (px v) (py v)).
Proof.
  unfold distToSegment. fold (dist2 v w).
  destruct (Qeq_bool (dist2 v w) 0) eqn:Hdeg; cbn [fst snd].
  - apply Qeq_bool_iff in Hdeg. destruct (squares_zero _ _ Hdeg) as [Hx Hy].
    assert (Ux : px w - px v == 0) by lra.
    assert (Uy : py w - py v == 0) by lra.
    split; [reflexivity|]. split; [|split; [|reflexivity]].
    + exists 0. split; [lra|]. unfold samePoint, alongSegment. simpl. split; ring.
    + intros s Hs. unfold dist2, alongSegment. cbn [px py].
      rewrite Ux, Uy.
      assert (E : forall a b, (a - (b + s * 0)) * (a - (b + s * 0)) == (a - b) * (a - b))
        by (intros; ring).
      rewrite !E. apply Qle_refl.
  - assert (Hne : ~ dist2 v w == 0).
    { intros E. apply Qeq_bool_iff in E. congruence. }
    set (ux := px w - px v). set (uy := py w - py v).
    set (qx := px p - px v). set (qy := py p - py v).
    assert (El2 : dist2 v w == ux * ux + uy * uy) by (unfold dist2, ux, uy; ring).
    assert (Hl2 : 0 < ux * ux + uy * uy).
    { pose proof (square_nonneg ux). pose proof (square_nonneg uy).
      rewrite El2 in Hne. lra. }
    set (t0 := (qx * ux + qy * uy) / dist2 v w).
    assert (Ht0 : t0 * (ux * ux + uy * uy) == qx * ux + qy * uy).
    { rewrite <- El2. unfold t0. field. exact Hne. }
    destruct (clamp01 t0) as [Ht Hcase].
    set (t := Qmax 0 (Qmin 1 t0)) in *. clearbody t.
    split; [reflexivity|]. split; [|split].
    + exists t. split; [exact Ht|]. unfold samePoint, alongSegment. simpl.
      split; reflexivity.
    + intros s Hs.
      pose proof (segment_minimum qx qy ux uy t0 t s Hl2 Ht0 Ht Hcase Hs) as Hmin.
      unfold dist2, alongSegment. cbn [px py]. fold ux uy.
      assert (El : forall r,
                (px p - (px v + r * ux)) * (px p - (px v + r * ux))
                + (py p - (py v + r * uy)) * (py p - (py v + r * uy))
                == (qx - r * ux) * (qx - r * ux) + (qy - r * uy) * (qy - r * uy))
        by (intros; unfold qx, qy; ring).
      rewrite !El. exact Hmin.
    + intros E. contradiction.
Qed.

(** ** Closest edge *)

Lemma rotated_nth (points : list Point) (n : nat) (d : Point) :
  (n < length points)%nat ->
  nth n (skipn 1 points ++ firstn 1 points) d = nth ((n + 1) mod length points)%nat points d.
Proof.
  destruct points as [|a tl]; simpl length; [lia|]. intros Hn.
  change (skipn 1 (a :: tl)) with tl. change (firstn 1 (a :: tl)) with [a].
  destruct (Nat.eq_dec (n + 1)%nat (S (length tl))) as [E|E].
  - rewrite E, Nat.Div0.mod_same. rewrite app_nth2 by lia.
    replace (n - length tl)%nat with 0%nat by lia. reflexivity.
  - rewrite Nat.mod_small by lia. rewrite app_nth1 by lia.
    replace (n + 1)%nat with (S n) by lia. reflexivity.
Qed.

Lemma segmentsOf_joinsCorners (part : Part) (seg : Point * Point * Z) :
  In seg (segmentsOf part) -> joinsCorners part seg.
Proof.
  destruct part as [x y w h|points].
  - simpl. intros [<-|[<-|[<-|[<-|[]]]]]; unfold joinsCorners; simpl;
      repeat split; try lia; reflexivity.
  - cbn [segmentsOf cornerPoints]. intros Hin.
    set (rot := skipn 1 points ++ firstn 1 points) in *.
    assert (Hrot : length rot = length points).
    { unfold rot. rewrite List.length_app, List.length_skipn, List.length_firstn.
      destruct points; simpl; lia. }
    destruct seg as [[p1 p2] i].
    destruct (In_nth _ _ (p1, p1, 0%Z) Hin) as [n [Hn Hnth]].
    rewrite length_combine, length_combine, length_map, length_seq, Hrot in Hn.
    rewrite combine_nth in Hnth
      by (now rewrite length_combine, length_map, length_seq, Hrot, Nat.min_id).
    rewrite combine_nth in Hnth by (symmetry; exact Hrot).
    injection Hnth as H1 H2 H3.
    assert (Hn' : (n < length points)%nat) by lia.
    change 0%Z with (Z.of_nat 0) in H3.
    rewrite map_nth, seq_nth in H3 by exact Hn'.
    simpl in H3. subst i.
    unfold joinsCorners. cbn [fst snd cornerPoints]. rewrite Nat2Z.id.
    split; [lia|]. split; [exact Hn'|]. split.
    + rewrite (nth_error_nth' _ p1 Hn'). now rewrite H1.
    + unfold rot in H2. rewrite rotated_nth in H2 by exact Hn'.
      assert (Hmod : ((n + 1) mod length points < length points)%nat)
        by (apply Nat.mod_upper_bound; lia).
      rewrite (nth_error_nth' _ p1 Hmod). now rewrite H2.
Qed.

Section NearestEdge.
Variable allRegions : list Region.
Variable pos : Point.

Lemma closestStep_from (region : Region) (partIdx : Z) (part : Part) (acc : Closest)
    (seen : list (Point * Point * Z)) (seg : Point * Point * Z) :
  In region allRegions ->
  nthZ (parts region) partIdx = Some part ->
  In seg (segmentsOf part) ->
  closestFrom pos allRegions acc seen ->
  closestFrom pos allRegions (closestStep pos region partIdx acc seg) (seen ++ [seg]).
Proof.
  intros Hin Hpart Hseg Hacc. unfold closestStep.
  destruct seg as [[p1 p2] index]. destruct (distToSegment pos p1 p2) as [d2 point] eqn:Hd.
  unfold closestFrom in *.
  destruct (cl_dist2 acc) as [m|] eqn:Hm.
  - destruct Hacc as [Hfrom Hseen].
    destruct (Qltb d2 m) eqn:Hlt; qprop.
    + cbn [cl_dist2]. split.
      * exists region, part, p1, p2, point. cbn. repeat split; auto.
      * intros seg Hs. apply in_app_iff in Hs. destruct Hs as [Hs|[<-|[]]].
        -- specialize (Hseen seg Hs). lra.
        -- cbn. rewrite Hd. cbn. apply Qle_refl.
    + rewrite Hm. split; [exact Hfrom|].
      intros seg Hs. apply in_app_iff in Hs. destruct Hs as [Hs|[<-|[]]].
      * auto.
      * cbn. rewrite Hd. cbn. exact Hlt.
  - destruct Hacc as [-> _]. cbn [cl_dist2]. split.
    + exists region, part, p1, p2, point. cbn. repeat split; auto.
    + intros seg [<-|[]]. cbn. rewrite Hd. cbn. apply Qle_refl.
Qed.

Lemma closestSegments_from (region : Region) (partIdx : Z) (part : Part)
    (segs : list (Point * Point * Z)) (acc : Closest) (seen : list (Point * Point * Z)) :
  In region allRegions ->
  nthZ (parts region) partIdx = Some part ->
  (forall seg, In seg segs -> In seg (segmentsOf part)) ->
  closestFrom pos allRegions acc seen ->
  closestFrom pos allRegions
    (fold_left (closestStep pos region partIdx) segs acc) (seen ++ segs).
Proof.
  intros Hin Hpart. revert acc seen; induction segs as [|seg t IH]; intros acc seen Hsegs Hacc;
    simpl.
  - now rewrite app_nil_r.
  - replace (seen ++ seg :: t) with ((seen ++ [seg]) ++ t) by now rewrite <- app_assoc.
    apply IH; [intros; apply Hsegs; now right|].
    apply (closestStep_from region partIdx part); auto. apply Hsegs. now left.
Qed.

Lemma closestParts_from (region : Region) (pre ps : list Part) (acc : Closest)
    (seen : list (Point * Point * Z)) :
  In region allRegions ->
  parts region = pre ++ ps ->
  closestFrom pos allRegions acc seen ->
  closestFrom pos allRegions
    (closestParts pos region (Z.of_nat (length pre)) ps acc)
    (seen ++ flat_map segmentsOf ps).
Proof.
  intros Hin. revert pre acc seen; induction ps as [|part rest IH];
    intros pre acc seen Hparts Hacc; simpl.
  - now rewrite app_nil_r.
  - replace (Z.of_nat (length pre) + 1)%Z with (Z.of_nat (length (pre ++ [part])))
      by (rewrite List.length_app; simpl; lia).
    rewrite app_assoc. apply IH; [now rewrite <- app_assoc|].
    apply (closestSegments_from region _ part); auto.
    unfold nthZ. destruct (Z.ltb_spec (Z.of_nat (length pre)) 0); [lia|].
    rewrite Nat2Z.id, Hparts, nth_error_app2, Nat.sub_diag by lia. reflexivity.
Qed.

Lemma closestRegions_from (l : list Region) (acc : Closest)
    (seen : list (Point * Point * Z)) :
  (forall region, In region l -> In region allRegions) ->
  closestFrom pos allRegions acc seen ->
  closestFrom pos allRegions
    (fold_left (fun acc region => closestParts pos region 0%Z (parts region) acc) l acc)
    (seen ++ allSegments l).
Proof.
  revert acc seen; induction l as [|region t IH]; intros acc seen Hl Hacc; simpl.
  - now rewrite app_nil_r.
  - rewrite app_assoc. apply IH; [intros; apply Hl; now right|].
    apply (closestParts_from region [] (parts region)); auto. apply Hl. now left.
Qed.
End NearestEdge.

(** Every edge of a part, from a corner to the next one and from the last
    corner back to the first, is among the segments the search visits. *)
Lemma joinsCorners_segmentsOf (part : Part) (seg : Point * Point * Z) :
  joinsCorners part seg -> In seg (segmentsOf part).
Proof.
  destruct seg as [[p1 p2] z]. unfold joinsCorners. cbn [fst snd].
  intros (Hz & Hi & H1 & H2).
  destruct part as [x y w h|points].
  - cbn [cornerPoints length] in *.
    assert (Hcases : (z = 0 \/ z = 1 \/ z = 2 \/ z = 3)%Z) by lia.
    destruct Hcases as [-> | [-> | [-> | ->]]]; simpl in H1, H2;
      injection H1 as <-; injection H2 as <-; simpl; auto.
  - cbn [cornerPoints] in *. unfold segmentsOf.
    set (rot := skipn 1 points ++ firstn 1 points).
    assert (Hrot : length rot = length points).
    { unfold rot. rewrite List.length_app, List.length_skipn, List.length_firstn.
      destruct points; simpl; lia. }
    set (i := Z.to_nat z) in *.
    assert (Hnth : nth i (combine (combine points rot)
                            (map Z.of_nat (seq 0 (length points)))) (p1, p1, 0%Z)
                   = (p1, p2, z)).
    { rewrite combine_nth
        by (now rewrite length_combine, length_map, length_seq, Hrot, Nat.min_id).
      rewrite combine_nth by (symmetry; exact Hrot).
      change 0%Z with (Z.of_nat 0). rewrite map_nth, seq_nth by exact Hi.
      unfold rot. rewrite rotated_nth by exact Hi.
      rewrite (nth_error_nth _ _ p1 H1), (nth_error_nth _ _ p1 H2).
      simpl. unfold i. now rewrite Z2Nat.id. }
    rewrite <- Hnth. apply nth_In.
    rewrite length_combine, length_combine, length_map, length_seq, Hrot. lia.
Qed.

Lemma edges_in_allSegments (rs : list Region) (region : Region) (part : Part)
    (seg : Point * Point * Z) :
  In region rs -> In part (parts region) -> joinsCorners part seg ->
  In seg (allSegments rs).
Proof.
  intros Hr Hp Hseg. unfold allSegments. apply in_flat_map. exists region.
  split; [exact Hr|]. apply in_flat_map. exists part. split; [exact Hp|].
  now apply joinsCorners_segmentsOf.
Qed.

(** X8.  For a positive zoom factor, [findClosestEdgePoint] returns the
    point of the edges of the collection that is nearest to the position,
    when it is within [HANDLE_SIZE / zoom] of it.  The edges of a part are
    the segments from each corner to the next one and from the last corner
    back to the first.  The region returned is one of the collection, the
    part and edge indices name an edge of it, the new point lies on that
    edge, and no point of any edge of any part of any region is nearer to
    the position.  It returns nothing exactly when every point of every
    edge is farther than the threshold, in particular for an empty
    collection. *)
Theorem findClosestEdgePoint_is_nearest_edge (st : Editor) (pos : Point)
    (allRegions : list Region) :
  0 < zoom st ->
  let threshold := HANDLE_SIZE / zoom st in
  let c := findClosestEdgePoint st pos allRegions in
  let onAnEdge (q : Point) :=
    exists region part p1 p2 i s,
      In region allRegions /\ In part (parts region) /\
      joinsCorners part (p1, p2, i) /\ 0 <= s <= 1 /\ q = alongSegment p1 p2 s in
  match cl_region c with
  | None =>
      c = noClosest /\
      forall q, onAnEdge q -> threshold * threshold < dist2 pos q
  | Some region =>
      In region allRegions /\
      exists part p1 p2 newPoint t,
        nthZ (parts region) (cl_partIndex c) = Some part /\
        joinsCorners part (p1, p2, cl_segmentIndex c) /\
        cl_point c = Some newPoint /\
        0 <= t <= 1 /\ samePoint newPoint (alongSegment p1 p2 t) /\
        dist2 pos newPoint <= threshold * threshold /\
        forall q, onAnEdge q -> dist2 pos newPoint <= dist2 pos q
  end.
Proof.
  intros Hzoom threshold c onAnEdge.
  assert (Hthr : 0 < threshold).
  { unfold threshold, HANDLE_SIZE. apply Qlt_shift_div_l; [exact Hzoom|]. lra. }
  pose proof (closestRegions_from allRegions pos allRegions noClosest []
                (fun _ H => H) (conj eq_refl eq_refl)) as Hbest.
  cbn [app] in Hbest.
  assert (Hbound : forall q, onAnEdge q ->
            exists seg, In seg (allSegments allRegions) /\
              fst (distToSegment pos (fst (fst seg)) (snd (fst seg))) <= dist2 pos q).
  { intros q (region & part & p1 & p2 & i & s & Hr & Hp & Hseg & Hs & ->).
    exists (p1, p2, i). split; [eapply edges_in_allSegments; eauto|].
    cbn [fst snd]. now apply (distToSegment_closest pos p1 p2). }
  unfold c, findClosestEdgePoint. fold threshold.
  set (best := fold_left _ allRegions noClosest) in *.
  unfold closestFrom in Hbest.
  destruct (cl_dist2 best) as [d2|] eqn:Hd.
  - destruct Hbest as [(region & part & p1 & p2 & newPoint & Hr & Hin & Hpart & Hseg & Hdist & Hpt) Hmin].
    destruct (distToSegment_closest pos p1 p2) as (Hfst & (t & Ht & Hon) & _).
    rewrite Hdist in Hfst, Hon. cbn [fst snd] in Hfst, Hon.
    destruct (Qltb threshold 0) eqn:Hneg; qprop; [lra|]. cbn [orb].
    destruct (Qgtb d2 (threshold * threshold)) eqn:Hfar; qprop.
    + cbn [cl_region noClosest]. split; [reflexivity|].
      intros q Hq. destruct (Hbound q Hq) as (seg & Hs & Hle).
      specialize (Hmin seg Hs). lra.
    + rewrite Hr. split; [exact Hin|].
      exists part, p1, p2, newPoint, t.
      split; [exact Hpart|].
      split; [apply segmentsOf_joinsCorners, Hseg|].
      split; [exact Hpt|]. split; [exact Ht|]. split; [exact Hon|].
      split; [rewrite <- Hfst; exact Hfar|].
      intros q Hq. destruct (Hbound q Hq) as (seg & Hs & Hle).
      specialize (Hmin seg Hs). rewrite <- Hfst. lra.
  - destruct Hbest as [Hnil _]. cbn [cl_region noClosest]. split; [reflexivity|].
    intros q Hq. destruct (Hbound q Hq) as (seg & Hs & _).
    rewrite Hnil in Hs. destruct Hs.
Qed.

Lemma findClosestEdgePoint_is_nearest_edge_witness :
  exists newPoint,
    cl_point (findClosestEdgePoint addPointEditor (mkPoint 400 203) (regions addPointEditor))
      = Some newPoint /\
    dist2 (mkPoint 400 203) newPoint
      <= dist2 (mkPoint 400 203) (alongSegment (mkPoint 300 400) (mkPoint 300 200) (1 # 2)).
Proof.
  assert (Hzoom : 0 < zoom addPointEditor) by reflexivity.
  pose proof (findClosestEdgePoint_is_nearest_edge addPointEditor (mkPoint 400 203)
                (regions addPointEditor) Hzoom) as Hnear.
  cbv zeta in Hnear.
  assert (E : cl_region (findClosestEdgePoint addPointEditor (mkPoint 400 203)
                           (regions addPointEditor)) = Some squareA)
    by (vm_compute; reflexivity).
  rewrite E in Hnear.
  destruct Hnear as (_ & part & p1 & p2 & newPoint & t & _ & _ & Hpt & _ & _ & _ & Hmin).
  exists newPoint. split; [exact Hpt|]. apply Hmin.
  exists squareA, (RectPart 300 200 200 200), (mkPoint 300 400), (mkPoint 300 200), 3%Z, (1 # 2).
  split; [now left|]. split; [now left|]. split.
  - unfold joinsCorners. cbn. repeat split; try lia; reflexivity.
  - split; [split; discriminate|reflexivity].
Defined.

(** ** Region creation *)

(** X9.  [addRegion] does nothing without an image.  With an image (of a
    size that is not negative) it appends, after the regions already there,
    one region whose single part is a square of side a quarter of the
    shorter image dimension, centred on the image and inside it; modes,
    selection, artifacts and drag state are untouched. *)
Theorem addRegion_appends_centred_square (now : Z) (st : Editor) :
  (originalImage st = None -> addRegion now st = st) /\
  (forall im, originalImage st = Some im ->
     0 <= naturalWidth im -> 0 <= naturalHeight im ->
     (exists x y side,
        regions (addRegion now st) = regions st ++ [mkRegion now [RectPart x y side side]] /\
        side == Qmin (naturalWidth im) (naturalHeight im) * (25 # 100) /\
        x + side / 2 == naturalWidth im / 2 /\
        y + side / 2 == naturalHeight im / 2 /\
        partInBounds (naturalWidth im) (naturalHeight im) (RectPart x y side side)) /\
     addRegion now st = setRegions (regions (addRegion now st)) st).
Proof.
  split.
  - intros Hnone. unfold addRegion. now rewrite Hnone.
  - intros im Him HW HH. split; [now apply addRegion_in_bounds|].
    unfold addRegion. rewrite Him. reflexivity.
Qed.

(** ** Invariants over the reachable states *)

Lemma handle_oneModeAtMost (ev : Event) (st st' : Editor) :
  oneModeAtMost st -> handle ev st = Some st' -> oneModeAtMost st'.
Proof.
  intros Hinv. destruct ev; simpl.
  - intros [= <-]. unfold oneModeAtMost, activeModes, fitToScreen, imageOnLoad in *. simpl in *.
    destruct (isSelectMode st), (isWaitingForPointClick st), (isDeletePointMode st),
      (isDeleteRegionMode st); simpl in *; lia.
  - intros [= <-]. unfold addRegion. destruct (originalImage st); exact Hinv.
  - intros [= <-]. unfold oneModeAtMost, activeModes, toggleSelectMode in *.
    destruct (isSelectMode st) eqn:E1, (isWaitingForPointClick st) eqn:E2,
      (isDeletePointMode st) eqn:E3, (isDeleteRegionMode st) eqn:E4;
      simpl in *; rewrite ?E1, ?E2, ?E3, ?E4; simpl; lia.
  - intros [= <-]. unfold oneModeAtMost, activeModes, startAddPointMode in *.
    destruct (isSelectMode st) eqn:E1, (isWaitingForPointClick st) eqn:E2,
      (isDeletePointMode st) eqn:E3, (isDeleteRegionMode st) eqn:E4;
      simpl in *; rewrite ?E1, ?E2, ?E3, ?E4; simpl; lia.
  - intros [= <-]. unfold oneModeAtMost, activeModes, toggleDeletePointMode in *.
    destruct (isSelectMode st) eqn:E1, (isWaitingForPointClick st) eqn:E2,
      (isDeletePointMode st) eqn:E3, (isDeleteRegionMode st) eqn:E4;
      simpl in *; rewrite ?E1, ?E2, ?E3, ?E4; simpl; lia.
  - intros [= <-]. unfold oneModeAtMost, activeModes, toggleDeleteRegionMode in *.
    destruct (isSelectMode st) eqn:E1, (isWaitingForPointClick st) eqn:E2,
      (isDeletePointMode st) eqn:E3, (isDeleteRegionMode st) eqn:E4;
      simpl in *; rewrite ?E1, ?E2, ?E3, ?E4; simpl; lia.
  - intros [= <-]. unfold mergeSelectedRegions.
    destruct (size (multiSelectRegions st) <? 2)%nat; [exact Hinv|].
    destruct (partitionSelected _ _ _ _). exact Hinv.
  - intros [= <-]. unfold oneModeAtMost, activeModes, clearAllRegions in *.
    destruct (isSelectMode st) eqn:E1, (isWaitingForPointClick st) eqn:E2,
      (isDeletePointMode st) eqn:E3, (isDeleteRegionMode st) eqn:E4;
      simpl in *; rewrite ?E1, ?E2, ?E3, ?E4; simpl; lia.
  - unfold onMouseDown.
    destruct (negb (button =? 0)%Z); [now intros [= <-]|].
    destruct pos as [p|]; [|now intros [= <-]].
    destruct (isDeleteRegionMode st) eqn:E4.
    { destruct (hit_region (getHitRegion st p)); [|now intros [= <-]].
      destruct (isBody _); now intros [= <-]. }
    destruct (isWaitingForPointClick st) eqn:E2.
    { unfold addPointToPolygon.
      destruct (cl_region _); [|now intros [= <-]].
      destruct (cl_point _); [|now intros [= <-]].
      destruct (negb _ && negb _); [|now intros [= <-]].
      destruct (addPointUpdater _ _ _ _ _); [|discriminate]. now intros [= <-]. }
    destruct (isDeletePointMode st) eqn:E3.
    { destruct (hit_region (getHitRegion st p)); [|now intros [= <-]].
      destruct (hit_part (getHitRegion st p)) as [part|]; [|now intros [= <-]].
      destruct (isPoly part && _); [|now intros [= <-]].
      destruct (deletePointUpdater _ _ _ _); [|discriminate]. now intros [= <-]. }
    destruct (isSelectMode st) eqn:E1.
    { destruct (hit_region (getHitRegion st p)); [|now intros [= <-]].
      destruct (isBody _); now intros [= <-]. }
    destruct (hit_region (getHitRegion st p)); [|now intros [= <-]].
    destruct (0 <? size (multiSelectRegions st))%nat; now intros [= <-].
  - unfold onMouseMove. destruct pos as [p|]; [|now intros [= <-]].
    destruct (isDragging (draggingState st));
      [destruct (dragMode (draggingState st)) as [mode|]|].
    + destruct (dragUpdater _ _ _ _ _ _) as [[rs offset]|]; [|discriminate].
      now intros [= <-].
    + destruct (isWaitingForPointClick st); now intros [= <-].
    + destruct (isWaitingForPointClick st); now intros [= <-].
  - intros [= <-]. unfold onMouseUp. destruct (isDragging (draggingState st)); exact Hinv.
  - intros [= <-]. exact Hinv.
  - intros [= <-]. exact Hinv.
  - intros [= <-]. unfold fitToScreen. destruct (originalImage st); exact Hinv.
  - intros [= <-]. unfold processRegions. destruct (originalImage st); [|exact Hinv].
    destruct (length (regions st) =? 0)%nat; exact Hinv.
  - intros [= <-]. exact Hinv.
  - intros [= <-]. exact Hinv.
Qed.

(** X10.  No two modal editing modes are ever active together: in every
    state the editor can reach, at most one of select mode, add-point mode,
    delete-point mode and delete-region mode is on. *)
Theorem reachable_oneModeAtMost (st : Editor) : reachable st -> oneModeAtMost st.
Proof.
  induction 1 as [|ev st st' _ IH Hstep].
  - unfold oneModeAtMost. simpl. lia.
  - eapply handle_oneModeAtMost; eauto.
Qed.

Lemma reachable_oneModeAtMost_witness :
  oneModeAtMost (toggleDeletePointMode (toggleSelectMode initialEditor)).
Proof.
  apply reachable_oneModeAtMost.
  apply (reachable_step ToggleDeletePointMode (toggleSelectMode initialEditor)); [|reflexivity].
  apply (reachable_step ToggleSelectMode initialEditor); [|reflexivity].
  apply reachable_initial.
Defined.

Lemma handle_keeps_image (ev : Event) (st st' : Editor) :
  handle ev st = Some st' ->
  (exists img cw ch, ev = ImageLoaded img cw ch) \/ originalImage st' = originalImage st.
Proof.
  destruct ev; simpl; try (intros [= <-]; right; reflexivity).
  - intros _. left. eauto.
  - intros [= <-]. right. unfold addRegion.
    destruct (originalImage st) eqn:Eimg; simpl; now rewrite ?Eimg.
  - intros [= <-]. right. unfold toggleSelectMode.
    destruct (isWaitingForPointClick st), (isDeletePointMode st), (isDeleteRegionMode st);
      reflexivity.
  - intros [= <-]. right. unfold startAddPointMode.
    destruct (isWaitingForPointClick st), (isSelectMode st), (isDeletePointMode st),
      (isDeleteRegionMode st); reflexivity.
  - intros [= <-]. right. unfold toggleDeletePointMode.
    destruct (isDeletePointMode st), (isSelectMode st), (isWaitingForPointClick st),
      (isDeleteRegionMode st); reflexivity.
  - intros [= <-]. right. unfold toggleDeleteRegionMode.
    destruct (isDeleteRegionMode st), (isSelectMode st), (isWaitingForPointClick st),
      (isDeletePointMode st); reflexivity.
  - intros [= <-]. right. unfold mergeSelectedRegions.
    destruct (size (multiSelectRegions st) <? 2)%nat; [reflexivity|].
    destruct (partitionSelected _ _ _ _). reflexivity.
  - intros [= <-]. right. unfold clearAllRegions.
    destruct (isWaitingForPointClick st), (isDeletePointMode st), (isDeleteRegionMode st);
      reflexivity.
  - intros Hstep. right. revert Hstep. unfold onMouseDown.
    destruct (negb (button =? 0)%Z); [now intros [= <-]|].
    destruct pos as [p|]; [|now intros [= <-]].
    destruct (isDeleteRegionMode st).
    { destruct (hit_region (getHitRegion st p)); [|now intros [= <-]].
      destruct (isBody _); now intros [= <-]. }
    destruct (isWaitingForPointClick st).
    { unfold addPointToPolygon.
      destruct (cl_region _); [|now intros [= <-]].
      destruct (cl_point _); [|now intros [= <-]].
      destruct (negb _ && negb _); [|now intros [= <-]].
      destruct (addPointUpdater _ _ _ _ _); [|discriminate]. now intros [= <-]. }
    destruct (isDeletePointMode st).
    { destruct (hit_region (getHitRegion st p)); [|now intros [= <-]].
      destruct (hit_part (getHitRegion st p)) as [part|]; [|now intros [= <-]].
      destruct (isPoly part && _); [|now intros [= <-]].
      destruct (deletePointUpdater _ _ _ _); [|discriminate]. now intros [= <-]. }
    destruct (isSelectMode st).
    { destruct (hit_region (getHitRegion st p)); [|now intros [= <-]].
      destruct (isBody _); now intros [= <-]. }
    destruct (hit_region (getHitRegion st p)); [|now intros [= <-]].
    destruct (0 <? size (multiSelectRegions st))%nat; now intros [= <-].
  - intros Hstep. right. revert Hstep. unfold onMouseMove.
    destruct pos as [p|]; [|now intros [= <-]].
    destruct (isDragging (draggingState st));
      [destruct (dragMode (draggingState st)) as [mode|]|].
    + destruct (dragUpdater _ _ _ _ _ _) as [[rs offset]|]; [|discriminate].
      now intros [= <-].
    + destruct (isWaitingForPointClick st); now intros [= <-].
    + destruct (isWaitingForPointClick st); now intros [= <-].
  - intros [= <-]. right. unfold onMouseUp.
    destruct (isDragging (draggingState st)); reflexivity.
  - intros [= <-]. right. unfold fitToScreen.
    destruct (originalImage st) eqn:Eimg; simpl; now rewrite ?Eimg.
  - intros [= <-]. right. unfold processRegions.
    destruct (originalImage st) eqn:Eimg; [|now rewrite Eimg].
    destruct (length (regions st) =? 0)%nat; simpl; now rewrite ?Eimg.
Qed.

Lemma handle_emptyWithoutImage (ev : Event) (st st' : Editor) :
  emptyWithoutImage st -> handle ev st = Some st' -> emptyWithoutImage st'.
Proof.
  intros Hinv Hstep Hnone'.
  destruct (handle_keeps_image ev st st' Hstep) as [(img & cw & ch & ->)|Hsame].
  { simpl in Hstep. injection Hstep as <-. discriminate Hnone'. }
  rewrite Hsame in Hnone'. destruct (Hinv Hnone') as (Hregs & Hsel & Hproc).
  revert Hstep. destruct ev; simpl.
  - intros [= <-]. simpl in Hsame. congruence.
  - intros [= <-]. unfold addRegion. rewrite Hnone'. auto.
  - intros [= <-]. unfold toggleSelectMode.
    destruct (isWaitingForPointClick st), (isDeletePointMode st), (isDeleteRegionMode st);
      simpl; auto.
  - intros [= <-]. unfold startAddPointMode.
    destruct (isWaitingForPointClick st), (isSelectMode st), (isDeletePointMode st),
      (isDeleteRegionMode st); simpl; auto.
  - intros [= <-]. unfold toggleDeletePointMode.
    destruct (isDeletePointMode st), (isSelectMode st), (isWaitingForPointClick st),
      (isDeleteRegionMode st); simpl; auto.
  - intros [= <-]. unfold toggleDeleteRegionMode.
    destruct (isDeleteRegionMode st), (isSelectMode st), (isWaitingForPointClick st),
      (isDeletePointMode st); simpl; auto.
  - intros [= <-]. unfold mergeSelectedRegions. rewrite Hsel, size_empty. simpl. auto.
  - intros [= <-]. unfold clearAllRegions.
    destruct (isWaitingForPointClick st), (isDeletePointMode st), (isDeleteRegionMode st);
      simpl; auto.
  - assert (Hhit : forall p, getHitRegion st p = noHit)
      by (intros p; unfold getHitRegion; rewrite Hregs; reflexivity).
    unfold onMouseDown.
    destruct (negb (button =? 0)%Z); [intros [= <-]; auto|].
    destruct pos as [p|]; [|intros [= <-]; auto].
    rewrite Hhit. cbn [hit_region noHit hit_part].
    destruct (isDeleteRegionMode st); [intros [= <-]; auto|].
    destruct (isWaitingForPointClick st).
    { unfold addPointToPolygon, findClosestEdgePoint. rewrite Hregs. cbn.
      intros [= <-]; auto. }
    destruct (isDeletePointMode st); [intros [= <-]; auto|].
    destruct (isSelectMode st); intros [= <-]; auto.
  - unfold onMouseMove. destruct pos as [p|]; [|intros [= <-]; auto].
    destruct (isDragging (draggingState st));
      [destruct (dragMode (draggingState st)) as [mode|]|].
    + unfold dragUpdater. rewrite Hregs.
      destruct (selectedRegion (draggingState st)); cbn; intros [= <-]; cbn; auto.
    + destruct (isWaitingForPointClick st); intros [= <-]; auto.
    + destruct (isWaitingForPointClick st); intros [= <-]; auto.
  - intros [= <-]. unfold onMouseUp. destruct (isDragging (draggingState st)); auto.
  - intros [= <-]. auto.
  - intros [= <-]. auto.
  - intros [= <-]. unfold fitToScreen. rewrite Hnone'. auto.
  - intros [= <-]. unfold processRegions. rewrite Hnone'. auto.
  - intros [= <-]. simpl. rewrite Hproc. auto.
  - intros [= <-]. simpl. auto.
Qed.

Lemma reachable_emptyWithoutImage (st : Editor) : reachable st -> emptyWithoutImage st.
Proof.
  induction 1 as [|ev st st' _ IH Hstep].
  - intros _. auto.
  - eapply handle_emptyWithoutImage; eauto.
Qed.

(** X11.  In every state the editor can reach, no region, selection or
    artifact exists before an image is loaded, and a disabled button guards
    a handler that would do nothing anyway: with "Add Crop Region" disabled
    [addRegion] changes nothing, with "Merge Selected" disabled
    [mergeSelectedRegions] changes nothing, and with "Process" disabled
    [processRegions] changes nothing. *)
Theorem disabled_buttons_guard_no_ops (st : Editor) :
  reachable st ->
  emptyWithoutImage st /\
  (isActionDisabled st = true -> forall now, addRegion now st = st) /\
  (isMergeDisabled st = true -> forall now, mergeSelectedRegions now st = st) /\
  (isProcessDisabled st = true -> forall cv now, processRegions cv now st = st).
Proof.
  intros Hreach. pose proof (reachable_emptyWithoutImage st Hreach) as Hinv.
  split; [exact Hinv|]. unfold isMergeDisabled, isProcessDisabled, isActionDisabled.
  split; [|split].
  - intros Hdis now. unfold addRegion. destruct (originalImage st); [discriminate|reflexivity].
  - intros Hdis now. unfold mergeSelectedRegions.
    destruct (size (multiSelectRegions st) <? 2)%nat eqn:Hsize; [reflexivity|].
    destruct (originalImage st) eqn:Himg; [discriminate|].
    destruct (Hinv Himg) as (_ & Hsel & _).
    rewrite Hsel, size_empty in Hsize. discriminate.
  - intros Hdis cv now. unfold processRegions.
    destruct (originalImage st); [|reflexivity].
    rewrite orb_false_r in Hdis. now rewrite Hdis.
Qed.

Lemma disabled_buttons_guard_no_ops_witness :
  mergeSelectedRegions 7 initialEditor = initialEditor.
Proof.
  destruct (disabled_buttons_guard_no_ops initialEditor reachable_initial)
    as (_ & _ & Hmerge & _).
  apply Hmerge. reflexivity.
Defined.

(** ** Region ids stay distinct *)

Lemma map_id_set_nth (rs : list Region) (k : nat) (r : Region) (ps : list Part) :
  nth_error rs k = Some r -> map id (set_nth rs k (mkRegion (id r) ps)) = map id rs.
Proof.
  revert k; induction rs as [|a t IH]; intros [|k] H; simpl in *; try discriminate.
  - now injection H as ->.
  - now rewrite IH.
Qed.

Lemma NoDup_ids_filter (f : Region -> bool) (rs : list Region) :
  List.NoDup (map id rs) -> List.NoDup (map id (List.filter f rs)).
Proof.
  induction rs as [|a t IH]; simpl; intros Hnd; [constructor|].
  inversion Hnd as [|i ids Hfresh Hrest]; subst.
  destruct (f a); simpl; [constructor|]; auto.
  intros Hin. apply Hfresh. apply in_map_iff in Hin. destruct Hin as [r [Hid Hr]].
  apply filter_In in Hr. rewrite <- Hid. apply in_map, Hr.
Qed.

Lemma NoDup_snoc {A : Type} (l : list A) (a : A) :
  List.NoDup l -> ~ In a l -> List.NoDup (l ++ [a]).
Proof.
  induction l as [|b t IH]; simpl; intros Hnd Hfresh.
  - constructor; [intros []|constructor].
  - inversion Hnd as [|b' t' Hb Ht]; subst. constructor.
    + intros Hin. apply in_app_iff in Hin. destruct Hin as [Hin|[<-|[]]]; [auto|].
      apply Hfresh. now left.
    + apply IH; [exact Ht|]. intros Hin. apply Hfresh. now right.
Qed.

Lemma ids_of_filter (f : Region -> bool) (rs : list Region) (i : Z) :
  In i (map id (List.filter f rs)) -> In i (map id rs).
Proof.
  intros Hin. apply in_map_iff in Hin. destruct Hin as [r [<- Hr]].
  apply filter_In in Hr. apply in_map, Hr.
Qed.

Lemma id_not_in_filter (i : Z) (rs : list Region) :
  ~ In i (map id (List.filter (fun r' => negb (id r' =? i)%Z) rs)).
Proof.
  intros Hin. apply in_map_iff in Hin. destruct Hin as [r [Hid Hr]].
  apply filter_In in Hr. destruct Hr as [_ Hne]. rewrite Hid, Z.eqb_refl in Hne.
  discriminate.
Qed.

(** A drag sample changes the parts of the dragged region, and nothing
    else of the collection. *)
Lemma dragUpdater_shape (img : option Image) (z : Q) (mode : DragMode) (pos : Point)
    (d : DraggingState) (rs rs' : list Region) (offset : Point) :
  dragUpdater img z mode pos d rs = Some (rs', offset) ->
  rs' = rs \/
  exists sel k r ps,
    selectedRegion d = Some sel /\ findRegion (id sel) rs = Some (k, r) /\
    rs' = set_nth rs k (mkRegion (id r) ps).
Proof.
  unfold dragUpdater.
  destruct (selectedRegion d) as [sel|]; [|intros [= <- _]; now left].
  destruct (findRegion (id sel) rs) as [[k r]|] eqn:Hfind; [|intros [= <- _]; now left].
  intros Hrun. right. exists sel, k, r. revert Hrun.
  destruct mode;
    try (destruct (partsCanMove img _ _ (parts r)) as [[|]|]);
    try (destruct (nthZ (parts r) (selectedPartIndex d)) as [[x y w h|points]|]);
    try (destruct (negb (selectedVertexIndex d =? -1)%Z));
    try (destruct (nthZ points (selectedVertexIndex d)));
    intros E; try discriminate; injection E as <- _; eauto.
Qed.

Lemma updater_ids (rs rs' : list Region) (i : Z) (k : nat) (r : Region) (ps : list Part) :
  findRegion i rs = Some (k, r) -> rs' = set_nth rs k (mkRegion (id r) ps) ->
  map id rs' = map id rs.
Proof.
  intros Hfind ->. destruct (findRegion_Some _ _ _ _ Hfind) as [Hk _].
  now apply map_id_set_nth.
Qed.

(** X12.  Region ids stay pairwise distinct: every handler keeps them so,
    provided the value [Date.now()] gives to a new or merged region is not
    already the id of a region. *)
Theorem handle_keeps_ids_distinct (ev : Event) (st st' : Editor) :
  List.NoDup (map id (regions st)) ->
  freshClock ev st ->
  handle ev st = Some st' ->
  List.NoDup (map id (regions st')).
Proof.
  intros Hnd Hfresh. destruct ev; simpl.
  - intros [= <-]. constructor.
  - intros [= <-]. unfold addRegion. destruct (originalImage st); [|exact Hnd].
    simpl. rewrite map_app. now apply NoDup_snoc.
  - intros [= <-]. unfold toggleSelectMode.
    destruct (isWaitingForPointClick st), (isDeletePointMode st), (isDeleteRegionMode st);
      exact Hnd.
  - intros [= <-]. unfold startAddPointMode.
    destruct (isWaitingForPointClick st), (isSelectMode st), (isDeletePointMode st),
      (isDeleteRegionMode st); exact Hnd.
  - intros [= <-]. unfold toggleDeletePointMode.
    destruct (isDeletePointMode st), (isSelectMode st), (isWaitingForPointClick st),
      (isDeleteRegionMode st); exact Hnd.
  - intros [= <-]. unfold toggleDeleteRegionMode.
    destruct (isDeleteRegionMode st), (isSelectMode st), (isWaitingForPointClick st),
      (isDeletePointMode st); exact Hnd.
  - intros [= <-]. unfold mergeSelectedRegions.
    destruct (size (multiSelectRegions st) <? 2)%nat; [exact Hnd|].
    rewrite partitionSelected_filter. simpl. rewrite map_app. apply NoDup_snoc.
    + now apply NoDup_ids_filter.
    + intros Hin. apply Hfresh. eapply ids_of_filter; eauto.
  - intros [= <-]. unfold clearAllRegions.
    destruct (isWaitingForPointClick st), (isDeletePointMode st), (isDeleteRegionMode st);
      constructor.
  - unfold onMouseDown.
    destruct (negb (button =? 0)%Z); [now intros [= <-]|].
    destruct pos as [p|]; [|now intros [= <-]].
    destruct (isDeleteRegionMode st).
    { destruct (hit_region (getHitRegion st p)); [|now intros [= <-]].
      destruct (isBody _); intros [= <-]; [|exact Hnd]. now apply NoDup_ids_filter. }
    destruct (isWaitingForPointClick st).
    { unfold addPointToPolygon.
      destruct (cl_region _) as [region|]; [|now intros [= <-]].
      destruct (cl_point _); [|now intros [= <-]].
      destruct (negb _ && negb _); [|now intros [= <-]].
      unfold addPointUpdater.
      destruct (findRegion (id region) (regions st)) as [[k r]|] eqn:Hfind;
        [|now intros [= <-]].
      destruct (nthZ (parts r) _); [|discriminate]. intros [= <-]. simpl.
      erewrite updater_ids; eauto. }
    destruct (isDeletePointMode st).
    { destruct (hit_region (getHitRegion st p)) as [region|]; [|now intros [= <-]].
      destruct (hit_part (getHitRegion st p)) as [part|]; [|now intros [= <-]].
      destruct (isPoly part && _); [|now intros [= <-]].
      unfold deletePointUpdater.
      destruct (findRegion (id region) (regions st)) as [[k r]|] eqn:Hfind;
        [|now intros [= <-]].
      destruct (nthZ (parts r) _); [|discriminate]. intros [= <-]. simpl.
      erewrite updater_ids; eauto. }
    destruct (isSelectMode st).
    { destruct (hit_region (getHitRegion st p)); [|now intros [= <-]].
      destruct (isBody _); now intros [= <-]. }
    destruct (hit_region (getHitRegion st p)) as [r|]; [|now intros [= <-]].
    assert (Htop : List.NoDup
              (map id (List.filter (fun r' => negb (id r' =? id r)%Z) (regions st) ++ [r]))).
    { rewrite map_app. apply NoDup_snoc; [now apply NoDup_ids_filter|].
      apply id_not_in_filter. }
    destruct (0 <? size (multiSelectRegions st))%nat; intros [= <-]; exact Htop.
  - unfold onMouseMove. destruct pos as [p|]; [|now intros [= <-]].
    destruct (isDragging (draggingState st));
      [destruct (dragMode (draggingState st)) as [mode|]|].
    + destruct (dragUpdater _ _ _ _ _ _) as [[rs offset]|] eqn:Hdrag; [|discriminate].
      intros [= <-]. simpl.
      destruct (dragUpdater_shape _ _ _ _ _ _ _ _ Hdrag)
        as [->|(sel & k & r & ps & _ & Hfind & Hrs)]; [exact Hnd|].
      erewrite updater_ids; eauto.
    + destruct (isWaitingForPointClick st); now intros [= <-].
    + destruct (isWaitingForPointClick st); now intros [= <-].
  - intros [= <-]. unfold onMouseUp. destruct (isDragging (draggingState st)); exact Hnd.
  - intros [= <-]. exact Hnd.
  - intros [= <-]. exact Hnd.
  - intros [= <-]. unfold fitToScreen. destruct (originalImage st); exact Hnd.
  - intros [= <-]. unfold processRegions. destruct (originalImage st); [|exact Hnd].
    destruct (length (regions st) =? 0)%nat; exact Hnd.
  - intros [= <-]. exact Hnd.
  - intros [= <-]. exact Hnd.
Qed.

Lemma handle_keeps_ids_distinct_witness :
  List.NoDup (map id (regions (mergeSelectedRegions 99 twoSelectedEditor))).
Proof.
  apply (handle_keeps_ids_distinct (MergeSelected 99) twoSelectedEditor).
  - repeat constructor; simpl; intuition discriminate.
  - simpl. intuition discriminate.
  - reflexivity.
Defined.

(** ** Rectangles keep a positive size *)

Lemma Forall_nth_error {A : Type} (P : A -> Prop) (l : list A) (k : nat) (a : A) :
  Forall P l -> nth_error l k = Some a -> P a.
Proof.
  intros Hl Hnth. rewrite List.Forall_forall in Hl. apply Hl. eapply nth_error_In; eauto.
Qed.

Lemma Forall_filter_keep {A : Type} (P : A -> Prop) (f : A -> bool) (l : list A) :
  Forall P l -> Forall P (List.filter f l).
Proof.
  rewrite !List.Forall_forall. intros Hl a Hin. apply filter_In in Hin. apply Hl, Hin.
Qed.

Lemma minSize_positive (z : Q) : 0 < z -> 0 < HANDLE_SIZE / z.
Proof.
  intros Hz. apply Qlt_shift_div_l; [exact Hz|]. unfold HANDLE_SIZE. lra.
Qed.

Lemma resizeRect_positive (img : option Image) (z : Q) (mode : DragMode) (pos : Point)
    (ox oy ow oh : Q) :
  0 < z -> rectPositive (resizeRect img z mode pos ox oy ow oh).
Proof.
  intros Hz. pose proof (minSize_positive z Hz) as Hm. revert Hm.
  unfold resizeRect.
  generalize (clampX img (px pos)) (clampY img (py pos)) (HANDLE_SIZE / z).
  intros cx cy m Hm.
  destruct mode; cbn -[Qltb Qplus Qminus];
    match goal with
    | |- context [Qltb ?a m] => destruct (Qltb a m) eqn:Ew
    end;
    match goal with
    | |- context [Qltb ?a m] => destruct (Qltb a m) eqn:Eh
    end;
    qprop; simpl; split; lra.
Qed.

Lemma movePart_positive (dx dy : Q) (part : Part) :
  rectPositive part -> rectPositive (movePart dx dy part).
Proof. destruct part; simpl; auto. Qed.

Lemma dragUpdater_positive (img : option Image) (z : Q) (mode : DragMode) (pos : Point)
    (d : DraggingState) (rs rs' : list Region) (offset : Point) :
  0 < z ->
  Forall (fun r => Forall rectPositive (parts r)) rs ->
  dragUpdater img z mode pos d rs = Some (rs', offset) ->
  Forall (fun r => Forall rectPositive (parts r)) rs'.
Proof.
  intros Hz Hrs. unfold dragUpdater.
  destruct (selectedRegion d) as [sel|]; [|now intros [= <- _]].
  destruct (findRegion (id sel) rs) as [[k r]|] eqn:Hfind; [|now intros [= <- _]].
  destruct (findRegion_Some _ _ _ _ Hfind) as [Hk _].
  pose proof (Forall_nth_error _ _ _ _ Hrs Hk) as Hr. simpl in Hr.
  assert (Hmoved : forall dx dy, Forall rectPositive (map (movePart dx dy) (parts r))).
  { intros dx dy. apply List.Forall_forall. intros part' Hin.
    apply in_map_iff in Hin. destruct Hin as [part [<- Hin]].
    apply movePart_positive. rewrite List.Forall_forall in Hr. auto. }
  assert (Hstore : forall ps, Forall rectPositive ps ->
            Forall (fun r => Forall rectPositive (parts r))
                   (set_nth rs k (mkRegion (id r) ps))).
  { intros ps Hps. apply set_nth_Forall; assumption. }
  destruct mode;
    try (destruct (partsCanMove img _ _ (parts r)) as [[|]|]);
    try (destruct (nthZ (parts r) (selectedPartIndex d)) as [[x y w h|points]|]);
    try (destruct (negb (selectedVertexIndex d =? -1)%Z));
    try (destruct (nthZ points (selectedVertexIndex d)));
    intros E; try discriminate; injection E as <- _; apply Hstore; auto;
    apply set_nth_Forall; auto; solve [exact I | now apply resizeRect_positive].
Qed.

Lemma onMouseDown_positive (button : Z) (pos : option Point) (st st' : Editor) :
  Forall (fun r => Forall rectPositive (parts r)) (regions st) ->
  onMouseDown button pos st = Some st' ->
  Forall (fun r => Forall rectPositive (parts r)) (regions st').
Proof.
  intros Hrs. unfold onMouseDown.
  destruct (negb (button =? 0)%Z); [now intros [= <-]|].
  destruct pos as [p|]; [|now intros [= <-]].
  destruct (isDeleteRegionMode st).
  { destruct (hit_region (getHitRegion st p)) as [r|]; [|now intros [= <-]].
    destruct (isBody _); intros [= <-]; [|exact Hrs].
    now apply Forall_filter_keep. }
  destruct (isWaitingForPointClick st).
  { unfold addPointToPolygon.
    destruct (cl_region _) as [region|]; [|now intros [= <-]].
    destruct (cl_point _); [|now intros [= <-]].
    destruct (negb _ && negb _); [|now intros [= <-]].
    unfold addPointUpdater.
    destruct (findRegion (id region) (regions st)) as [[k r]|] eqn:Hfind;
      [|now intros [= <-]].
    destruct (findRegion_Some _ _ _ _ Hfind) as [Hk _].
    destruct (nthZ (parts r) _) as [part|]; [|discriminate]. intros [= <-]. simpl.
    apply set_nth_Forall; [exact Hrs|]. simpl.
    apply set_nth_Forall; [exact (Forall_nth_error _ _ _ _ Hrs Hk)|].
    destruct part; exact I. }
  destruct (isDeletePointMode st).
  { destruct (hit_region (getHitRegion st p)) as [region|]; [|now intros [= <-]].
    destruct (hit_part (getHitRegion st p)) as [part|]; [|now intros [= <-]].
    destruct (isPoly part && _); [|now intros [= <-]].
    unfold deletePointUpdater.
    destruct (findRegion (id region) (regions st)) as [[k r]|] eqn:Hfind;
      [|now intros [= <-]].
    destruct (findRegion_Some _ _ _ _ Hfind) as [Hk _].
    destruct (nthZ (parts r) _) as [part'|] eqn:Hpart; [|discriminate].
    destruct (nthZ_Some _ _ _ Hpart) as [_ Hp].
    intros [= <-]. simpl.
    pose proof (Forall_nth_error _ _ _ _ Hrs Hk) as Hr. simpl in Hr.
    apply set_nth_Forall; [exact Hrs|]. simpl.
    apply set_nth_Forall; [exact Hr|].
    pose proof (Forall_nth_error _ _ _ _ Hr Hp) as Hpos.
    destruct part' as [x y w h|points]; simpl; [exact Hpos|].
    destruct (3 <? length points)%nat; exact I. }
  destruct (isSelectMode st).
  { destruct (hit_region (getHitRegion st p)); [|now intros [= <-]].
    destruct (isBody _); now intros [= <-]. }
  destruct (hit_region (getHitRegion st p)) as [r|] eqn:Hhit; [|now intros [= <-]].
  assert (Htop : Forall (fun r => Forall rectPositive (parts r))
            (List.filter (fun r' => negb (id r' =? id r)%Z) (regions st) ++ [r])).
  { apply Forall_app. split; [now apply Forall_filter_keep|].
    constructor; [|constructor].
    apply getHitRegion_In in Hhit. rewrite List.Forall_forall in Hrs. auto. }
  destruct (0 <? size (multiSelectRegions st))%nat; intros [= <-]; exact Htop.
Qed.

Lemma onMouseDown_zoom (button : Z) (pos : option Point) (st st' : Editor) :
  onMouseDown button pos st = Some st' -> zoom st' = zoom st.
Proof.
  unfold onMouseDown.
  destruct (negb (button =? 0)%Z); [now intros [= <-]|].
  destruct pos as [p|]; [|now intros [= <-]].
  destruct (isDeleteRegionMode st).
  { destruct (hit_region (getHitRegion st p)); [|now intros [= <-]].
    destruct (isBody _); now intros [= <-]. }
  destruct (isWaitingForPointClick st).
  { unfold addPointToPolygon.
    destruct (cl_region _); [|now intros [= <-]].
    destruct (cl_point _); [|now intros [= <-]].
    destruct (negb _ && negb _); [|now intros [= <-]].
    destruct (addPointUpdater _ _ _ _ _); [|discriminate]. now intros [= <-]. }
  destruct (isDeletePointMode st).
  { destruct (hit_region (getHitRegion st p)); [|now intros [= <-]].
    destruct (hit_part (getHitRegion st p)) as [part|]; [|now intros [= <-]].
    destruct (isPoly part && _); [|now intros [= <-]].
    destruct (deletePointUpdater _ _ _ _); [|discriminate]. now intros [= <-]. }
  destruct (isSelectMode st).
  { destruct (hit_region (getHitRegion st p)); [|now intros [= <-]].
    destruct (isBody _); now intros [= <-]. }
  destruct (hit_region (getHitRegion st p)); [|now intros [= <-]].
  destruct (0 <? size (multiSelectRegions st))%nat; now intros [= <-].
Qed.

Lemma onMouseMove_zoom (pos : option Point) (st st' : Editor) :
  onMouseMove pos st = Some st' -> zoom st' = zoom st.
Proof.
  unfold onMouseMove. destruct pos as [p|]; [|now intros [= <-]].
  destruct (isDragging (draggingState st));
    [destruct (dragMode (draggingState st)) as [mode|]|].
  - destruct (dragUpdater _ _ _ _ _ _) as [[rs offset]|]; [|discriminate].
    now intros [= <-].
  - destruct (isWaitingForPointClick st); now intros [= <-].
  - destruct (isWaitingForPointClick st); now intros [= <-].
Qed.

(** X13.  The geometry of the editor stays sound: when images and
    containers have a positive size, every handler keeps the zoom factor
    positive, and the width and the height of every rectangle positive. *)
Theorem handle_keeps_geometry (ev : Event) (st st' : Editor) :
  geometryOk st -> positiveSizes ev -> handle ev st = Some st' -> geometryOk st'.
Proof.
  intros (Hz & Himg & Hrs) Hev. unfold geometryOk. destruct ev; simpl.
  - intros [= <-]. simpl. destruct Hev as (HW & HH & Hcw & Hch).
    split; [|split; [|constructor]].
    + apply Q.min_glb_lt; [apply Q.min_glb_lt|lra];
        (apply Qlt_shift_div_l; [assumption|lra]).
    + intros img' [= <-]. split; assumption.
  - intros [= <-]. unfold addRegion. destruct (originalImage st) as [im|] eqn:Eim;
      [|rewrite Eim; auto].
    simpl. rewrite Eim. split; [exact Hz|]. split; [exact Himg|].
    apply Forall_app. split; [exact Hrs|]. constructor; [|constructor].
    simpl. constructor; [|constructor]. simpl.
    destruct (Himg im eq_refl) as [HW HH].
    assert (0 < Qmin (naturalWidth im) (naturalHeight im) * 0.25).
    { assert (E : 0.25 == 1 # 4) by reflexivity. rewrite E.
      destruct (Q.min_spec (naturalWidth im) (naturalHeight im)) as [[_ ->]|[_ ->]]; lra. }
    tauto.
  - intros [= <-]. unfold toggleSelectMode.
    destruct (isWaitingForPointClick st), (isDeletePointMode st), (isDeleteRegionMode st);
      simpl; auto.
  - intros [= <-]. unfold startAddPointMode.
    destruct (isWaitingForPointClick st), (isSelectMode st), (isDeletePointMode st),
      (isDeleteRegionMode st); simpl; auto.
  - intros [= <-]. unfold toggleDeletePointMode.
    destruct (isDeletePointMode st), (isSelectMode st), (isWaitingForPointClick st),
      (isDeleteRegionMode st); simpl; auto.
  - intros [= <-]. unfold toggleDeleteRegionMode.
    destruct (isDeleteRegionMode st), (isSelectMode st), (isWaitingForPointClick st),
      (isDeletePointMode st); simpl; auto.
  - intros [= <-]. unfold mergeSelectedRegions.
    destruct (size (multiSelectRegions st) <? 2)%nat; [auto|].
    rewrite partitionSelected_filter. simpl.
    split; [exact Hz|]. split; [exact Himg|].
    apply Forall_app. split; [now apply Forall_filter_keep|].
    constructor; [|constructor]. simpl.
    apply List.Forall_forall. intros part Hin. apply in_flat_map in Hin.
    destruct Hin as [r [Hr Hpart]]. apply filter_In in Hr. destruct Hr as [Hr _].
    rewrite List.Forall_forall in Hrs.
    specialize (Hrs r Hr). rewrite List.Forall_forall in Hrs. auto.
  - intros [= <-]. unfold clearAllRegions.
    destruct (isWaitingForPointClick st), (isDeletePointMode st), (isDeleteRegionMode st);
      simpl; (split; [exact Hz|]; split; [exact Himg|]; constructor).
  - intros Hrun. split; [|split].
    + now rewrite (onMouseDown_zoom _ _ _ _ Hrun).
    + destruct (handle_keeps_image (MouseDown button pos) st st' Hrun)
        as [(img' & cw & ch & Hev')|E]; [discriminate Hev'|now rewrite E].
    + eapply onMouseDown_positive; eauto.
  - intros Hrun. split; [|split].
    + now rewrite (onMouseMove_zoom _ _ _ Hrun).
    + destruct (handle_keeps_image (MouseMove pos) st st' Hrun)
        as [(img' & cw & ch & Hev')|E]; [discriminate Hev'|now rewrite E].
    + revert Hrun. unfold onMouseMove. destruct pos as [p|]; [|now intros [= <-]].
      destruct (isDragging (draggingState st));
        [destruct (dragMode (draggingState st)) as [mode|]|].
      * destruct (dragUpdater _ _ _ _ _ _) as [[rs offset]|] eqn:E; [|discriminate].
        intros [= <-]. simpl. eapply dragUpdater_positive; eauto.
      * destruct (isWaitingForPointClick st); now intros [= <-].
      * destruct (isWaitingForPointClick st); now intros [= <-].
  - intros [= <-]. unfold onMouseUp. destruct (isDragging (draggingState st)); simpl; auto.
  - intros [= <-]. simpl. split; [|auto].
    pose proof (clamped_zoom_bounds (zoom st * (1 - deltaY * 0.001))) as [Hlo _].
    unfold MIN_ZOOM in Hlo at 1. lra.
  - intros [= <-]. simpl. split; [|auto].
    pose proof (clamped_zoom_bounds (zoom st * factor)) as [Hlo _].
    unfold MIN_ZOOM in Hlo at 1. lra.
  - intros [= <-]. unfold fitToScreen. destruct (originalImage st) as [im|] eqn:Eim;
      [|rewrite Eim; auto].
    simpl. rewrite Eim. split; [|auto].
    destruct (Himg im eq_refl) as [HW HH]. destruct Hev as [Hcw Hch].
    apply Q.min_glb_lt; [apply Q.min_glb_lt|lra];
      (apply Qlt_shift_div_l; [assumption|lra]).
  - intros [= <-]. unfold processRegions. destruct (originalImage st) as [im|] eqn:Eim;
      [|rewrite Eim; auto].
    destruct (length (regions st) =? 0)%nat; simpl; rewrite Eim; auto.
  - intros [= <-]. simpl. auto.
  - intros [= <-]. simpl. auto.
Qed.

Lemma handle_keeps_geometry_witness :
  geometryOk (handleWheel 500 resizeEditor).
Proof.
  apply (handle_keeps_geometry (Wheel 500) resizeEditor).
  - split; [reflexivity|]. split.
    + intros img [= <-]. split; reflexivity.
    + repeat constructor.
  - exact I.
  - reflexivity.
Defined.

(** ** What a hit result can be *)

Lemma hitRect_gated (st : Editor) (h2 : Q) (pos : Point) (region : Region) (j : Z)
    (x y w h : Q) (r : HitResult) :
  hitRect st h2 pos region j x y w h = Some r -> hitGated st r.
Proof.
  unfold hitRect, hitGated, activeModes.
  generalize (near (px pos) x h2 && near (py pos) y h2).
  generalize (near (px pos) (x + w) h2 && near (py pos) y h2).
  generalize (near (px pos) (x + w) h2 && near (py pos) (y + h) h2).
  generalize (near (px pos) x h2 && near (py pos) (y + h) h2).
  generalize (near (px pos) (x + w / 2) h2 && near (py pos) y h2).
  generalize (near (px pos) (x + w) h2 && near (py pos) (y + h / 2) h2).
  generalize (near (px pos) (x + w / 2) h2 && near (py pos) (y + h) h2).
  generalize (near (px pos) x h2 && near (py pos) (y + h / 2) h2).
  generalize (Qgtb (px pos) x && Qltb (px pos) (x + w) && Qgtb (py pos) y
              && Qltb (py pos) (y + h)).
  intros b1 b2 b3 b4 b5 b6 b7 b8 b9.
  destruct (isSelectMode st), (isWaitingForPointClick st), (isDeletePointMode st),
    (isDeleteRegionMode st); cbn [negb andb];
    (destruct b9; [|destruct b8; [|destruct b7; [|destruct b6; [|destruct b5;
      [|destruct b4; [|destruct b3; [|destruct b2]]]]]]]);
    destruct b1; intros E; try discriminate E; injection E as <-; cbn;
    repeat split; try discriminate; eauto.
Qed.

Lemma hitVertices_gated (st : Editor) (h2 : Q) (pos : Point) (region : Region) (j : Z)
    (part : Part) (ps : list Point) (k : Z) (r : HitResult) :
  hitVertices st h2 pos region j part k ps = Some r ->
  hit_mode r = Some DVertex /\ hit_region r = Some region /\ hit_part r = Some part /\
  (isDeletePointMode st = true \/
   (isSelectMode st = false /\ isWaitingForPointClick st = false)) /\
  exists i p, nth_error ps i = Some p /\ hit_vertex r = Some p /\
              hit_vertexIndex r = (k + Z.of_nat i)%Z.
Proof.
  revert k; induction ps as [|p t IH]; intros k; simpl; [discriminate|].
  assert (Hrest : hitVertices st h2 pos region j part (k + 1) t = Some r ->
    hit_mode r = Some DVertex /\ hit_region r = Some region /\ hit_part r = Some part /\
    (isDeletePointMode st = true \/
     (isSelectMode st = false /\ isWaitingForPointClick st = false)) /\
    exists i p0, nth_error (p :: t) i = Some p0 /\ hit_vertex r = Some p0 /\
                 hit_vertexIndex r = (k + Z.of_nat i)%Z).
  { intros E. destruct (IH _ E) as (Hm & Hr & Hp & Hg & i & p0 & Hn & Hv & Hi).
    repeat (split; [assumption|]). exists (S i), p0. repeat split; auto.
    rewrite Hi. lia. }
  destruct (hypot_lt _ _ _); [|exact Hrest].
  destruct (isDeletePointMode st) eqn:Edp.
  { intros [= <-]. simpl. repeat split; auto. exists 0%nat, p. repeat split. lia. }
  destruct (isSelectMode st) eqn:Esel; [exact Hrest|].
  destruct (isWaitingForPointClick st) eqn:Ew; [exact Hrest|].
  intros [= <-]. simpl. repeat split; auto. exists 0%nat, p. repeat split. lia.
Qed.

Lemma hitPart_gated (st : Editor) (h2 : Q) (pos : Point) (region : Region) (j : Z)
    (part : Part) (r : HitResult) :
  hitPart st h2 pos region j part = Some r -> hitGated st r.
Proof.
  destruct part as [x y w h|points]; simpl; [apply hitRect_gated|].
  unfold hitPoly.
  destruct (hitVertices st h2 pos region j (PolyPart points) 0 points) as [r'|] eqn:E.
  - intros [= <-].
    destruct (hitVertices_gated _ _ _ _ _ _ _ _ _ E)
      as (Hm & Hr & Hp & Hg & i & p & Hn & Hv & Hi).
    unfold hitGated. rewrite Hm, Hr. split; [discriminate|]. split; [exact Hg|].
    exists points, p. repeat split; auto.
    rewrite Hi. replace (0 + Z.of_nat i)%Z with (Z.of_nat i) by lia.
    unfold nthZ. destruct (Z.ltb_spec (Z.of_nat i) 0); [lia|].
    now rewrite Nat2Z.id.
  - destruct (pointInPolygon pos points); [|discriminate].
    intros [= <-]. unfold hitGated. simpl. repeat split; discriminate.
Qed.

Lemma hitRegions_gated (st : Editor) (h2 : Q) (pos : Point) (l : list Region) :
  hitGated st (hitRegions st h2 pos l).
Proof.
  induction l as [|region t IH]; simpl; [reflexivity|].
  destruct (hitParts st h2 pos region 0 (parts region)) as [r|] eqn:E; [|exact IH].
  clear IH. revert E. generalize 0%Z. generalize (parts region).
  intros ps. induction ps as [|part rest IHp]; intros j; simpl; [discriminate|].
  destruct (hitPart st h2 pos region j part) eqn:Ep.
  - intros [= <-]. eapply hitPart_gated; eauto.
  - apply IHp.
Qed.

(** X14.  What the hit classifier can return.  A result names a region
    exactly when it names a mode, and is the empty result otherwise.  A
    resize handle is returned only when the four modes are off, and a
    vertex only in delete-point mode, or with the select and add-point
    modes off: so it is returned in delete-region mode as well, where the
    click then deletes nothing.  A vertex index other than -1 goes with the
    vertex mode, and indexes the returned vertex in the returned polygon. *)
Theorem hit_result_respects_modes (st : Editor) (pos : Point) :
  let hit := getHitRegion st pos in
  (hit_region hit = None <-> hit_mode hit = None) /\
  (hit_mode hit = None -> hit = noHit) /\
  (forall m, hit_mode hit = Some m -> isHandle m = true ->
     activeModes st = [false; false; false; false]) /\
  (hit_mode hit = Some DVertex ->
     isDeletePointMode st = true \/
     (isSelectMode st = false /\ isWaitingForPointClick st = false)) /\
  (hit_vertexIndex hit <> (-1)%Z <-> hit_mode hit = Some DVertex) /\
  (hit_mode hit = Some DVertex ->
     exists points p,
       hit_part hit = Some (PolyPart points) /\ hit_vertex hit = Some p /\
       nthZ points (hit_vertexIndex hit) = Some p) /\
  (isDeleteRegionMode st = true -> isDeletePointMode st = false ->
   isSelectMode st = false -> isWaitingForPointClick st = false ->
   hit_mode hit = Some DVertex ->
   onMouseDown 0 (Some pos) st = Some st).
Proof.
  intros hit. pose proof (hitRegions_gated st (HANDLE_SIZE / zoom st / 2) pos
                            (rev (regions st))) as Hg.
  fold (getHitRegion st pos) in Hg. fold hit in Hg. unfold hitGated in Hg.
  assert (Hvertex : hit_mode hit = Some DVertex -> hit_vertexIndex hit <> (-1)%Z).
  { intros Hm. rewrite Hm in Hg. destruct Hg as (_ & _ & points & p & _ & _ & Hn).
    intros Hi. rewrite Hi in Hn. discriminate Hn. }
  split; [|split; [|split; [|split; [|split; [|split]]]]].
  - destruct (hit_mode hit) as [m|] eqn:Hm.
    + split; [|discriminate]. intros Hr.
      destruct m; destruct Hg as [Hreg _]; contradiction.
    + rewrite Hg. split; reflexivity.
  - intros Hm. now rewrite Hm in Hg.
  - intros m Hm Hh. rewrite Hm in Hg. destruct m; try discriminate Hh; apply Hg.
  - intros Hm. rewrite Hm in Hg. apply Hg.
  - split; [|exact Hvertex].
    intros Hi. destruct (hit_mode hit) as [m|] eqn:Hm.
    + destruct m; try reflexivity;
        destruct Hg as (_ & _ & _ & H4); destruct H4 as [H4 _]; contradiction.
    + rewrite Hg in Hi. simpl in Hi. contradiction.
  - intros Hm. rewrite Hm in Hg. apply Hg.
  - intros Hdr _ _ _ Hm. unfold onMouseDown. simpl. rewrite Hdr. fold hit.
    rewrite Hm. simpl. destruct (hit_region hit); reflexivity.
Qed.

(** ** Clicks *)

Lemma filter_all {A : Type} (f : A -> bool) (l : list A) :
  (forall a, In a l -> f a = true) -> List.filter f l = l.
Proof.
  induction l as [|a t IH]; simpl; intros Hall; [reflexivity|].
  rewrite (Hall a) by now left. f_equal. apply IH. intros b Hb. apply Hall. now right.
Qed.

(** With distinct ids, filtering out the id of a region of the collection
    removes that region and no other. *)
Lemma filter_out_id (rs : list Region) (r : Region) :
  List.NoDup (map id rs) -> In r rs ->
  exists l1 l2, rs = l1 ++ r :: l2 /\
    List.filter (fun r' => negb (id r' =? id r)%Z) rs = l1 ++ l2.
Proof.
  induction rs as [|a t IH]; simpl; intros Hnd Hin; [destruct Hin|].
  inversion Hnd as [|i ids Hfresh Hrest]; subst.
  destruct Hin as [->|Hin].
  - exists [], t. split; [reflexivity|]. rewrite Z.eqb_refl. simpl.
    apply filter_all. intros b Hb. destruct (Z.eqb_spec (id b) (id r)) as [E|E]; [|reflexivity].
    exfalso. apply Hfresh. rewrite <- E. now apply in_map.
  - destruct (IH Hrest Hin) as (l1 & l2 & Ht & Hf).
    exists (a :: l1), l2. split; [now rewrite Ht|].
    destruct (Z.eqb_spec (id a) (id r)) as [E|E]; simpl; [|now rewrite Hf].
    exfalso. apply Hfresh. rewrite E. now apply in_map.
Qed.

Lemma hitRect_body_mode (st : Editor) (h2 : Q) (pos : Point) (region : Region) (j : Z)
    (x y w h : Q) (r : HitResult) :
  hitRect st h2 pos region j x y w h = Some r -> hit_mode r = Some DBody ->
  partBodyContains pos (RectPart x y w h) = true.
Proof.
  unfold hitRect, partBodyContains.
  generalize (negb (isSelectMode st) && negb (isWaitingForPointClick st)
              && negb (isDeletePointMode st) && negb (isDeleteRegionMode st)).
  generalize (near (px pos) x h2 && near (py pos) y h2).
  generalize (near (px pos) (x + w) h2 && near (py pos) y h2).
  generalize (near (px pos) (x + w) h2 && near (py pos) (y + h) h2).
  generalize (near (px pos) x h2 && near (py pos) (y + h) h2).
  generalize (near (px pos) (x + w / 2) h2 && near (py pos) y h2).
  generalize (near (px pos) (x + w) h2 && near (py pos) (y + h / 2) h2).
  generalize (near (px pos) (x + w / 2) h2 && near (py pos) (y + h) h2).
  generalize (near (px pos) x h2 && near (py pos) (y + h / 2) h2).
  intros b1 b2 b3 b4 b5 b6 b7 b8 b9.
  destruct (Qgtb (px pos) x && Qltb (px pos) (x + w) && Qgtb (py pos) y
            && Qltb (py pos) (y + h)); [reflexivity|].
  destruct b9; [destruct b8; [|destruct b7; [|destruct b6; [|destruct b5;
    [|destruct b4; [|destruct b3; [|destruct b2; [|destruct b1]]]]]]]|];
    intros E Hm; try discriminate E; injection E as <-; discriminate Hm.
Qed.

Lemma hitPart_body_mode (st : Editor) (h2 : Q) (pos : Point) (region : Region) (j : Z)
    (part : Part) (r : HitResult) :
  hitPart st h2 pos region j part = Some r -> hit_mode r = Some DBody ->
  partBodyContains pos part = true.
Proof.
  destruct part as [x y w h|points]; simpl; [apply hitRect_body_mode|].
  unfold hitPoly.
  destruct (hitVertices st h2 pos region j (PolyPart points) 0 points) as [r'|] eqn:E.
  - intros [= <-] Hm.
    destruct (hitVertices_gated _ _ _ _ _ _ _ _ _ E) as (Hv & _). congruence.
  - destruct (pointInPolygon pos points); [reflexivity|discriminate].
Qed.

Lemma hitParts_body_mode (st : Editor) (h2 : Q) (pos : Point) (region : Region)
    (ps : list Part) (j : Z) (r : HitResult) :
  hitParts st h2 pos region j ps = Some r -> hit_mode r = Some DBody ->
  existsb (partBodyContains pos) ps = true.
Proof.
  revert j; induction ps as [|part t IH]; intros j; simpl; [discriminate|].
  destruct (hitPart st h2 pos region j part) eqn:E.
  - intros [= <-] Hm. now rewrite (hitPart_body_mode _ _ _ _ _ _ _ E Hm).
  - intros Hr Hm. rewrite (IH _ Hr Hm). apply orb_true_r.
Qed.

(** The result of the scan is the hit of the region it names. *)
Lemma hitRegions_source (st : Editor) (h2 : Q) (pos : Point) (l : list Region) (r : Region) :
  hit_region (hitRegions st h2 pos l) = Some r ->
  hitParts st h2 pos r 0 (parts r) = Some (hitRegions st h2 pos l).
Proof.
  induction l as [|a t IH]; simpl; [discriminate|].
  destruct (hitParts st h2 pos a 0 (parts a)) as [h|] eqn:E; [|exact IH].
  intros Hr. rewrite (hitParts_region _ _ _ _ _ _ _ E) in Hr. injection Hr as <-.
  exact E.
Qed.

(** A body hit names a region that has the pointer inside one of its
    parts. *)
Lemma body_hit_contains (st : Editor) (pos : Point) (r : Region) :
  hit_region (getHitRegion st pos) = Some r ->
  hit_mode (getHitRegion st pos) = Some DBody ->
  bodyContains pos r = true.
Proof.
  unfold getHitRegion. intros Hr Hm. apply hitRegions_source in Hr.
  eapply hitParts_body_mode; eauto.
Qed.

(** X15.  A click in delete-region mode.  With distinct region ids, a
    click on the body of a region removes that region, which has the
    pointer inside one of its parts, and leaves the others in their order;
    any other click changes nothing.  The mode stays on, and the
    multi-selection and the processed images are left as they were, so the
    id of a deleted region can remain selected. *)
Theorem delete_region_click_removes_hit_region (st : Editor) (pos : Point) :
  List.NoDup (map id (regions st)) ->
  isDeleteRegionMode st = true ->
  let hit := getHitRegion st pos in
  exists st',
    onMouseDown 0 (Some pos) st = Some st' /\
    match hit_region hit, hit_mode hit with
    | Some r, Some DBody =>
        bodyContains pos r = true /\
        exists l1 l2, regions st = l1 ++ r :: l2 /\ regions st' = l1 ++ l2
    | _, _ => st' = st
    end /\
    isDeleteRegionMode st' = true /\
    multiSelectRegions st' = multiSelectRegions st /\
    processedImages st' = processedImages st.
Proof.
  intros Hnd Hmode hit. unfold onMouseDown. simpl. rewrite Hmode. fold hit.
  destruct (hit_region hit) as [r|] eqn:Hr; [|exists st; auto].
  destruct (hit_mode hit) as [[]|] eqn:Hm; simpl;
    try (exists st; repeat split; auto; fail).
  eexists. split; [reflexivity|]. simpl. repeat split; auto.
  - now apply (body_hit_contains st pos r).
  - apply filter_out_id; [exact Hnd|]. now apply (getHitRegion_In st pos).
Qed.

Lemma delete_region_click_removes_hit_region_witness :
  exists st',
    onMouseDown 0 (Some (mkPoint 400 300))
      (toggleDeleteRegionMode twoSelectedEditor) = Some st' /\
    isDeleteRegionMode st' = true /\
    multiSelectRegions st' = multiSelectRegions (toggleDeleteRegionMode twoSelectedEditor).
Proof.
  destruct (delete_region_click_removes_hit_region
              (toggleDeleteRegionMode twoSelectedEditor) (mkPoint 400 300))
    as (st' & Hrun & _ & Hmode & Hsel & _).
  - repeat constructor; simpl; intuition discriminate.
  - reflexivity.
  - exists st'. auto.
Defined.

Lemma toggleSelected_spec (i j : Z) (s : gset Z) :
  j ∈ toggleSelected i s <-> (j = i /\ i ∉ s) \/ (j <> i /\ j ∈ s).
Proof.
  unfold toggleSelected. destruct (bool_decide (i ∈ s)) eqn:E.
  - apply bool_decide_eq_true in E.
    rewrite elem_of_difference, elem_of_singleton. split.
    + intros [Hj Hne]. right. auto.
    + intros [[_ Hn]|[Hne Hj]]; [contradiction|auto].
  - apply bool_decide_eq_false in E.
    rewrite elem_of_union, elem_of_singleton. split.
    + intros [Hj | ->]; [|left; auto].
      destruct (decide (j = i)) as [->|Hne]; [contradiction|right; auto].
    + intros [[-> _]|[_ Hj]]; auto.
Qed.

Lemma toggleSelected_twice (i : Z) (s : gset Z) :
  toggleSelected i (toggleSelected i s) = s.
Proof.
  apply set_eq. intros x. rewrite !toggleSelected_spec. split.
  - intros [[-> Hn]|[Hne [[-> _]|[_ Hx]]]]; [|contradiction|exact Hx].
    destruct (decide (i ∈ s)) as [Hi|Hi]; [exact Hi|].
    exfalso. apply Hn. left. auto.
  - intros Hx. destruct (decide (x = i)) as [->|Hne].
    + left. split; [reflexivity|].
      intros [[_ Hn]|[Hne _]]; contradiction.
    + right. split; [exact Hne|]. right. auto.
Qed.

(** X16.  A click in select mode on the body of a region toggles the id
    of that region in the multi-selection and changes nothing else: the
    membership of the id is inverted, the other ids keep theirs, and a
    second click at the same place restores the state. *)
Theorem select_click_toggles_membership (st : Editor) (pos : Point) (r : Region) :
  isDeleteRegionMode st = false ->
  isWaitingForPointClick st = false ->
  isDeletePointMode st = false ->
  isSelectMode st = true ->
  hit_region (getHitRegion st pos) = Some r ->
  hit_mode (getHitRegion st pos) = Some DBody ->
  exists st1,
    onMouseDown 0 (Some pos) st = Some st1 /\
    regions st1 = regions st /\
    (id r ∈ multiSelectRegions st1 <-> id r ∉ multiSelectRegions st) /\
    (forall i, i <> id r ->
       (i ∈ multiSelectRegions st1 <-> i ∈ multiSelectRegions st)) /\
    onMouseDown 0 (Some pos) st1 = Some st.
Proof.
  intros Hdr Hw Hdp Hsel Hr Hm.
  exists (setMultiSelectRegions (toggleSelected (id r) (multiSelectRegions st)) st).
  assert (Hfirst : onMouseDown 0 (Some pos) st =
            Some (setMultiSelectRegions (toggleSelected (id r) (multiSelectRegions st)) st)).
  { unfold onMouseDown. simpl. rewrite Hdr, Hw, Hdp, Hsel, Hr, Hm. reflexivity. }
  split; [exact Hfirst|]. split; [reflexivity|].
  split; [|split].
  - simpl. rewrite toggleSelected_spec. split.
    + intros [[_ Hn]|[Hne _]]; [exact Hn|contradiction].
    + intros Hn. left. auto.
  - intros i Hi. simpl. rewrite toggleSelected_spec. split.
    + intros [[-> _]|[_ Hin]]; [contradiction|exact Hin].
    + intros Hin. right. auto.
  - set (st1 := setMultiSelectRegions _ st).
    assert (Hhit : getHitRegion st1 pos = getHitRegion st pos)
      by (apply getHitRegion_inputs; reflexivity).
    unfold onMouseDown. simpl negb. cbv iota.
    change (isDeleteRegionMode st1) with (isDeleteRegionMode st).
    change (isWaitingForPointClick st1) with (isWaitingForPointClick st).
    change (isDeletePointMode st1) with (isDeletePointMode st).
    change (isSelectMode st1) with (isSelectMode st).
    rewrite Hdr, Hw, Hdp, Hsel, Hhit, Hr, Hm. simpl isBody. cbv iota.
    f_equal. unfold st1. simpl multiSelectRegions.
    rewrite toggleSelected_twice. destruct st; reflexivity.
Qed.

Lemma select_click_toggles_membership_witness :
  exists st1,
    onMouseDown 0 (Some (mkPoint 325 225)) (toggleSelectMode stackedEditor) = Some st1 /\
    onMouseDown 0 (Some (mkPoint 325 225)) st1 = Some (toggleSelectMode stackedEditor).
Proof.
  destruct (select_click_toggles_membership (toggleSelectMode stackedEditor)
              (mkPoint 325 225) squareA)
    as (st1 & Hfirst & _ & _ & _ & Hsecond).
  - reflexivity.
  - reflexivity.
  - reflexivity.
  - reflexivity.
  - vm_compute. reflexivity.
  - vm_compute. reflexivity.
  - exists st1. split; [exact Hfirst|exact Hsecond].
Defined.

(** X17.  A press with the four modes off on a feature of a region starts
    a drag and raises the region.  With distinct ids, the region is taken
    out of its place and put last, the others keeping their order; the
    drag state records the region, the part, the vertex, the mode and the
    pointer position; the cursor is the one of the hit, the multi-selection
    is emptied, and the raised region answers the same hit afterwards. *)
Theorem press_starts_drag_and_raises_region (st : Editor) (pos : Point) (r : Region) :
  List.NoDup (map id (regions st)) ->
  activeModes st = [false; false; false; false] ->
  hit_region (getHitRegion st pos) = Some r ->
  let hit := getHitRegion st pos in
  exists st' l1 l2,
    onMouseDown 0 (Some pos) st = Some st' /\
    regions st = l1 ++ r :: l2 /\
    regions st' = l1 ++ l2 ++ [r] /\
    Permutation (regions st') (regions st) /\
    draggingState st' =
      mkDragging true (Some r) (hit_partIndex hit) (hit_vertexIndex hit) (hit_mode hit) pos /\
    cursor st' = hit_cursor hit /\
    multiSelectRegions st' = ∅ /\
    getHitRegion st' pos = hit.
Proof.
  intros Hnd Hmodes Hr hit. unfold activeModes in Hmodes.
  injection Hmodes as Hsel Hw Hdp Hdr.
  destruct (filter_out_id (regions st) r Hnd (getHitRegion_In st pos r Hr))
    as (l1 & l2 & Hsplit & Hfilter).
  assert (Hpos : mkPoint (px pos) (py pos) = pos) by now destruct pos.
  assert (Hrun : exists st',
    onMouseDown 0 (Some pos) st = Some st' /\
    regions st' = l1 ++ l2 ++ [r] /\
    draggingState st' =
      mkDragging true (Some r) (hit_partIndex hit) (hit_vertexIndex hit) (hit_mode hit) pos /\
    cursor st' = hit_cursor hit /\
    multiSelectRegions st' = ∅ /\
    isSelectMode st' = isSelectMode st /\
    isWaitingForPointClick st' = isWaitingForPointClick st /\
    isDeletePointMode st' = isDeletePointMode st /\
    isDeleteRegionMode st' = isDeleteRegionMode st /\
    zoom st' = zoom st).
  { unfold onMouseDown. simpl negb. cbv iota.
    rewrite Hdr, Hw, Hdp, Hsel. unfold hit. rewrite Hr, Hfilter, Hpos, <- app_assoc.
    destruct (0 <? size (multiSelectRegions st))%nat eqn:Esz.
    - eexists. split; [reflexivity|]. repeat split; assumption.
    - eexists. split; [reflexivity|]. repeat split; try assumption. simpl.
      apply Nat.ltb_ge in Esz. apply leibniz_equiv, size_empty_inv. lia. }
  destruct Hrun as (st' & Hdown & Hregs & Hdrag & Hcur & Hms & Hs1 & Hs2 & Hs3 & Hs4 & Hz).
  exists st', l1, l2. repeat (split; [assumption|]).
  split; [|repeat (split; [assumption|])].
  - rewrite Hregs, Hsplit. apply Permutation_app_head.
    apply Permutation_sym. apply Permutation_cons_append.
  - unfold hit, getHitRegion. rewrite Hz, Hregs.
    rewrite (hitRegions_inputs st' st Hs1 Hs2 Hs3 Hs4).
    rewrite !rev_app_distr. simpl.
    pose proof (hitRegions_source st _ pos _ r Hr) as Hsrc.
    rewrite Hsrc. reflexivity.
Qed.

Lemma press_starts_drag_and_raises_region_witness :
  exists st',
    onMouseDown 0 (Some (mkPoint 325 225)) stackedEditor = Some st' /\
    regions st' = [squareB; squareC; squareA].
Proof.
  destruct (press_starts_drag_and_raises_region stackedEditor (mkPoint 325 225) squareA)
    as (st' & l1 & l2 & Hrun & Hsplit & Hregs & _).
  - repeat constructor; simpl; intuition discriminate.
  - reflexivity.
  - vm_compute. reflexivity.
  - exists st'. split; [exact Hrun|].
    assert (E : onMouseDown 0 (Some (mkPoint 325 225)) stackedEditor =
                Some (setCursor "move"
                  (setRegions [squareB; squareC; squareA]
                    (setDraggingState
                       (mkDragging true (Some squareA) 0 (-1) (Some DBody) (mkPoint 325 225))
                       stackedEditor)))) by (vm_compute; reflexivity).
    rewrite E in Hrun. injection Hrun as <-. reflexivity.
Defined.

(** ** Regions stay inside the image *)

Lemma corners_in_bounds (W H : Q) (part : Part) :
  partInBounds W H part -> rectPositive part ->
  Forall (pointInBounds W H) (cornerPoints part).
Proof.
  destruct part as [x y w h|points]; simpl; [|auto].
  intros (Hx & Hy & Hr & Hb) (Hw & Hh).
  repeat constructor; simpl; lra.
Qed.

Lemma convex_in_range (a b t W : Q) :
  0 <= a <= W -> 0 <= b <= W -> 0 <= t <= 1 -> 0 <= a + t * (b - a) <= W.
Proof.
  intros Ha Hb Ht.
  assert (H1 : 0 <= (1 - t) * a) by (apply Qmult_le_0_compat; lra).
  assert (H2 : 0 <= t * b) by (apply Qmult_le_0_compat; lra).
  assert (H3 : 0 <= (1 - t) * (W - a)) by (apply Qmult_le_0_compat; lra).
  assert (H4 : 0 <= t * (W - b)) by (apply Qmult_le_0_compat; lra).
  assert (E1 : a + t * (b - a) == (1 - t) * a + t * b) by ring.
  assert (E2 : W - (a + t * (b - a)) == (1 - t) * (W - a) + t * (W - b)) by ring.
  split; lra.
Qed.

Lemma distToSegment_in_bounds (W H : Q) (p v w : Point) :
  pointInBounds W H v -> pointInBounds W H w ->
  pointInBounds W H (snd (distToSegment p v w)).
Proof.
  intros (Hv1 & Hv2 & Hv3 & Hv4) (Hw1 & Hw2 & Hw3 & Hw4). unfold distToSegment.
  destruct (Qeq_bool _ 0); cbn [snd].
  - repeat split; assumption.
  - match goal with
    | |- context [Qmax 0 (Qmin 1 ?t0)] =>
        destruct (clamp01 t0) as [Ht _]; set (t := Qmax 0 (Qmin 1 t0)) in *; clearbody t
    end.
    pose proof (convex_in_range (px v) (px w) t W (conj Hv1 Hv2) (conj Hw1 Hw2) Ht)
      as [Hx1 Hx2].
    pose proof (convex_in_range (py v) (py w) t H (conj Hv3 Hv4) (conj Hw3 Hw4) Ht)
      as [Hy1 Hy2].
    unfold pointInBounds. cbn [px py]. repeat split; assumption.
Qed.

(** The point [findClosestEdgePoint] returns is the projection of the
    position on an edge of a part of a region of the collection. *)
Lemma closest_point_source (st : Editor) (pos : Point) (rs : list Region) (q : Point) :
  cl_point (findClosestEdgePoint st pos rs) = Some q ->
  exists region part p1 p2 i,
    In region rs /\ In part (parts region) /\ In (p1, p2, i) (segmentsOf part) /\
    snd (distToSegment pos p1 p2) = q.
Proof.
  pose proof (closestRegions_from rs pos rs noClosest []
                (fun _ H => H) (conj eq_refl eq_refl)) as Hbest.
  cbn [app] in Hbest. unfold findClosestEdgePoint.
  set (best := fold_left _ rs noClosest) in *.
  unfold closestFrom in Hbest.
  destruct (cl_dist2 best) as [d2|]; [|discriminate].
  destruct Hbest as [(region & part & p1 & p2 & newPoint & Hr & Hin & Hpart & Hseg & Hdist & Hpt) _].
  destruct (Qltb _ 0 || Qgtb d2 _); [discriminate|].
  rewrite Hpt. intros [= <-].
  exists region, part, p1, p2, (cl_segmentIndex best).
  split; [exact Hin|]. split; [|split; [exact Hseg|now rewrite Hdist]].
  apply nthZ_Some in Hpart. destruct Hpart as [_ Hpart]. eapply nth_error_In; eauto.
Qed.

Lemma splice_insert_Forall {A : Type} (P : A -> Prop) (l : list A) (i : nat) (a : A) :
  Forall P l -> P a -> Forall P (splice_insert l i a).
Proof.
  intros Hl Ha. unfold splice_insert. apply Forall_app. split.
  - now apply Forall_take.
  - constructor; [exact Ha|]. now apply Forall_drop.
Qed.

Lemma splice_remove_Forall {A : Type} (P : A -> Prop) (l : list A) (i : nat) :
  Forall P l -> Forall P (splice_remove l i).
Proof.
  intros Hl. unfold splice_remove. apply Forall_app. split.
  - now apply Forall_take.
  - now apply Forall_drop.
Qed.

Lemma dragUpdater_in_bounds (im : Image) (z : Q) (mode : DragMode) (pos : Point)
    (d : DraggingState) (rs rs' : list Region) (offset : Point) :
  0 <= naturalWidth im -> 0 <= naturalHeight im ->
  rectsAtLeast (HANDLE_SIZE / z) rs ->
  Forall (regionInBounds (naturalWidth im) (naturalHeight im)) rs ->
  dragUpdater (Some im) z mode pos d rs = Some (rs', offset) ->
  Forall (regionInBounds (naturalWidth im) (naturalHeight im)) rs'.
Proof.
  intros HW HH Hmin Hrs. unfold dragUpdater.
  destruct (selectedRegion d) as [sel|]; [|now intros [= <- _]].
  destruct (findRegion (id sel) rs) as [[k r]|] eqn:Hfind; [|now intros [= <- _]].
  destruct (findRegion_Some _ _ _ _ Hfind) as [Hk _].
  pose proof (Forall_nth_error _ _ _ _ Hrs Hk) as Hr. unfold regionInBounds in Hr.
  assert (Hstore : forall ps,
            Forall (partInBounds (naturalWidth im) (naturalHeight im)) ps ->
            Forall (regionInBounds (naturalWidth im) (naturalHeight im))
                   (set_nth rs k (mkRegion (id r) ps))).
  { intros ps Hps. apply set_nth_Forall; assumption. }
  assert (Hrect : forall x y w h,
            nthZ (parts r) (selectedPartIndex d) = Some (RectPart x y w h) ->
            partInBounds (naturalWidth im) (naturalHeight im)
              (resizeRect (Some im) z mode pos x y w h)).
  { intros x y w h Hpart. apply nthZ_Some in Hpart. destruct Hpart as [_ Hpart].
    pose proof (Forall_nth_error _ _ _ _ Hr Hpart) as Hin.
    destruct (Hmin r x y w h) as [Hw Hh];
      [eapply nth_error_In; eauto|eapply nth_error_In; eauto|].
    now apply resize_in_bounds. }
  assert (Hpoly : forall points,
            nthZ (parts r) (selectedPartIndex d) = Some (PolyPart points) ->
            partInBounds (naturalWidth im) (naturalHeight im)
              (PolyPart (set_nth points (Z.to_nat (selectedVertexIndex d))
                           (mkPoint (clampX (Some im) (px pos)) (clampY (Some im) (py pos)))))).
  { intros points Hpart. apply nthZ_Some in Hpart. destruct Hpart as [_ Hpart].
    pose proof (Forall_nth_error _ _ _ _ Hr Hpart) as Hin. simpl in Hin. simpl.
    apply set_nth_Forall; [exact Hin|]. now apply vertex_drag_in_bounds. }
  destruct mode;
    try (destruct (partsCanMove (Some im) _ _ (parts r)) as [[|]|] eqn:Hmove);
    try (destruct (nthZ (parts r) (selectedPartIndex d)) as [[x y w h|points]|] eqn:Hpart);
    try (destruct (negb (selectedVertexIndex d =? -1)%Z));
    try (destruct (nthZ points (selectedVertexIndex d)));
    intros E; try discriminate; injection E as <- _; apply Hstore; auto;
    solve [ now apply body_drag_in_bounds
          | apply set_nth_Forall; auto ].
Qed.

Lemma onMouseDown_in_bounds (W H : Q) (button : Z) (pos : option Point) (st st' : Editor) :
  Forall (fun r => Forall rectPositive (parts r)) (regions st) ->
  Forall (regionInBounds W H) (regions st) ->
  onMouseDown button pos st = Some st' ->
  Forall (regionInBounds W H) (regions st').
Proof.
  intros Hpos Hrs. unfold onMouseDown.
  destruct (negb (button =? 0)%Z); [now intros [= <-]|].
  destruct pos as [p|]; [|now intros [= <-]].
  destruct (isDeleteRegionMode st).
  { destruct (hit_region (getHitRegion st p)) as [r|]; [|now intros [= <-]].
    destruct (isBody _); intros [= <-]; [|exact Hrs].
    now apply Forall_filter_keep. }
  destruct (isWaitingForPointClick st).
  { unfold addPointToPolygon.
    destruct (cl_region _) as [region|]; [|now intros [= <-]].
    destruct (cl_point _) as [newPoint|] eqn:Hpt; [|now intros [= <-]].
    destruct (negb _ && negb _); [|now intros [= <-]].
    assert (Hnew : pointInBounds W H newPoint).
    { destruct (closest_point_source _ _ _ _ Hpt)
        as (region' & part' & p1 & p2 & i & Hin & Hpart & Hseg & <-).
      rewrite List.Forall_forall in Hrs, Hpos.
      pose proof (Hrs region' Hin) as Hb. pose proof (Hpos region' Hin) as Hp.
      unfold regionInBounds in Hb. rewrite List.Forall_forall in Hb, Hp.
      pose proof (corners_in_bounds W H part' (Hb part' Hpart) (Hp part' Hpart)) as Hc.
      destruct (segmentsOf_joinsCorners _ _ Hseg) as (_ & _ & H1 & H2).
      cbn [fst snd] in H1, H2.
      apply distToSegment_in_bounds; eapply Forall_nth_error; eauto. }
    unfold addPointUpdater.
    destruct (findRegion (id region) (regions st)) as [[k r]|] eqn:Hfind;
      [|now intros [= <-]].
    destruct (findRegion_Some _ _ _ _ Hfind) as [Hk _].
    destruct (nthZ (parts r) _) as [part|] eqn:Hpart; [|discriminate].
    destruct (nthZ_Some _ _ _ Hpart) as [_ Hp].
    intros [= <-]. simpl.
    pose proof (Forall_nth_error _ _ _ _ Hrs Hk) as Hr. unfold regionInBounds in Hr.
    pose proof (Forall_nth_error _ _ _ _ Hpos Hk) as Hrp. simpl in Hrp.
    apply set_nth_Forall; [exact Hrs|]. unfold regionInBounds. simpl.
    apply set_nth_Forall; [exact Hr|].
    pose proof (corners_in_bounds W H part (Forall_nth_error _ _ _ _ Hr Hp)
                  (Forall_nth_error _ _ _ _ Hrp Hp)) as Hc.
    destruct part as [x y w h|points]; simpl; now apply splice_insert_Forall. }
  destruct (isDeletePointMode st).
  { destruct (hit_region (getHitRegion st p)) as [region|]; [|now intros [= <-]].
    destruct (hit_part (getHitRegion st p)) as [part|]; [|now intros [= <-]].
    destruct (isPoly part && _); [|now intros [= <-]].
    unfold deletePointUpdater.
    destruct (findRegion (id region) (regions st)) as [[k r]|] eqn:Hfind;
      [|now intros [= <-]].
    destruct (findRegion_Some _ _ _ _ Hfind) as [Hk _].
    destruct (nthZ (parts r) _) as [part'|] eqn:Hpart; [|discriminate].
    destruct (nthZ_Some _ _ _ Hpart) as [_ Hp].
    intros [= <-]. simpl.
    pose proof (Forall_nth_error _ _ _ _ Hrs Hk) as Hr. unfold regionInBounds in Hr.
    apply set_nth_Forall; [exact Hrs|]. unfold regionInBounds. simpl.
    apply set_nth_Forall; [exact Hr|].
    pose proof (Forall_nth_error _ _ _ _ Hr Hp) as Hb.
    destruct part' as [x y w h|points]; simpl; [exact Hb|].
    destruct (3 <? length points)%nat; [|exact Hb].
    simpl. now apply splice_remove_Forall. }
  destruct (isSelectMode st).
  { destruct (hit_region (getHitRegion st p)); [|now intros [= <-]].
    destruct (isBody _); now intros [= <-]. }
  destruct (hit_region (getHitRegion st p)) as [r|] eqn:Hhit; [|now intros [= <-]].
  assert (Htop : Forall (regionInBounds W H)
            (List.filter (fun r' => negb (id r' =? id r)%Z) (regions st) ++ [r])).
  { apply Forall_app. split; [now apply Forall_filter_keep|].
    constructor; [|constructor].
    apply getHitRegion_In in Hhit. rewrite List.Forall_forall in Hrs. auto. }
  destruct (0 <? size (multiSelectRegions st))%nat; intros [= <-]; exact Htop.
Qed.

(** X18.  The regions stay inside the image.  In an editor of sound
    geometry whose regions lie inside the image, every handler leaves the
    regions inside the image, provided a pointer move of a drag finds every
    rectangle at least [HANDLE_SIZE / zoom] wide and high: a new region, an
    added point, a merge, a body drag, a vertex drag and a resize of such a
    rectangle all stay in [[0, W] x [0, H]]. *)
Theorem handle_keeps_regions_inside_image (ev : Event) (st st' : Editor) :
  geometryOk st ->
  insideImage st ->
  resizeAboveMinimum ev st ->
  handle ev st = Some st' ->
  insideImage st'.
Proof.
  intros (Hz & Himg & Hpos) Hin Hmin. unfold insideImage in *. destruct ev; simpl.
  - intros [= <-]. simpl. constructor.
  - intros [= <-] im. unfold addRegion.
    destruct (originalImage st) as [im0|] eqn:Eim; [|rewrite Eim; discriminate].
    simpl. rewrite Eim. intros [= <-].
    destruct (Himg im0 eq_refl) as [HW HH].
    destruct (addRegion_in_bounds now st im0 Eim) as (x & y & side & Hregs & _ & _ & _ & Hb);
      [lra|lra|].
    unfold addRegion in Hregs. rewrite Eim in Hregs. simpl in Hregs.
    rewrite Hregs. apply Forall_app. split; [exact (Hin im0 eq_refl)|].
    constructor; [|constructor]. constructor; [exact Hb|constructor].
  - intros [= <-]. unfold toggleSelectMode.
    destruct (isWaitingForPointClick st), (isDeletePointMode st), (isDeleteRegionMode st);
      exact Hin.
  - intros [= <-]. unfold startAddPointMode.
    destruct (isWaitingForPointClick st), (isSelectMode st), (isDeletePointMode st),
      (isDeleteRegionMode st); exact Hin.
  - intros [= <-]. unfold toggleDeletePointMode.
    destruct (isDeletePointMode st), (isSelectMode st), (isWaitingForPointClick st),
      (isDeleteRegionMode st); exact Hin.
  - intros [= <-]. unfold toggleDeleteRegionMode.
    destruct (isDeleteRegionMode st), (isSelectMode st), (isWaitingForPointClick st),
      (isDeletePointMode st); exact Hin.
  - intros [= <-] im. unfold mergeSelectedRegions.
    destruct (size (multiSelectRegions st) <? 2)%nat; [apply Hin|].
    rewrite partitionSelected_filter. simpl. intros Him. specialize (Hin im Him).
    apply Forall_app. split; [now apply Forall_filter_keep|].
    constructor; [|constructor]. unfold regionInBounds. simpl.
    apply List.Forall_forall. intros part Hpart. apply in_flat_map in Hpart.
    destruct Hpart as [r [Hr Hpart]]. apply filter_In in Hr. destruct Hr as [Hr _].
    rewrite List.Forall_forall in Hin. specialize (Hin r Hr).
    unfold regionInBounds in Hin. rewrite List.Forall_forall in Hin. auto.
  - intros [= <-] im. unfold clearAllRegions.
    destruct (isWaitingForPointClick st), (isDeletePointMode st), (isDeleteRegionMode st);
      intros _; constructor.
  - intros Hrun im Him.
    destruct (handle_keeps_image (MouseDown button pos) st st' Hrun)
      as [(img' & cw & ch & Hev')|E]; [discriminate Hev'|].
    rewrite E in Him. eapply onMouseDown_in_bounds; eauto.
  - intros Hrun im Him.
    destruct (handle_keeps_image (MouseMove pos) st st' Hrun)
      as [(img' & cw & ch & Hev')|E]; [discriminate Hev'|].
    rewrite E in Him. specialize (Hin im Him). destruct (Himg im Him) as [HW HH].
    revert Hrun. simpl. unfold onMouseMove. destruct pos as [p|]; [|now intros [= <-]].
    destruct (isDragging (draggingState st));
      [destruct (dragMode (draggingState st)) as [mode|]|].
    + rewrite Him.
      destruct (dragUpdater _ _ _ _ _ _) as [[rs offset]|] eqn:Hdrag; [|discriminate].
      intros [= <-]. simpl.
      eapply (dragUpdater_in_bounds im); eauto; lra.
    + destruct (isWaitingForPointClick st); now intros [= <-].
    + destruct (isWaitingForPointClick st); now intros [= <-].
  - intros [= <-]. unfold onMouseUp. destruct (isDragging (draggingState st)); exact Hin.
  - intros [= <-]. exact Hin.
  - intros [= <-]. exact Hin.
  - intros [= <-]. unfold fitToScreen. destruct (originalImage st) eqn:Eim;
      simpl; rewrite ?Eim; intros im Him; apply Hin; congruence.
  - intros [= <-]. unfold processRegions. destruct (originalImage st) eqn:Eim;
      [destruct (length (regions st) =? 0)%nat|]; simpl; rewrite ?Eim;
      intros im Him; apply Hin; congruence.
  - intros [= <-]. exact Hin.
  - intros [= <-]. exact Hin.
Qed.

Lemma handle_keeps_regions_inside_image_witness :
  exists st', onMouseMove (Some (mkPoint 495 300)) resizeEditor = Some st' /\ insideImage st'.
Proof.
  assert (Hrun : exists st', onMouseMove (Some (mkPoint 495 300)) resizeEditor = Some st')
    by (vm_compute; eexists; reflexivity).
  destruct Hrun as [st' Hrun]. exists st'. split; [exact Hrun|].
  apply (handle_keeps_regions_inside_image (MouseMove (Some (mkPoint 495 300))) resizeEditor).
  - split; [reflexivity|]. split.
    + intros img [= <-]. split; reflexivity.
    + repeat constructor.
  - intros im [= <-]. repeat constructor; simpl; discriminate.
  - intros r x y w h [<-|[]] [[= <- <- <- <-]|[]]. split; vm_compute; discriminate.
  - exact Hrun.
Defined.

(** ** Vertex drag *)

Lemma nthZ_set_nth_eq {A : Type} (l : list A) (i : Z) (a b : A) :
  nthZ l i = Some a -> nthZ (set_nth l (Z.to_nat i) b) i = Some b.
Proof.
  unfold nthZ. destruct (Z.ltb_spec i 0); [discriminate|]. intros Hnth.
  apply set_nth_eq. apply nth_error_Some. congruence.
Qed.




(** ** Resize *)

(** X20.  A resize is idempotent: the rectangle a pointer position gives
    is a fixed point of the resize at that position, for every drag mode,
    so that repeated samples of a resting pointer do not make the
    rectangle drift or grow. *)
Theorem resize_is_idempotent (img : option Image) (z : Q) (mode : DragMode) (pos : Point)
    (ox oy ow oh : Q) :
  exists x y w h,
    resizeRect img z mode pos ox oy ow oh = RectPart x y w h /\
    samePart (resizeRect img z mode pos x y w h) (RectPart x y w h).
Proof.
  unfold resizeRect.
  generalize (clampX img (px pos)) (clampY img (py pos)) (HANDLE_SIZE / z).
  intros cx cy m.
  destruct mode; cbn -[Qltb Qplus Qminus];
    repeat match goal with
    | |- context [Qltb ?a m] => destruct (Qltb a m) eqn:?
    end;
    do 4 eexists; (split; [reflexivity|]); cbn -[Qltb Qplus Qminus];
    repeat match goal with
    | |- context [Qltb ?a m] => destruct (Qltb a m) eqn:?
    end;
    qprop; simpl; first [lra | repeat split; lra].
Qed.

(** ** A body drag follows the pointer *)






Lemma findIndex_id_set_nth (i : Z) (rs : list Region) (k : nat) (r r' : Region) :
  nth_error rs k = Some r -> id r' = id r ->
  findIndex_id i (set_nth rs k r') = findIndex_id i rs.
Proof.
  revert k; induction rs as [|a t IH]; intros [|k] Hnth Hid; simpl in *; try discriminate.
  - injection Hnth as ->. now rewrite Hid.
  - now rewrite (IH k Hnth Hid).
Qed.

(** An update of the parts of a region leaves it where lookups by id find
    it. *)
Lemma findRegion_set_nth (i : Z) (rs : list Region) (k : nat) (r : Region) (ps : list Part) :
  findRegion i rs = Some (k, r) ->
  findRegion i (set_nth rs k (mkRegion (id r) ps)) = Some (k, mkRegion (id r) ps).
Proof.
  intros Hfind. destruct (findRegion_Some _ _ _ _ Hfind) as [Hnth _].
  unfold findRegion in *.
  rewrite (findIndex_id_set_nth i rs k r (mkRegion (id r) ps) Hnth eq_refl).
  destruct (findIndex_id i rs) as [k'|]; [|discriminate].
  destruct (nth_error rs k') eqn:E; [|discriminate]. simpl in Hfind.
  injection Hfind as -> ->.
  rewrite set_nth_eq; [reflexivity|]. apply nth_error_Some. congruence.
Qed.

Lemma set_nth_set_nth {A : Type} (l : list A) (k : nat) (a b : A) :
  set_nth (set_nth l k a) k b = set_nth l k b.
Proof.
  revert k; induction l as [|c t IH]; intros [|k]; simpl; auto. now rewrite IH.
Qed.






(** ** Artifacts of a run *)

Lemma NoDup_map_injective {A B : Type} (f : A -> B) (l : list A) :
  (forall a b, In a l -> In b l -> f a = f b -> a = b) ->
  List.NoDup l -> List.NoDup (map f l).
Proof.
  intros Hinj Hnd. induction Hnd as [|a t Ha _ IH]; simpl; constructor.
  - intros Hin. apply in_map_iff in Hin. destruct Hin as [b [Hfb Hb]].
    apply Ha. rewrite <- (Hinj b a); auto; [now right|now left].
  - apply IH. intros x y Hx Hy. apply Hinj; now right.
Qed.

(** The artifacts a run appends come from region indices that increase
    strictly: each carries the name and the id of its index. *)
Lemma rasterizeFrom_indices (cv : Canvas) (now : nat -> Z) (img : Image) (baseName : string)
    (rs : list Region) (index : nat) (results : list ProcessedImage) :
  exists (indices : list nat) (l : list ProcessedImage),
    rasterizeFrom cv now img baseName index rs results = results ++ l /\
    List.NoDup indices /\
    Forall (fun i => (index <= i < index + length rs)%nat) indices /\
    (length l <= length rs)%nat /\
    map img_name l = map (artifactName baseName) indices /\
    map img_id l = map (fun i => (now i + Z.of_nat i)%Z) indices.
Proof.
  revert index results. induction rs as [|r t IH]; intros index results; simpl.
  - exists [], []. rewrite app_nil_r. repeat split; constructor.
  - destruct (rasterizeRegion cv now img baseName index r) as [a|] eqn:Ea.
    + destruct (IH (S index) (results ++ [a]))
        as (indices & l & Hrun & Hnd & Hrange & Hlen & Hnames & Hids).
      exists (index :: indices), (a :: l).
      unfold rasterizeRegion in Ea.
      destruct (xle0 _ || xle0 _); [discriminate|].
      destruct (negb _); [discriminate|]. injection Ea as <-.
      split; [now rewrite Hrun, <- app_assoc|].
      split; [|split; [|split; [|split]]].
      * constructor; [|exact Hnd]. intros Hin.
        rewrite List.Forall_forall in Hrange. specialize (Hrange _ Hin). lia.
      * constructor; [lia|]. eapply List.Forall_impl; [|exact Hrange].
        simpl. intros i Hi. lia.
      * simpl. lia.
      * simpl. now rewrite Hnames.
      * simpl. now rewrite Hids.
    + destruct (IH (S index) results)
        as (indices & l & Hrun & Hnd & Hrange & Hlen & Hnames & Hids).
      exists indices, l. split; [exact Hrun|]. split; [exact Hnd|].
      split; [|split; [lia|split; assumption]].
      eapply List.Forall_impl; [|exact Hrange]. simpl. intros i Hi. lia.
Qed.

(** X22.  A run over a loaded image and at least one region produces at
    most one artifact per region, and no two artifacts of the run carry the
    same file name: each name is [{base}_region_{i+1}.png] for the index
    [i] of a region, with the id [Date.now() + i]. *)
Theorem artifact_names_are_distinct (cv : Canvas) (now : nat -> Z) (st : Editor)
    (img : Image) :
  originalImage st = Some img ->
  regions st <> [] ->
  let artifacts := processedImages (processRegions cv now st) in
  List.NoDup (map img_name artifacts) /\
  (length artifacts <= length (regions st))%nat /\
  (forall a, In a artifacts ->
     exists i, (i < length (regions st))%nat /\
       img_name a = artifactName (baseNameOf (originalFileName st)) i /\
       img_id a = (now i + Z.of_nat i)%Z).
Proof.
  intros Himg Hregs artifacts. unfold artifacts, processRegions. rewrite Himg.
  destruct (regions st) as [|r t] eqn:Ers; [contradiction|].
  cbn [length Nat.eqb]. cbn [processedImages setProcessedImages].
  destruct (rasterizeFrom_indices cv now img (baseNameOf (originalFileName st))
              (r :: t) 0 [])
    as (indices & l & Hrun & Hnd & Hrange & Hlen & Hnames & Hids).
  rewrite Hrun. cbn [app]. split; [|split; [exact Hlen|]].
  - rewrite Hnames. apply NoDup_map_injective; [|exact Hnd].
    intros i j _ _. apply artifactName_inj.
  - intros a Ha. destruct (In_nth_error _ _ Ha) as [n Hn].
    assert (Hname : nth_error (map img_name l) n = Some (img_name a))
      by (rewrite nth_error_map, Hn; reflexivity).
    assert (Hid : nth_error (map img_id l) n = Some (img_id a))
      by (rewrite nth_error_map, Hn; reflexivity).
    rewrite Hnames, nth_error_map in Hname. rewrite Hids, nth_error_map in Hid.
    destruct (nth_error indices n) as [i|] eqn:Ei; [|discriminate].
    exists i. rewrite List.Forall_forall in Hrange.
    pose proof (Hrange i (nth_error_In _ _ Ei)) as Hi.
    simpl in Hname, Hid, Hi. split; [lia|]. split; congruence.
Qed.

Lemma artifact_names_are_distinct_witness :
  List.NoDup (map img_name
                (processedImages (processRegions sampleCanvas (fun _ => 1000%Z) rerunEditor))).
Proof.
  apply (artifact_names_are_distinct sampleCanvas (fun _ => 1000%Z) rerunEditor sampleImage).
  - reflexivity.
  - discriminate.
Defined.

Lemma filter_out_key {A : Type} (key : A -> Z) (l : list A) (a : A) :
  List.NoDup (map key l) -> In a l ->
  exists l1 l2, l = l1 ++ a :: l2 /\
    List.filter (fun b => negb (key b =? key a)%Z) l = l1 ++ l2.
Proof.
  induction l as [|c t IH]; simpl; intros Hnd Hin; [destruct Hin|].
  inversion Hnd as [|i ids Hfresh Hrest]; subst.
  destruct Hin as [->|Hin].
  - exists [], t. split; [reflexivity|]. rewrite Z.eqb_refl. simpl.
    apply filter_all. intros b Hb. destruct (Z.eqb_spec (key b) (key a)) as [E|E]; [|reflexivity].
    exfalso. apply Hfresh. rewrite <- E. now apply in_map.
  - destruct (IH Hrest Hin) as (l1 & l2 & Ht & Hf).
    exists (c :: l1), l2. split; [now rewrite Ht|].
    destruct (Z.eqb_spec (key c) (key a)) as [E|E]; simpl; [|now rewrite Hf].
    exfalso. apply Hfresh. rewrite E. now apply in_map.
Qed.

(** X23.  When the clock does not run backwards during a run, the
    artifacts of the run have distinct ids, and deleting one of them by its
    id removes that artifact and no other, the rest keeping their order;
    the regions are untouched. *)
Theorem delete_removes_one_artifact (cv : Canvas) (now : nat -> Z) (st : Editor)
    (img : Image) (a : ProcessedImage) :
  (forall i j, (i <= j)%nat -> (now i <= now j)%Z) ->
  originalImage st = Some img ->
  regions st <> [] ->
  let st1 := processRegions cv now st in
  In a (processedImages st1) ->
  List.NoDup (map img_id (processedImages st1)) /\
  exists l1 l2,
    processedImages st1 = l1 ++ a :: l2 /\
    processedImages (deleteProcessedImage (img_id a) st1) = l1 ++ l2 /\
    regions (deleteProcessedImage (img_id a) st1) = regions st.
Proof.
  intros Hclock Himg Hregs st1 Ha.
  assert (Hnd : List.NoDup (map img_id (processedImages st1))).
  { unfold st1, processRegions. rewrite Himg.
    destruct (regions st) as [|r t] eqn:Ers; [contradiction|].
    cbn [length Nat.eqb]. cbn [processedImages setProcessedImages].
    destruct (rasterizeFrom_indices cv now img (baseNameOf (originalFileName st))
                (r :: t) 0 [])
      as (indices & l & Hrun & Hnd & _ & _ & _ & Hids).
    rewrite Hrun. cbn [app]. rewrite Hids.
    apply NoDup_map_injective; [|exact Hnd].
    intros i j _ _ Hij.
    destruct (Nat.lt_trichotomy i j) as [Hlt|[Heq|Hgt]]; [|exact Heq|].
    - pose proof (Hclock i j ltac:(lia)). lia.
    - pose proof (Hclock j i ltac:(lia)). lia. }
  split; [exact Hnd|].
  destruct (filter_out_key img_id (processedImages st1) a Hnd Ha) as (l1 & l2 & Hsplit & Hf).
  exists l1, l2. split; [exact Hsplit|]. split; [exact Hf|].
  unfold st1, processRegions. rewrite Himg.
  destruct (length (regions st) =? 0)%nat; reflexivity.
Qed.

Lemma delete_removes_one_artifact_witness :
  exists a l1 l2,
    processedImages (processRegions sampleCanvas (fun _ => 1000%Z) rerunEditor)
      = l1 ++ a :: l2 /\
    processedImages
      (deleteProcessedImage (img_id a)
         (processRegions sampleCanvas (fun _ => 1000%Z) rerunEditor)) = l1 ++ l2.
Proof.
  exists (artifactOf sampleCanvas (fun _ => 1000%Z) sampleImage "image" (1%nat, squareA)).
  destruct (delete_removes_one_artifact sampleCanvas (fun _ => 1000%Z) rerunEditor
              sampleImage
              (artifactOf sampleCanvas (fun _ => 1000%Z) sampleImage "image" (1%nat, squareA)))
    as (_ & l1 & l2 & Hsplit & Hdel & _).
  - intros i j _. lia.
  - reflexivity.
  - discriminate.
  - vm_compute. left. reflexivity.
  - exists l1, l2. split; [exact Hsplit|exact Hdel].
Defined.

(** ** Adding and deleting a point *)

Lemma splice_remove_insert {A : Type} (l : list A) (i : nat) (a : A) :
  (i <= length l)%nat -> splice_remove (splice_insert l i a) i = l.
Proof.
  revert i; induction l as [|b t IH]; intros [|i] Hi; simpl in Hi; try lia.
  - reflexivity.
  - reflexivity.
  - rewrite splice_insert_cons, splice_remove_cons, IH by lia. reflexivity.
Qed.

Lemma deleteVertex_insertVertex (part : Part) (segmentIndex : Z) (p : Point) :
  (3 <= length (cornerPoints part))%nat ->
  (0 <= segmentIndex < Z.of_nat (length (cornerPoints part)))%Z ->
  deleteVertex (insertVertex part segmentIndex p) (segmentIndex + 1) =
    PolyPart (cornerPoints part).
Proof.
  intros Hlen Hseg.
  assert (Hshape : insertVertex part segmentIndex p =
            PolyPart (splice_insert (cornerPoints part) (Z.to_nat (segmentIndex + 1)) p))
    by (destruct part; reflexivity).
  rewrite Hshape. unfold deleteVertex. rewrite splice_insert_length.
  destruct (Nat.ltb_spec 3 (S (length (cornerPoints part)))) as [_|Hle]; [|lia].
  rewrite splice_remove_insert by lia. reflexivity.
Qed.

(** X24.  Deleting a point that was just added undoes the addition.  For
    an edge of a part with at least three corners, the add-point update
    followed by the delete-point update at the index after the edge gives
    the collection where the part is the polygon of its former corners:
    for a polygon the collection is exactly the one before, and a
    rectangle stays converted to the polygon of its four corners. *)
Theorem add_then_delete_point_round_trip (rs : list Region) (i partIndex segmentIndex : Z)
    (p : Point) (k : nat) (r : Region) (part : Part) :
  findRegion i rs = Some (k, r) ->
  nthZ (parts r) partIndex = Some part ->
  (3 <= length (cornerPoints part))%nat ->
  (0 <= segmentIndex < Z.of_nat (length (cornerPoints part)))%Z ->
  exists rs1,
    addPointUpdater i partIndex segmentIndex p rs = Some rs1 /\
    deletePointUpdater i partIndex (segmentIndex + 1) rs1 =
      Some (set_nth rs k
              (mkRegion (id r)
                 (set_nth (parts r) (Z.to_nat partIndex) (PolyPart (cornerPoints part))))) /\
    (isPoly part = true ->
     deletePointUpdater i partIndex (segmentIndex + 1) rs1 = Some rs).
Proof.
  intros Hfind Hpart Hlen Hseg.
  destruct (findRegion_Some _ _ _ _ Hfind) as [Hnth _].
  destruct (nthZ_Some _ _ _ Hpart) as [_ Hp].
  set (ps1 := set_nth (parts r) (Z.to_nat partIndex) (insertVertex part segmentIndex p)).
  exists (set_nth rs k (mkRegion (id r) ps1)).
  assert (Hadd : addPointUpdater i partIndex segmentIndex p rs =
                 Some (set_nth rs k (mkRegion (id r) ps1))).
  { unfold addPointUpdater. rewrite Hfind, Hpart. reflexivity. }
  assert (Hdel : deletePointUpdater i partIndex (segmentIndex + 1)
                   (set_nth rs k (mkRegion (id r) ps1)) =
                 Some (set_nth rs k
                         (mkRegion (id r)
                            (set_nth (parts r) (Z.to_nat partIndex)
                               (PolyPart (cornerPoints part)))))).
  { unfold deletePointUpdater. rewrite (findRegion_set_nth _ _ _ _ ps1 Hfind).
    cbn [parts id]. unfold ps1 at 1.
    rewrite (nthZ_set_nth_eq _ _ _ _ Hpart).
    rewrite set_nth_set_nth. unfold ps1. rewrite set_nth_set_nth.
    now rewrite deleteVertex_insertVertex. }
  split; [exact Hadd|]. split; [exact Hdel|].
  intros Hpoly. rewrite Hdel. f_equal.
  destruct part as [x y w h|points]; [discriminate|]. simpl.
  rewrite (set_nth_same _ _ _ Hp), region_eta. now apply set_nth_same.
Qed.

Lemma add_then_delete_point_round_trip_witness :
  exists rs1,
    addPointUpdater 8 0 1 (mkPoint 450 175) [pentagon] = Some rs1 /\
    deletePointUpdater 8 0 (1 + 1) rs1 = Some [pentagon].
Proof.
  destruct (add_then_delete_point_round_trip [pentagon] 8 0 1 (mkPoint 450 175) 0 pentagon
              (PolyPart [mkPoint 300 200; mkPoint 400 150; mkPoint 500 200;
                         mkPoint 500 400; mkPoint 300 400]))
    as (rs1 & Hadd & _ & Hback).
  - reflexivity.
  - reflexivity.
  - simpl. lia.
  - simpl. lia.
  - exists rs1. split; [exact Hadd|]. apply Hback. reflexivity.
Defined.

(** ** Regions without parts *)

Lemma hit_has_parts (st : Editor) (pos : Point) (r : Region) :
  hit_region (getHitRegion st pos) = Some r -> parts r <> [].
Proof.
  unfold getHitRegion. intros Hr. apply hitRegions_source in Hr.
  intros Hnil. rewrite Hnil in Hr. discriminate Hr.
Qed.

Lemma closest_has_parts (st : Editor) (pos : Point) (rs : list Region) (region : Region) :
  cl_region (findClosestEdgePoint st pos rs) = Some region ->
  In region rs /\ parts region <> [].
Proof.
  intros Hr. pose proof (findClosestEdgePoint_on st pos rs) as Hon.
  unfold closestOn in Hon. rewrite Hr in Hon.
  destruct Hon as (Hin & part & newPoint & Hpart & _). split; [exact Hin|].
  intros Hnil. rewrite Hnil in Hpart. unfold nthZ in Hpart.
  destruct (_ <? 0)%Z; [discriminate|]. now destruct (Z.to_nat _).
Qed.

Lemma filter_none {A : Type} (f : A -> bool) (l : list A) :
  (forall a, In a l -> f a = false) -> List.filter f l = [].
Proof.
  induction l as [|a t IH]; simpl; intros Hnone; [reflexivity|].
  rewrite (Hnone a) by now left. apply IH. intros b Hb. apply Hnone. now right.
Qed.

(** X25.  Merging a selection whose regions are gone.  When at least two
    ids are selected and no region of the collection carries one of them,
    a merge removes nothing and appends a region without parts, and
    empties the selection.  Such a region is never returned by the hit
    classifier nor by the closest-edge search, and a run makes no artifact
    for it. *)
Theorem merging_deleted_selection_adds_empty_region (now : Z) (st : Editor) :
  (2 <= size (multiSelectRegions st))%nat ->
  (forall r, In r (regions st) -> id r ∉ multiSelectRegions st) ->
  regions (mergeSelectedRegions now st) = regions st ++ [mkRegion now []] /\
  multiSelectRegions (mergeSelectedRegions now st) = ∅ /\
  (forall st2 pos, hit_region (getHitRegion st2 pos) <> Some (mkRegion now [])) /\
  (forall st2 pos rs, cl_region (findClosestEdgePoint st2 pos rs) <> Some (mkRegion now [])) /\
  (forall cv clock img baseName index,
     rasterizeRegion cv clock img baseName index (mkRegion now []) = None).
Proof.
  intros Hsize Hgone.
  destruct (mergeSelectedRegions_result now st Hsize) as [Hregs Hsel].
  assert (Hnone : forall r, In r (regions st) -> isSelected (multiSelectRegions st) r = false).
  { intros r Hr. unfold isSelected. apply bool_decide_eq_false. auto. }
  split; [|split; [exact Hsel|split; [|split]]].
  - rewrite Hregs. rewrite (filter_none _ _ Hnone). f_equal.
    apply filter_all. intros r Hr. now rewrite Hnone.
  - intros st2 pos Hhit. now apply hit_has_parts in Hhit.
  - intros st2 pos rs Hc. apply closest_has_parts in Hc. now destruct Hc.
  - reflexivity.
Qed.

Lemma merging_deleted_selection_adds_empty_region_witness :
  exists st,
    run staleSelectionSession initialEditor = Some st /\
    regions (mergeSelectedRegions 99 st) = [mkRegion 99 []].
Proof.
  eexists. split; [vm_compute; reflexivity|].
  match goal with
  | |- regions (mergeSelectedRegions 99 ?s) = _ =>
      destruct (merging_deleted_selection_adds_empty_region 99 s) as [Hregs _]
  end.
  - vm_compute. lia.
  - intros r [].
  - exact Hregs.
Defined.

Lemma NoDup_ids_inj (rs : list Region) (a b : Region) :
  List.NoDup (map id rs) -> In a rs -> In b rs -> id a = id b -> a = b.
Proof.
  induction rs as [|c t IH]; simpl; intros Hnd Ha Hb Hid; [destruct Ha|].
  inversion Hnd as [|i ids Hfresh Hrest]; subst.
  destruct Ha as [->|Ha], Hb as [->|Hb]; auto.
  - exfalso. apply Hfresh. rewrite Hid. now apply in_map.
  - exfalso. apply Hfresh. rewrite <- Hid. now apply in_map.
Qed.

Lemma In_set_nth_other {A : Type} (l : list A) (k : nat) (a g x : A) :
  nth_error l k = Some a -> a <> g -> In g l -> In g (set_nth l k x).
Proof.
  intros Hk Hne Hg. destruct (In_nth_error _ _ Hg) as [j Hj].
  assert (Hjk : k <> j) by (intros ->; congruence).
  apply (nth_error_In _ j). now rewrite set_nth_ne.
Qed.

(** An update by id of a region that has parts leaves a region without
    parts in the collection. *)
Lemma update_keeps_empty_region (rs : list Region) (target r g : Region) (k : nat)
    (x : Region) :
  List.NoDup (map id rs) -> In target rs -> parts target <> [] ->
  findRegion (id target) rs = Some (k, r) ->
  In g rs -> parts g = [] -> In g (set_nth rs k x).
Proof.
  intros Hnd Htarget Hparts Hfind Hg Hnil.
  destruct (findRegion_Some _ _ _ _ Hfind) as [Hk Hid].
  apply (In_set_nth_other rs k r); auto.
  intros ->. apply Hparts.
  rewrite (NoDup_ids_inj rs target g Hnd Htarget Hg); auto.
Qed.

Lemma filter_keeps_empty_region (rs : list Region) (r g : Region) :
  List.NoDup (map id rs) -> In r rs -> parts r <> [] -> In g rs -> parts g = [] ->
  In g (List.filter (fun r' => negb (id r' =? id r)%Z) rs).
Proof.
  intros Hnd Hr Hparts Hg Hnil. apply filter_In. split; [exact Hg|].
  destruct (Z.eqb_spec (id g) (id r)) as [E|E]; [|reflexivity].
  exfalso. apply Hparts. rewrite (NoDup_ids_inj rs r g Hnd Hr Hg); auto.
Qed.

Lemma dragUpdater_keeps_empty_region (img : option Image) (z : Q) (mode : DragMode)
    (pos : Point) (d : DraggingState) (rs rs' : list Region) (offset : Point) (g : Region) :
  In g rs -> parts g = [] ->
  dragUpdater img z mode pos d rs = Some (rs', offset) -> In g rs'.
Proof.
  intros Hg Hnil Hrun. destruct (In_nth_error _ _ Hg) as [j Hj].
  destruct (dragUpdater_shape _ _ _ _ _ _ _ _ Hrun)
    as [->|(sel & k & r & ps & Hsel & Hfind & Hrs)]; [exact Hg|].
  destruct (findRegion_Some _ _ _ _ Hfind) as [Hk _].
  destruct (Nat.eq_dec k j) as [->|Hne].
  - assert (r = g) by congruence. subst r.
    assert (Hlen : (j < length rs)%nat) by (apply nth_error_Some; congruence).
    assert (Hsame : In g (set_nth rs j (mkRegion (id g) []))).
    { apply (nth_error_In _ j). rewrite set_nth_eq by exact Hlen.
      f_equal. destruct g; simpl in *; congruence. }
    unfold dragUpdater in Hrun. rewrite Hsel, Hfind, Hnil in Hrun.
    destruct mode; simpl in Hrun;
      try (unfold nthZ in Hrun; destruct (_ <? 0)%Z; [discriminate Hrun|];
           destruct (Z.to_nat _); discriminate Hrun).
    injection Hrun as <- _. exact Hsame.
  - rewrite Hrs. apply (nth_error_In _ j). rewrite set_nth_ne by exact Hne. exact Hj.
Qed.

(** X26.  A region without parts cannot be reached by the pointer.  With
    distinct region ids, no event other than an image load, a clear and a
    merge removes or changes a region without parts: clicks, drags and
    deletions in every mode leave it in the collection. *)
Theorem empty_region_survives (ev : Event) (st st' : Editor) (g : Region) :
  List.NoDup (map id (regions st)) ->
  In g (regions st) ->
  parts g = [] ->
  replacesRegions ev = false ->
  handle ev st = Some st' ->
  In g (regions st').
Proof.
  intros Hnd Hg Hnil Hev. destruct ev; try discriminate Hev; simpl.
  - intros [= <-]. unfold addRegion. destruct (originalImage st); [|exact Hg].
    simpl. apply in_app_iff. now left.
  - intros [= <-]. unfold toggleSelectMode.
    destruct (isWaitingForPointClick st), (isDeletePointMode st), (isDeleteRegionMode st);
      exact Hg.
  - intros [= <-]. unfold startAddPointMode.
    destruct (isWaitingForPointClick st), (isSelectMode st), (isDeletePointMode st),
      (isDeleteRegionMode st); exact Hg.
  - intros [= <-]. unfold toggleDeletePointMode.
    destruct (isDeletePointMode st), (isSelectMode st), (isWaitingForPointClick st),
      (isDeleteRegionMode st); exact Hg.
  - intros [= <-]. unfold toggleDeleteRegionMode.
    destruct (isDeleteRegionMode st), (isSelectMode st), (isWaitingForPointClick st),
      (isDeletePointMode st); exact Hg.
  - unfold onMouseDown.
    destruct (negb (button =? 0)%Z); [now intros [= <-]|].
    destruct pos as [p|]; [|now intros [= <-]].
    destruct (isDeleteRegionMode st).
    { destruct (hit_region (getHitRegion st p)) as [r|] eqn:Hhit; [|now intros [= <-]].
      destruct (isBody _); intros [= <-]; [|exact Hg]. simpl.
      apply filter_keeps_empty_region; auto.
      - eapply getHitRegion_In; eauto.
      - eapply hit_has_parts; eauto. }
    destruct (isWaitingForPointClick st).
    { unfold addPointToPolygon.
      destruct (cl_region _) as [region|] eqn:Hc; [|now intros [= <-]].
      destruct (cl_point _); [|now intros [= <-]].
      destruct (negb _ && negb _); [|now intros [= <-]].
      destruct (closest_has_parts _ _ _ _ Hc) as [Hin Hparts].
      unfold addPointUpdater.
      destruct (findRegion (id region) (regions st)) as [[k r]|] eqn:Hfind;
        [|now intros [= <-]].
      destruct (nthZ (parts r) _); [|discriminate]. intros [= <-]. simpl.
      exact (update_keeps_empty_region (regions st) region r g k _ Hnd Hin Hparts
               Hfind Hg Hnil). }
    destruct (isDeletePointMode st).
    { destruct (hit_region (getHitRegion st p)) as [region|] eqn:Hhit; [|now intros [= <-]].
      destruct (hit_part (getHitRegion st p)) as [part|]; [|now intros [= <-]].
      destruct (isPoly part && _); [|now intros [= <-]].
      unfold deletePointUpdater.
      destruct (findRegion (id region) (regions st)) as [[k r]|] eqn:Hfind;
        [|now intros [= <-]].
      destruct (nthZ (parts r) _); [|discriminate]. intros [= <-]. simpl.
      exact (update_keeps_empty_region (regions st) region r g k _ Hnd
               (getHitRegion_In _ _ _ Hhit) (hit_has_parts _ _ _ Hhit) Hfind Hg Hnil). }
    destruct (isSelectMode st).
    { destruct (hit_region (getHitRegion st p)); [|now intros [= <-]].
      destruct (isBody _); now intros [= <-]. }
    destruct (hit_region (getHitRegion st p)) as [r|] eqn:Hhit; [|now intros [= <-]].
    assert (Htop : In g (List.filter (fun r' => negb (id r' =? id r)%Z) (regions st) ++ [r])).
    { apply in_app_iff. left. apply filter_keeps_empty_region; auto.
      - eapply getHitRegion_In; eauto.
      - eapply hit_has_parts; eauto. }
    destruct (0 <? size (multiSelectRegions st))%nat; intros [= <-]; exact Htop.
  - unfold onMouseMove. destruct pos as [p|]; [|now intros [= <-]].
    destruct (isDragging (draggingState st));
      [destruct (dragMode (draggingState st)) as [mode|]|].
    + destruct (dragUpdater _ _ _ _ _ _) as [[rs offset]|] eqn:Hdrag; [|discriminate].
      intros [= <-]. simpl. eapply dragUpdater_keeps_empty_region; eauto.
    + destruct (isWaitingForPointClick st); now intros [= <-].
    + destruct (isWaitingForPointClick st); now intros [= <-].
  - intros [= <-]. unfold onMouseUp. destruct (isDragging (draggingState st)); exact Hg.
  - intros [= <-]. exact Hg.
  - intros [= <-]. exact Hg.
  - intros [= <-]. unfold fitToScreen. destruct (originalImage st); exact Hg.
  - intros [= <-]. unfold processRegions. destruct (originalImage st); [|exact Hg].
    destruct (length (regions st) =? 0)%nat; exact Hg.
  - intros [= <-]. exact Hg.
  - intros [= <-]. exact Hg.
Qed.

Lemma empty_region_survives_witness :
  exists st',
    onMouseDown 0 (Some (mkPoint 400 300))
      (toggleDeleteRegionMode (setRegions [squareA; mkRegion 99 []] emptyEditor)) = Some st' /\
    In (mkRegion 99 []) (regions st').
Proof.
  assert (Hrun : exists st',
            onMouseDown 0 (Some (mkPoint 400 300))
              (toggleDeleteRegionMode (setRegions [squareA; mkRegion 99 []] emptyEditor))
            = Some st') by (eexists; vm_compute; reflexivity).
  destruct Hrun as [st' Hrun]. exists st'. split; [exact Hrun|].
  apply (empty_region_survives (MouseDown 0 (Some (mkPoint 400 300)))
           (toggleDeleteRegionMode (setRegions [squareA; mkRegion 99 []] emptyEditor))).
  - repeat constructor; simpl; intuition discriminate.
  - right. left. reflexivity.
  - reflexivity.
  - reflexivity.
  - exact Hrun.
Defined.

(** ** What each event can change *)

Lemma onMouseDown_frame (button : Z) (pos : option Point) (st st' : Editor) :
  onMouseDown button pos st = Some st' ->
  processedImages st' = processedImages st /\
  originalImage st' = originalImage st /\
  originalFileName st' = originalFileName st.
Proof.
  unfold onMouseDown.
  destruct (negb (button =? 0)%Z); [now intros [= <-]|].
  destruct pos as [p|]; [|now intros [= <-]].
  destruct (isDeleteRegionMode st).
  { destruct (hit_region (getHitRegion st p)); [|now intros [= <-]].
    destruct (isBody _); now intros [= <-]. }
  destruct (isWaitingForPointClick st).
  { unfold addPointToPolygon.
    destruct (cl_region _); [|now intros [= <-]].
    destruct (cl_point _); [|now intros [= <-]].
    destruct (negb _ && negb _); [|now intros [= <-]].
    destruct (addPointUpdater _ _ _ _ _); [|discriminate]. now intros [= <-]. }
  destruct (isDeletePointMode st).
  { destruct (hit_region (getHitRegion st p)); [|now intros [= <-]].
    destruct (hit_part (getHitRegion st p)) as [part|]; [|now intros [= <-]].
    destruct (isPoly part && _); [|now intros [= <-]].
    destruct (deletePointUpdater _ _ _ _); [|discriminate]. now intros [= <-]. }
  destruct (isSelectMode st).
  { destruct (hit_region (getHitRegion st p)); [|now intros [= <-]].
    destruct (isBody _); now intros [= <-]. }
  destruct (hit_region (getHitRegion st p)); [|now intros [= <-]].
  destruct (0 <? size (multiSelectRegions st))%nat; now intros [= <-].
Qed.

Lemma onMouseMove_frame (pos : option Point) (st st' : Editor) :
  onMouseMove pos st = Some st' ->
  processedImages st' = processedImages st /\
  originalImage st' = originalImage st /\
  originalFileName st' = originalFileName st.
Proof.
  unfold onMouseMove. destruct pos as [p|]; [|now intros [= <-]].
  destruct (isDragging (draggingState st));
    [destruct (dragMode (draggingState st)) as [mode|]|].
  - destruct (dragUpdater _ _ _ _ _ _) as [[rs offset]|]; [|discriminate].
    now intros [= <-].
  - destruct (isWaitingForPointClick st); now intros [= <-].
  - destruct (isWaitingForPointClick st); now intros [= <-].
Qed.

(** X27.  Each event changes only its part of the editor.  The processed
    images change only on an image load, a clear, a run and a deletion of
    an artifact, so that edits of the regions leave the artifacts of an
    earlier run as they are; the zoom factor changes only on a wheel
    event, a zoom button, a fit and an image load, which fits the view to
    the new image; the regions change only on an image load, a new region,
    a merge, a clear and pointer presses and moves; the image changes only
    on an image load, and the file name only when a file is chosen.
    Choosing a file stores its name without the extension at once, and
    nothing else: until the image has loaded, and for good when it never
    does, the image, the regions and the artifacts are those of the file
    before.  An image load keeps the file name, and empties the regions and
    the artifacts. *)
Theorem events_change_only_their_part (ev : Event) (st st' : Editor) :
  handle ev st = Some st' ->
  (changesArtifacts ev = false -> processedImages st' = processedImages st) /\
  (changesZoom ev = false -> zoom st' = zoom st) /\
  (editsRegions ev = false -> regions st' = regions st) /\
  (loadsImage ev = false -> originalImage st' = originalImage st) /\
  (choosesFile ev = false -> originalFileName st' = originalFileName st) /\
  (forall fileName, ev = FileChosen fileName ->
     originalFileName st' = Some (fileNameWithoutExt fileName)) /\
  (forall img containerWidth containerHeight,
     ev = ImageLoaded img containerWidth containerHeight ->
     originalImage st' = Some img /\ regions st' = [] /\ processedImages st' = [] /\
     zoom st' = Qmin (Qmin (containerWidth / naturalWidth img)
                           (containerHeight / naturalHeight img)) 1).
Proof.
  intros Hrun.
  assert (Hframe :
    (changesArtifacts ev = false -> processedImages st' = processedImages st) /\
    (changesZoom ev = false -> zoom st' = zoom st) /\
    (editsRegions ev = false -> regions st' = regions st) /\
    (loadsImage ev = false -> originalImage st' = originalImage st) /\
    (choosesFile ev = false -> originalFileName st' = originalFileName st)).
  { revert Hrun.
    destruct ev; simpl.
    - intros [= <-]. repeat split; try discriminate; reflexivity.
    - intros [= <-]. unfold addRegion. destruct (originalImage st) eqn:E;
        simpl; rewrite ?E; repeat split; try discriminate; reflexivity.
    - intros [= <-]. unfold toggleSelectMode.
      destruct (isWaitingForPointClick st), (isDeletePointMode st), (isDeleteRegionMode st);
        repeat split; reflexivity.
    - intros [= <-]. unfold startAddPointMode.
      destruct (isWaitingForPointClick st), (isSelectMode st), (isDeletePointMode st),
        (isDeleteRegionMode st); repeat split; reflexivity.
    - intros [= <-]. unfold toggleDeletePointMode.
      destruct (isDeletePointMode st), (isSelectMode st), (isWaitingForPointClick st),
        (isDeleteRegionMode st); repeat split; reflexivity.
    - intros [= <-]. unfold toggleDeleteRegionMode.
      destruct (isDeleteRegionMode st), (isSelectMode st), (isWaitingForPointClick st),
        (isDeletePointMode st); repeat split; reflexivity.
    - intros [= <-]. unfold mergeSelectedRegions.
      destruct (size (multiSelectRegions st) <? 2)%nat;
        [repeat split; reflexivity|].
      destruct (partitionSelected _ _ _ _). repeat split; try discriminate; reflexivity.
    - intros [= <-]. unfold clearAllRegions.
      destruct (isWaitingForPointClick st), (isDeletePointMode st), (isDeleteRegionMode st);
        repeat split; try discriminate; reflexivity.
    - intros Hrun. destruct (onMouseDown_frame _ _ _ _ Hrun) as (Ha & Hi & Hn).
      pose proof (onMouseDown_zoom _ _ _ _ Hrun). repeat split; try discriminate; auto.
    - intros Hrun. destruct (onMouseMove_frame _ _ _ Hrun) as (Ha & Hi & Hn).
      pose proof (onMouseMove_zoom _ _ _ Hrun). repeat split; try discriminate; auto.
    - intros [= <-]. unfold onMouseUp. destruct (isDragging (draggingState st));
        repeat split; reflexivity.
    - intros [= <-]. repeat split; try discriminate; reflexivity.
    - intros [= <-]. repeat split; try discriminate; reflexivity.
    - intros [= <-]. unfold fitToScreen. destruct (originalImage st) eqn:E;
        simpl; rewrite ?E; repeat split; try discriminate; reflexivity.
    - intros [= <-]. unfold processRegions. destruct (originalImage st) eqn:E;
        [destruct (length (regions st) =? 0)%nat|];
        simpl; rewrite ?E; repeat split; try discriminate; reflexivity.
    - intros [= <-]. repeat split; try discriminate; reflexivity.
    - intros [= <-]. repeat split; try discriminate; reflexivity.
  }
  destruct Hframe as (Hart & Hzoom & Hregs & Himg & Hname).
  repeat (split; [assumption|]). split.
  - intros fileName ->. simpl in Hrun. injection Hrun as <-. reflexivity.
  - intros img containerWidth containerHeight ->. simpl in Hrun.
    injection Hrun as <-. repeat split.
Qed.

Lemma events_change_only_their_part_witness :
  exists st',
    onMouseMove (Some (mkPoint 495 300)) (setProcessedImages [oldArtifact] resizeEditor)
      = Some st' /\
    processedImages st' = [oldArtifact].
Proof.
  assert (Hrun : exists st',
            onMouseMove (Some (mkPoint 495 300))
              (setProcessedImages [oldArtifact] resizeEditor) = Some st')
    by (eexists; vm_compute; reflexivity).
  destruct Hrun as [st' Hrun]. exists st'. split; [exact Hrun|].
  destruct (events_change_only_their_part (MouseMove (Some (mkPoint 495 300)))
              (setProcessedImages [oldArtifact] resizeEditor) st' Hrun) as [Hart _].
  now rewrite Hart.
Defined.

(** X28.  Releasing the button ends the drag.  After [onMouseUp] the drag
    state is not dragging, a second release changes nothing, and a pointer
    move never fails and changes neither the regions nor the drag state:
    outside the add-point mode it sets the cursor to the one of the hit,
    and nothing else. *)
Theorem release_ends_the_drag (st : Editor) (pos : Point) :
  let st1 := onMouseUp st in
  isDragging (draggingState st1) = false /\
  regions st1 = regions st /\
  onMouseUp st1 = st1 /\
  exists st2,
    onMouseMove (Some pos) st1 = Some st2 /\
    regions st2 = regions st /\
    draggingState st2 = draggingState st1 /\
    (isWaitingForPointClick st = true -> st2 = st1) /\
    (isWaitingForPointClick st = false ->
     st2 = setCursor (hit_cursor (getHitRegion st1 pos)) st1).
Proof.
  intros st1.
  assert (Hoff : isDragging (draggingState st1) = false).
  { unfold st1, onMouseUp. destruct (isDragging (draggingState st)) eqn:E; [reflexivity|exact E]. }
  assert (Hregs : regions st1 = regions st).
  { unfold st1, onMouseUp. destruct (isDragging (draggingState st)); reflexivity. }
  assert (Hwait : isWaitingForPointClick st1 = isWaitingForPointClick st).
  { unfold st1, onMouseUp. destruct (isDragging (draggingState st)); reflexivity. }
  split; [exact Hoff|]. split; [exact Hregs|]. split.
  { unfold onMouseUp at 1. now rewrite Hoff. }
  unfold onMouseMove. rewrite Hoff, Hwait.
  destruct (isWaitingForPointClick st).
  - exists st1. repeat split; auto. discriminate.
  - eexists. split; [reflexivity|]. repeat split; auto. discriminate.
Qed.
